(** * Jira activity summary: paginated search, working weeks, aggregators

    A shallow embedding of [jira-activity-summary.py] and the proofs of
    the properties its specification states about [jira_search],
    [calculate_working_weeks], [sum_story_points] and [count_by_type].

    Conventions of the embedding:
    - Python [int] is [Z]; a Python [float] is a [pyfloat]: the rational
      that a finite double is, or an infinity, or NaN.  [int / int],
      [float] of an [int] or of a string and the addition of floats
      round to the nearest double and overflow as binary64 does.  The
      two zeros are one value, and the quotients and the percentage that
      the report prints are kept as the exact values.
    - A Python [str] is a [string] whose characters are its code
      points, all below U+0100; among these the decimal digits are
      [0] to [9] and the white space is what [float] strips.  Strings
      with other characters are outside this development, and what
      depends on how a string is read as a date or as a number is
      stated for ASCII strings.
    - A raised exception is a value of [exn]; a function that can raise
      returns a [result].
    - Values decoded from JSON are [json] trees; a dict is an association
      list in key order.
    - The tracker service behind [requests.get] is a state machine
      [fetch] over an arbitrary world type; the logger is a list of
      records. *)

From Stdlib Require Import ZArith List String Ascii Bool Lia QArith Qabs.
From Stdlib Require Import Permutation Sorted.
Import ListNotations.

#[local] Set Warnings "-register-all".

Local Open Scope string_scope.
Local Open Scope list_scope.
Local Open Scope Z_scope.

(* ================================================================= *)
(** ** Python values *)

Module Py.

Inductive exn : Type :=
| ValueError | TypeError | KeyError | AttributeError | OverflowError
| JSONDecodeError | RequestException.

Inductive result (A : Type) : Type :=
| Ok (a : A)
| Raise (e : exn).
Arguments Ok {A} a.
Arguments Raise {A} e.

Definition bind {A B} (r : result A) (k : A -> result B) : result B :=
  match r with
  | Ok a => k a
  | Raise e => Raise e
  end.

Notation "x <- r ;; k" := (bind r (fun x => k))
  (at level 61, r at next level, right associativity).

Inductive pyfloat : Type :=
| Fin (q : Q)
| Inf (negative : bool)
| NaN.

(** *** Rounding to binary64

    A finite float is held as the rational it is.  What Python computes
    from integers and decimal literals is the exact value rounded to the
    nearest double, ties to even; the functions below do this rounding
    on a fraction [n / d] with [0 < d]. *)

(** The integer nearest to [n / d]; of two that are equally near, the
    even one. *)
Definition nearest_even (n d : Z) : Z :=
  let q := n / d in
  match 2 * (n mod d) ?= d with
  | Lt => q
  | Gt => q + 1
  | Eq => if Z.even q then q else q + 1
  end.

(** Whether [n / d] is beyond the doubles: at least half a step above
    the largest one, [2^1024 - 2^971], in size. *)
Definition overflows (n d : Z) : bool :=
  d * (2 ^ 1024 - 2 ^ 970) <=? Z.abs n.

(** The double nearest to [n / d], when that does not overflow.  All
    doubles are multiples of [2^-1074]; those of the size of [n / d]
    are [2^(j - 1074)] apart, where [j] is 0 below [2^-1022] (the
    subnormal numbers) and grows by one with each power of two above. *)
Definition nearest_double (n d : Z) : Q :=
  let t := Z.abs n * 2 ^ 1074 / d in
  let j := Z.max (Z.log2 t - 52) 0 in
  Qred (Qmake (nearest_even (n * 2 ^ 1074) (d * 2 ^ j) * 2 ^ j)
              (Z.to_pos (2 ^ 1074))).

(** The float of an exact value, where a value out of range becomes an
    infinity: float addition and [float] of a decimal literal. *)
Definition to_float (q : Q) : pyfloat :=
  if overflows (Qnum q) (Z.pos (Qden q)) then Inf (Qnum q <? 0)
  else Fin (nearest_double (Qnum q) (Z.pos (Qden q))).

(** [a / b] for an [int] [a] and a positive [int] [b] (the divisors of
    the source are the literals 7 and 5): the quotient rounded to the
    nearest double, and [OverflowError] when it is out of range. *)
Definition truediv (a : Z) (b : positive) : result Q :=
  if overflows a (Z.pos b) then Raise OverflowError
  else Ok (nearest_double a (Z.pos b)).

(** [float(z)] for an [int]. *)
Definition float_of_int (z : Z) : result pyfloat :=
  if overflows z 1 then Raise OverflowError
  else Ok (Fin (nearest_double z 1)).

Inductive json : Type :=
| JNull
| JBool (b : bool)
| JInt (z : Z)
| JFloat (f : pyfloat)
| JString (s : string)
| JList (l : list json)
| JDict (d : list (string * json)).


(** [len(l)] *)
Definition len {A} (l : list A) : Z := Z.of_nat (List.length l).

(** [d.get(k)] on the association list of a dict: [None] when absent. *)
Fixpoint lookup (k : string) (d : list (string * json)) : option json :=
  match d with
  | [] => None
  | (k', v) :: d' => if String.eqb k' k then Some v else lookup k d'
  end.

(** [v[k]]: subscripting with a string key. *)
Definition getitem (v : json) (k : string) : result json :=
  match v with
  | JDict d => match lookup k d with
               | Some x => Ok x
               | None => Raise KeyError
               end
  | _ => Raise TypeError
  end.

(** [v.get(k)]: only a dict has the method; a missing key gives [None],
    which is also what a JSON null decodes to. *)
Definition get (v : json) (k : string) : result json :=
  match v with
  | JDict d => match lookup k d with
               | Some x => Ok x
               | None => Ok JNull
               end
  | _ => Raise AttributeError
  end.

End Py.
Import Py.

(* ================================================================= *)
(** ** Configuration *)

Record Config : Type := {
  atlassian_user : string;
  atlassian_token : string;
  atlassian_site : string;
  start_date : string;
  end_date : string;
  pto_days : Z
}.

(* ================================================================= *)
(** ** The paginated search client *)

Module Search.

(** The query parameters of one request; [nextPageToken] is a key of the
    dict only when the loop holds a truthy token. *)
Record Params : Type := {
  jql : string;
  maxResults : Z;
  fields : string;
  nextPageToken : option string
}.

Record Request : Type := {
  url : string;
  auth : string * string;
  params : Params;
  timeout : Z
}.

(** The decoded body: the result envelope of the search endpoint.  Each
    key may be missing; a missing or null token decodes to [None]. *)
Record Envelope : Type := {
  env_issues : option (list json);
  env_nextPageToken : option string;
  env_total : option Z
}.

(** [json_body = None]: [response.json()] raises. *)
Record Response : Type := {
  status_code : Z;
  text : string;
  json_body : option Envelope
}.

(** What [requests.get] does: raise, or hand back a response. *)
Inductive Reply : Type :=
| Unreachable
| Answer (response : Response).

Inductive Level : Type := DEBUG | INFO | WARNING | ERROR.

Inductive Message : Type :=
| FailedToFetch
| StatusCode (code : Z)
| ResponseText (body : string)
| FetchedOf (fetched total : Z)
| Fetched (fetched : Z)
| NoMoreIssues
| NoNextPageToken
| HitLimit (limit : Z)
| FetchedDone (fetched : Z).

Definition LogRecord : Type := Level * Message.

Inductive outcome : Type :=
| Returned (issues : list json)
| SysExit (code : Z)
| Raised (e : exn)
| OutOfFuel.

(** Truth value of [next_page_token]: [None] and [""] are falsy. *)
Definition truthy (t : option string) : bool :=
  match t with
  | None => false
  | Some s => negb (String.eqb s "")
  end.

Definition default {A} (d : A) (o : option A) : A :=
  match o with
  | Some a => a
  | None => d
  end.

Definition max_iterations : Z := 100.

Definition default_fields : list string :=
  ["summary"; "status"; "issuetype"; "created"; "resolved"].

Section Client.

(** The service: a world state and its answer to each request. *)
Variable World : Type.
Variable fetch : World -> Request -> World * Reply.

(** The variables of the loop, the log, the requests made so far and
    the world. *)
Record Loop : Type := {
  all_issues : list json;
  next_page_token : option string;
  iteration : Z;
  log : list LogRecord;
  trace : list (Request * Reply);
  world : World
}.

Inductive Step : Type :=
| Continue (s : Loop)
| Break (s : Loop)
| Abort (o : outcome) (s : Loop).

Definition logged (s : Loop) (r : list LogRecord) : Loop :=
  {| all_issues := all_issues s; next_page_token := next_page_token s;
     iteration := iteration s; log := log s ++ r; trace := trace s;
     world := world s |}.

(** One pass through the body of the [while]. *)
Definition body (config : Config) (jql_ : string) (fields_ : list string)
    (max_results : Z) (s : Loop) : Step :=
  let params_ :=
    {| jql := jql_; maxResults := max_results;
       fields := String.concat "," fields_;
       nextPageToken := if truthy (next_page_token s)
                        then next_page_token s else None |} in
  let request :=
    {| url := ("https://" ++ atlassian_site config
               ++ "/rest/api/3/search/jql")%string;
       auth := (atlassian_user config, atlassian_token config);
       params := params_; timeout := 30 |} in
  let (w, reply) := fetch (world s) request in
  let s1 :=
    {| all_issues := all_issues s; next_page_token := next_page_token s;
       iteration := iteration s; log := log s;
       trace := trace s ++ [(request, reply)]; world := w |} in
  match reply with
  | Unreachable => Abort (Raised RequestException) s1
  | Answer response =>
    if negb (status_code response =? 200) then
      Abort (SysExit 1)
        (logged s1 [(ERROR, FailedToFetch);
                    (ERROR, StatusCode (status_code response));
                    (ERROR, ResponseText (text response))])
    else
      match json_body response with
      | None => Abort (Raised JSONDecodeError) s1
      | Some data =>
        let issues := default [] (env_issues data) in
        let all := all_issues s1 ++ issues in
        let token := env_nextPageToken data in
        let total := default (len all) (env_total data) in
        let progress :=
          if total >? 0 then (INFO, FetchedOf (len all) total)
          else (INFO, Fetched (len all)) in
        let s2 :=
          {| all_issues := all; next_page_token := token;
             iteration := iteration s1; log := log s1 ++ [progress];
             trace := trace s1; world := world s1 |} in
        if len issues =? 0 then Break (logged s2 [(DEBUG, NoMoreIssues)])
        else if negb (truthy token) then
          Break (logged s2 [(DEBUG, NoNextPageToken)])
        else
          Continue
            {| all_issues := all_issues s2;
               next_page_token := next_page_token s2;
               iteration := iteration s2 + 1; log := log s2;
               trace := trace s2; world := world s2 |}
      end
  end.

Inductive Exit : Type :=
| Normal
| Aborted (o : outcome)
| Exhausted.

(** [while iteration < max_iterations: ...].  The fuel bounds the number
    of passes; [jira_search_terminates] shows [max_iterations] passes
    are always enough. *)
Fixpoint while_loop (fuel : nat) (config : Config) (jql_ : string)
    (fields_ : list string) (max_results : Z) (s : Loop) : Exit * Loop :=
  if iteration s <? max_iterations then
    match fuel with
    | O => (Exhausted, s)
    | S fuel' =>
      match body config jql_ fields_ max_results s with
      | Continue s' => while_loop fuel' config jql_ fields_ max_results s'
      | Break s' => (Normal, s')
      | Abort o s' => (Aborted o, s')
      end
    end
  else (Normal, s).

(** What the caller and the outside observe of one call. *)
Record Run : Type := {
  result : outcome;
  run_log : list LogRecord;
  requests : list (Request * Reply);
  run_world : World
}.

Definition jira_search (config : Config) (jql_ : string)
    (fields_ : option (list string)) (max_results : Z) (w : World) : Run :=
  let fields_ := default default_fields fields_ in
  let s0 :=
    {| all_issues := []; next_page_token := None; iteration := 0;
       log := []; trace := []; world := w |} in
  match while_loop (Z.to_nat max_iterations) config jql_ fields_
          max_results s0 with
  | (Normal, s) =>
    let s' :=
      if iteration s >=? max_iterations
      then logged s [(WARNING, HitLimit max_iterations)] else s in
    {| result := Returned (all_issues s');
       run_log := log s' ++ [(INFO, FetchedDone (len (all_issues s')))];
       requests := trace s'; run_world := world s' |}
  | (Aborted o, s) =>
    {| result := o; run_log := log s; requests := trace s;
       run_world := world s |}
  | (Exhausted, s) =>
    {| result := OutOfFuel; run_log := log s; requests := trace s;
       run_world := world s |}
  end.

(** *** Reading the trace *)

(** The issue list a reply added to the accumulator. *)
Definition page_of (reply : Reply) : list json :=
  match reply with
  | Answer response =>
    if status_code response =? 200 then
      match json_body response with
      | Some data => default [] (env_issues data)
      | None => []
      end
    else []
  | Unreachable => []
  end.

Definition fetched_pages (t : list (Request * Reply)) : list (list json) :=
  map (fun x => page_of (snd x)) t.

(** The replies after which the loop goes round again: status 200, a
    decodable body, at least one issue and a truthy token. *)
Definition continues (reply : Reply) : bool :=
  match reply with
  | Answer response =>
    (status_code response =? 200) &&
    match json_body response with
    | Some data =>
      negb (len (default [] (env_issues data)) =? 0) &&
      truthy (env_nextPageToken data)
    | None => false
    end
  | Unreachable => false
  end.

(** A reply that is a page: status 200 with a decodable body. *)
Definition page_reply (reply : Reply) : option Envelope :=
  match reply with
  | Answer response =>
    if status_code response =? 200 then json_body response else None
  | Unreachable => None
  end.

(** *** The loop as a relation

    [pass s rq reply s']: a pass that sent [rq] and got [reply] took
    the loop from [s] to [s']. *)
Definition pass (s : Loop) (rq : Request) (reply : Reply) (s' : Loop)
  : Prop :=
  fetch (world s) rq = (world s', reply) /\
  trace s' = trace s ++ [(rq, reply)] /\
  all_issues s' = all_issues s ++ page_of reply.

Definition level_is (lv : Level) (r : LogRecord) : Prop := fst r = lv.

(** [run_loop s new e s']: from [s] the loop makes the requests [new]
    and leaves through [e] in state [s']. *)
Inductive run_loop : Loop -> list (Request * Reply) -> Exit -> Loop -> Prop :=
| run_done s :
    max_iterations <= iteration s ->
    run_loop s [] Normal s
| run_continue s rq reply s' m new e s'' :
    iteration s < max_iterations ->
    pass s rq reply s' ->
    continues reply = true ->
    iteration s' = iteration s + 1 ->
    log s' = log s ++ [(INFO, m)] ->
    run_loop s' new e s'' ->
    run_loop s ((rq, reply) :: new) e s''
| run_break s rq reply s' m d :
    iteration s < max_iterations ->
    pass s rq reply s' ->
    continues reply = false ->
    page_reply reply <> None ->
    iteration s' = iteration s ->
    log s' = log s ++ [(INFO, m); (DEBUG, d)] ->
    run_loop s [(rq, reply)] Normal s'
| run_abort s rq reply s' o errors :
    iteration s < max_iterations ->
    pass s rq reply s' ->
    page_reply reply = None ->
    (forall l, o <> Returned l) ->
    o <> OutOfFuel ->
    iteration s' = iteration s ->
    log s' = log s ++ errors ->
    Forall (level_is ERROR) errors ->
    run_loop s [(rq, reply)] (Aborted o) s'.

End Client.

Arguments all_issues {World} _.
Arguments next_page_token {World} _.
Arguments iteration {World} _.
Arguments log {World} _.
Arguments trace {World} _.
Arguments world {World} _.
Arguments result {World} _.
Arguments run_log {World} _.
Arguments requests {World} _.
Arguments run_world {World} _.
Arguments Continue {World} _.
Arguments Break {World} _.
Arguments Abort {World} _ _.

(** *** Services to run the client against *)

Definition page (l : list json) (token : option string) (total : option Z)
  : Reply :=
  Answer {| status_code := 200; text := "";
            json_body := Some {| env_issues := Some l;
                                 env_nextPageToken := token;
                                 env_total := total |} |}.

(** Plays a script, one reply per request; unreachable once the script
    is over. *)
Definition scripted (w : list Reply) (_ : Request) : list Reply * Reply :=
  match w with
  | [] => ([], Unreachable)
  | r :: w' => (w', r)
  end.

(** Answers every request with one more issue and a token. *)
Definition endless (n : Z) (_ : Request) : Z * Reply :=
  (n + 1, page [JInt n] (Some "more") None).

(** Three pages, of which the second carries no token. *)
Definition script_no_token : list Reply :=
  [page [JInt 1; JInt 2] (Some "a") (Some 5);
   page [JInt 3] None (Some 5);
   page [JInt 4] None None].

(** Three pages, of which the second has no issues but a token. *)
Definition script_empty_page : list Reply :=
  [page [JInt 1; JInt 2] (Some "a") (Some 5);
   page [] (Some "b") (Some 5);
   page [JInt 4] None None].

(** Three pages, of which the second carries the empty string as its
    token. *)
Definition script_empty_token : list Reply :=
  [page [JInt 1; JInt 2] (Some "a") (Some 5);
   page [JInt 3] (Some "") (Some 5);
   page [JInt 4] None None].

(** A page, then a refusal of the service. *)
Definition script_refused : list Reply :=
  [page [JInt 1; JInt 2] (Some "a") (Some 5);
   Answer {| status_code := 503; text := "Service Unavailable";
             json_body := None |}].

(** A single page without issues that carries a token. *)
Definition script_nothing : list Reply := [page [] (Some "b") (Some 0)].

Definition config0 : Config :=
  {| atlassian_user := "me@example.com"; atlassian_token := "secret";
     atlassian_site := "example.atlassian.net";
     start_date := "2025-02-28"; end_date := "2026-02-02"; pto_days := 0 |}.

Definition run_script (script : list Reply) : Run (list Reply) :=
  jira_search _ scripted config0 "assignee = currentUser()" None 100 script.

Definition run_endless : Run Z :=
  jira_search _ endless config0 "assignee = currentUser()" None 100 0.

(** *** Reference notions for the statements *)

(** No record of level [lv] in a log. *)
Definition no_level (lv : Level) (l : list LogRecord) : Prop :=
  forall m, ~ In (lv, m) l.

(** Sum of the page sizes. *)
Definition total_size (pages : list (list json)) : Z :=
  fold_right Z.add 0 (map len pages).

(** *** The conversation with the service *)

(** How a reply that is no page ends the call. *)
Definition failure_of (reply : Reply) : outcome :=
  match reply with
  | Unreachable => Raised RequestException
  | Answer response =>
    if negb (status_code response =? 200) then SysExit 1
    else Raised JSONDecodeError
  end.

(** What is logged for such a reply. *)
Definition errors_of (reply : Reply) : list LogRecord :=
  match reply with
  | Unreachable => []
  | Answer response =>
    if negb (status_code response =? 200) then
      [(ERROR, FailedToFetch);
       (ERROR, StatusCode (status_code response));
       (ERROR, ResponseText (text response))]
    else []
  end.

(** The number of issues a progress record reports. *)
Definition progress_of (r : LogRecord) : list Z :=
  match r with
  | (INFO, FetchedOf fetched _) => [fetched]
  | (INFO, Fetched fetched) => [fetched]
  | _ => []
  end.

Definition progress_counts (l : list LogRecord) : list Z :=
  flat_map progress_of l.

(** The sizes of the pages, each added to those before it. *)
Fixpoint running_sizes (so_far : Z) (pages : list (list json)) : list Z :=
  match pages with
  | [] => []
  | p :: pages' => (so_far + len p) :: running_sizes (so_far + len p) pages'
  end.

(** How the loop leaves, by the replies it got on the way from [s] to
    [s']. *)
Definition ends_as (World : Type) (s : Loop World) (e : Exit)
    (s' : Loop World) : Prop :=
  exists new,
    trace s' = trace s ++ new /\
    all_issues s' = all_issues s ++ List.concat (fetched_pages new) /\
    match e with
    | Normal =>
      Forall (fun x => page_reply (snd x) <> None) new /\
      progress_counts (log s') =
        progress_counts (log s) ++
        running_sizes (len (all_issues s)) (fetched_pages new)
    | Aborted o =>
      exists pre rq reply,
        new = pre ++ [(rq, reply)] /\ page_reply reply = None /\
        o = failure_of reply /\
        exists before, log s' = before ++ errors_of reply
    | Exhausted => False
    end.

(** The request the loop sends while it holds [token]. *)
Definition request_of (config : Config) (jql_ : string)
    (fields_ : list string) (max_results : Z) (token : option string)
  : Request :=
  {| url := ("https://" ++ atlassian_site config
             ++ "/rest/api/3/search/jql")%string;
     auth := (atlassian_user config, atlassian_token config);
     params := {| jql := jql_; maxResults := max_results;
                  fields := String.concat "," fields_;
                  nextPageToken := if truthy token then token else None |};
     timeout := 30 |}.

(** The token a reply leaves in the loop. *)
Definition token_after (reply : Reply) : option string :=
  match page_reply reply with
  | Some data => env_nextPageToken data
  | None => None
  end.

(** The exchange of at most [n] requests that starts in the world [w]
    with [token] in hand: a reply that asks for more is followed by a
    request that carries its token, any other reply is the last. *)
Fixpoint exchange {World : Type} (fetch : World -> Request -> World * Reply)
    (config : Config) (jql_ : string) (fields_ : list string)
    (max_results : Z) (n : nat) (w : World) (token : option string)
  : list (Request * Reply) :=
  match n with
  | O => []
  | S n' =>
    let rq := request_of config jql_ fields_ max_results token in
    let (w', reply) := fetch w rq in
    (rq, reply) ::
    (if continues reply
     then exchange fetch config jql_ fields_ max_results n' w'
            (token_after reply)
     else [])
  end.

End Search.

(* ================================================================= *)
(** ** The date and working-week calculator *)

Module Dates.

(** A [datetime] built by [strptime] from ["%Y-%m-%d"]: the time of day
    is midnight and there is no time zone, so the date fields are all
    that the calculator observes. *)
Record datetime : Type := {
  year : Z;
  month : Z;
  day : Z
}.

(** *** The calendar of the [datetime] module *)

Definition is_leap (y : Z) : bool :=
  (y mod 4 =? 0) && (negb (y mod 100 =? 0) || (y mod 400 =? 0)).

Definition DAYS_IN_MONTH : list Z :=
  [-1; 31; 28; 31; 30; 31; 30; 31; 31; 30; 31; 30; 31].

Definition DAYS_BEFORE_MONTH : list Z :=
  [-1; 0; 31; 59; 90; 120; 151; 181; 212; 243; 273; 304; 334].

Definition days_in_month (y m : Z) : Z :=
  if (m =? 2) && is_leap y then 29
  else nth (Z.to_nat m) DAYS_IN_MONTH 0.

Definition days_before_year (y : Z) : Z :=
  let y' := y - 1 in
  y' * 365 + y' / 4 - y' / 100 + y' / 400.

Definition days_before_month (y m : Z) : Z :=
  nth (Z.to_nat m) DAYS_BEFORE_MONTH 0 +
  (if (m >? 2) && is_leap y then 1 else 0).

Definition ymd2ord (y m d : Z) : Z :=
  days_before_year y + days_before_month y m + d.

Definition MINYEAR : Z := 1.
Definition MAXYEAR : Z := 9999.

(** The check of the [datetime] constructor. *)
Definition check_date_fields (y m d : Z) : bool :=
  (MINYEAR <=? y) && (y <=? MAXYEAR) &&
  (1 <=? m) && (m <=? 12) &&
  (1 <=? d) && (d <=? days_in_month y m).

Definition valid (dt : datetime) : bool :=
  check_date_fields (year dt) (month dt) (day dt).

Definition toordinal (dt : datetime) : Z :=
  ymd2ord (year dt) (month dt) (day dt).

(** Monday is 0, Sunday is 6. *)
Definition weekday (dt : datetime) : Z :=
  (toordinal dt + 6) mod 7.

(** [a < b] on datetimes compares the fields in order. *)
Definition lt (a b : datetime) : bool :=
  (year a <? year b) ||
  ((year a =? year b) &&
   ((month a <? month b) ||
    ((month a =? month b) && (day a <? day b)))).

(** [dt + timedelta(days=1)]: the next calendar day; past the last day
    of [MAXYEAR] the addition raises. *)
Definition add_day (dt : datetime) : result datetime :=
  if day dt <? days_in_month (year dt) (month dt) then
    Ok {| year := year dt; month := month dt; day := day dt + 1 |}
  else if month dt <? 12 then
    Ok {| year := year dt; month := month dt + 1; day := 1 |}
  else if year dt <? MAXYEAR then
    Ok {| year := year dt + 1; month := 1; day := 1 |}
  else Raise OverflowError.

(** [(b - a).days] *)
Definition days_between (a b : datetime) : Z :=
  toordinal b - toordinal a.

(** *** [datetime.strptime(s, "%Y-%m-%d")]

    The format compiles to the regular expression
    [(\d\d\d\d)-(1[0-2]|0[1-9]|[1-9])-(3[0-1]|[1-2]\d|0[1-9]|[1-9]| [1-9])],
    matched at the start of the string with the alternatives tried in
    order; text left after the match, and fields that are no date, are
    a [ValueError].  [\d] matches the decimal digits, which among the
    characters of a [string] (those below U+0100) are [0] to [9]. *)

Definition digit_of (c : ascii) : option Z :=
  let n := Z.of_N (N_of_ascii c) in
  if (48 <=? n) && (n <=? 57) then Some (n - 48) else None.

Definition in_range (lo hi : Z) (c : ascii) : option Z :=
  match digit_of c with
  | Some n => if (lo <=? n) && (n <=? hi) then Some n else None
  | None => None
  end.

Definition literal (c : ascii) (l : list ascii) : option (list ascii) :=
  match l with
  | x :: rest => if Ascii.eqb x c then Some rest else None
  | [] => None
  end.

(** [c1 c2] with [c1] a digit in [lo1..hi1] and [c2] one in [lo2..hi2]. *)
Definition two_digits (lo1 hi1 lo2 hi2 : Z) (l : list ascii)
  : list (Z * list ascii) :=
  match l with
  | a :: b :: rest =>
    match in_range lo1 hi1 a, in_range lo2 hi2 b with
    | Some x, Some y => [(10 * x + y, rest)]
    | _, _ => []
    end
  | _ => []
  end.

Definition one_digit (lo hi : Z) (l : list ascii) : list (Z * list ascii) :=
  match l with
  | a :: rest =>
    match in_range lo hi a with
    | Some x => [(x, rest)]
    | None => []
    end
  | [] => []
  end.

Definition space_digit (lo hi : Z) (l : list ascii) : list (Z * list ascii) :=
  match literal " " l with
  | Some rest => one_digit lo hi rest
  | None => []
  end.

(** [%Y]: four digits. *)
Definition match_Y (l : list ascii) : option (Z * list ascii) :=
  match l with
  | a :: b :: c :: d :: rest =>
    match digit_of a, digit_of b, digit_of c, digit_of d with
    | Some a, Some b, Some c, Some d =>
      Some (1000 * a + 100 * b + 10 * c + d, rest)
    | _, _, _, _ => None
    end
  | _ => None
  end.

(** [%m] and [%d]: every way the group can match, in order of
    preference. *)
Definition match_m (l : list ascii) : list (Z * list ascii) :=
  two_digits 1 1 0 2 l ++ two_digits 0 0 1 9 l ++ one_digit 1 9 l.

Definition match_d (l : list ascii) : list (Z * list ascii) :=
  two_digits 3 3 0 1 l ++ two_digits 1 2 0 9 l ++ two_digits 0 0 1 9 l ++
  one_digit 1 9 l ++ space_digit 1 9 l.

(** Backtracking: the first alternative from which the rest of the
    pattern matches. *)
Fixpoint first_match {A B} (k : A -> option B) (alts : list A) : option B :=
  match alts with
  | [] => None
  | a :: alts' =>
    match k a with
    | Some b => Some b
    | None => first_match k alts'
    end
  end.

(** [(%m)-(%d)], the part of the pattern after the year and its dash. *)
Definition match_month_day (l : list ascii) : option (Z * Z * list ascii) :=
  first_match
    (fun '(m, l1) =>
       match literal "-" l1 with
       | None => None
       | Some l2 => first_match (fun '(d, l3) => Some (m, d, l3)) (match_d l2)
       end)
    (match_m l).

Definition regex_match (l : list ascii) : option (Z * Z * Z * list ascii) :=
  match match_Y l with
  | None => None
  | Some (y, l1) =>
    match literal "-" l1 with
    | None => None
    | Some l2 =>
      match match_month_day l2 with
      | None => None
      | Some (m, d, rest) => Some (y, m, d, rest)
      end
    end
  end.

Definition strptime (s : string) : result datetime :=
  match regex_match (list_ascii_of_string s) with
  | None => Raise ValueError
  | Some (y, m, d, rest) =>
    match rest with
    | _ :: _ => Raise ValueError
    | [] =>
      if check_date_fields y m d
      then Ok {| year := y; month := m; day := d |}
      else Raise ValueError
    end
  end.

(** *** [calculate_working_weeks] *)

(** The exact quotient of two integers, in lowest terms: the value
    that [/] rounds. *)
Definition true_div (a b : Z) : Q := Qred (inject_Z a / inject_Z b).

(** The [while current < end] scan.  [None] is fuel running out, which
    [scan_enough_fuel] rules out for the fuel the caller passes. *)
Fixpoint scan (fuel : nat) (current end_ : datetime) (weekdays : Z)
  : option (result Z) :=
  if lt current end_ then
    match fuel with
    | O => None
    | S fuel' =>
      let weekdays' :=
        if weekday current <? 5 then weekdays + 1 else weekdays in
      match add_day current with
      | Ok current' => scan fuel' current' end_ weekdays'
      | Raise e => Some (Raise e)
      end
    end
  else Some (Ok weekdays).

(** The weekday count of the period. *)
Definition count_weekdays (start end_ : datetime) : option (result Z) :=
  scan (Z.to_nat (days_between start end_)) start end_ 0.

(** The tuple of the result; the two floats are finite. *)
Definition WorkingWeeks : Type := Z * Q * Z * Q.

Definition calculate_working_weeks (start_date end_date : string)
    (pto_days : Z) : option (result WorkingWeeks) :=
  match strptime start_date with
  | Raise e => Some (Raise e)
  | Ok start =>
    match strptime end_date with
    | Raise e => Some (Raise e)
    | Ok end_ =>
      let total_days := days_between start end_ in
      match truediv total_days 7 with
      | Raise e => Some (Raise e)
      | Ok total_weeks =>
        match count_weekdays start end_ with
        | None => None
        | Some (Raise e) => Some (Raise e)
        | Some (Ok weekdays) =>
          let working_days := weekdays - pto_days in
          match truediv working_days 5 with
          | Raise e => Some (Raise e)
          | Ok working_weeks =>
            Some (Ok (total_days, total_weeks, working_days, working_weeks))
          end
        end
      end
    end
  end.

(** *** Reference notions for the statements *)

(** Weekday index of the day with a given ordinal. *)
Definition weekday_of_ordinal (o : Z) : Z := (o + 6) mod 7.

(** Monday (0) through Friday (4). *)
Definition is_weekday (o : Z) : bool :=
  (0 <=? weekday_of_ordinal o) && (weekday_of_ordinal o <=? 4).

(** The ordinals [a, a+1, ..., a+n-1]. *)
Fixpoint ordinals_from (a : Z) (n : nat) : list Z :=
  match n with
  | O => []
  | S n' => a :: ordinals_from (a + 1) n'
  end.

(** The days from [a] up to but not including [b]. *)
Definition days_from_to (a b : Z) : list Z :=
  ordinals_from a (Z.to_nat (b - a)).

Definition weekdays_between (a b : Z) : Z :=
  len (filter is_weekday (days_from_to a b)).

(** The ways to write a date that the format accepts: the year with
    four digits; the month and the day with two digits, or with one when
    below ten; a day below ten also with a space in front. *)
Definition digit_char (n : Z) : ascii := ascii_of_N (Z.to_N (48 + n)).

Definition four_digits (y : Z) : list ascii :=
  [digit_char (y / 1000); digit_char (y / 100 mod 10);
   digit_char (y / 10 mod 10); digit_char (y mod 10)].

Definition two_digit (n : Z) : list ascii :=
  [digit_char (n / 10); digit_char (n mod 10)].

Definition month_spellings (m : Z) : list (list ascii) :=
  if m <? 10 then [two_digit m; [digit_char m]] else [two_digit m].

Definition day_spellings (d : Z) : list (list ascii) :=
  if d <? 10 then [two_digit d; [digit_char d]; [" "%char; digit_char d]]
  else [two_digit d].

Definition written_as (s : string) (dt : datetime) : Prop :=
  exists ms ds,
    In ms (month_spellings (month dt)) /\
    In ds (day_spellings (day dt)) /\
    list_ascii_of_string s =
      four_digits (year dt) ++ "-"%char :: ms ++ "-"%char :: ds.

(** A string that is a valid calendar date. *)
Definition calendar_date (s : string) : Prop :=
  exists dt, valid dt = true /\ written_as s dt.

(** The numbers [lo, lo+1, ..., lo+n-1]. *)
Definition range (lo : Z) (n : nat) : list Z := ordinals_from lo n.

(** Whether every spelling of every month 1..12 and day 1..31 is read
    back by the month-and-day part of the pattern. *)
Definition spellings_read_back : bool :=
  forallb
    (fun m =>
       forallb
         (fun d =>
            forallb
              (fun ms =>
                 forallb
                   (fun ds =>
                      match match_month_day (ms ++ "-"%char :: ds) with
                      | Some (m', d', []) => (m' =? m) && (d' =? d)
                      | _ => false
                      end)
                   (day_spellings d))
              (month_spellings m))
         (range 1 31))
    (range 1 12).

End Dates.

(* ================================================================= *)
(** ** The aggregators *)

Module Aggregators.

(** *** [float(x)] *)

Definition code (c : ascii) : Z := Z.of_N (N_of_ascii c).

(** White space that [float] strips from both ends of a string: tab to
    carriage return and the space, and the two white-space characters
    from U+0080 on, NEL and the no-break space, which [float] replaces
    by a space before it parses. *)
Definition is_space (c : ascii) : bool :=
  ((9 <=? code c) && (code c <=? 13)) || (code c =? 32) ||
  (code c =? 133) || (code c =? 160).

Definition is_digit (c : ascii) : bool :=
  (48 <=? code c) && (code c <=? 57).

Definition lower (c : ascii) : ascii :=
  if (65 <=? code c) && (code c <=? 90)
  then ascii_of_N (Z.to_N (code c + 32)) else c.

Fixpoint lstrip (l : list ascii) : list ascii :=
  match l with
  | c :: rest => if is_space c then lstrip rest else l
  | [] => []
  end.

Definition strip (l : list ascii) : list ascii :=
  rev (lstrip (rev (lstrip l))).

(** An underscore may only stand between two digits; the underscores
    are dropped before the number is read. *)
Fixpoint drop_underscores (prev : option ascii) (l : list ascii)
  : option (list ascii) :=
  match l with
  | [] => Some []
  | c :: rest =>
    if Ascii.eqb c "_" then
      match prev, rest with
      | Some p, d :: _ =>
        if is_digit p && is_digit d then drop_underscores (Some c) rest
        else None
      | _, _ => None
      end
    else
      match drop_underscores (Some c) rest with
      | Some r => Some (c :: r)
      | None => None
      end
  end.

(** A run of digits read onto [acc]: the number, how many digits were
    read, and the rest. *)
Fixpoint digits (l : list ascii) (acc count : Z) : Z * Z * list ascii :=
  match l with
  | c :: rest =>
    if is_digit c then digits rest (10 * acc + (code c - 48)) (count + 1)
    else (acc, count, l)
  | [] => (acc, count, [])
  end.

Definition sign (l : list ascii) : bool * list ascii :=
  match l with
  | c :: rest =>
    if Ascii.eqb c "+" then (false, rest)
    else if Ascii.eqb c "-" then (true, rest)
    else (false, l)
  | [] => (false, [])
  end.

(** [m * 10 ** e] *)
Definition scale (m e : Z) : Q :=
  if 0 <=? e then inject_Z (m * 10 ^ e)
  else Qred (Qmake m (Z.to_pos (10 ^ (- e)))).

Definition exponent (l : list ascii) : Z * list ascii :=
  match l with
  | c :: rest =>
    if Ascii.eqb (lower c) "e" then
      let (neg, l1) := sign rest in
      let '(e, n, l2) := digits l1 0 0 in
      if n =? 0 then (0, l) else (if neg then - e else e, l2)
    else (0, l)
  | [] => (0, [])
  end.

(** The decimal literal after the sign. *)
Definition floatnumber (l : list ascii) : option Q :=
  let '(m1, n1, l1) := digits l 0 0 in
  let '(m2, n2, l2) :=
    match l1 with
    | c :: rest => if Ascii.eqb c "." then digits rest m1 0 else (m1, 0, l1)
    | [] => (m1, 0, l1)
    end in
  if n1 + n2 =? 0 then None
  else
    let (e, l3) := exponent l2 in
    match l3 with
    | [] => Some (scale m2 (e - n2))
    | _ :: _ => None
    end.

(** [float(s)] for a string: [None] is the [ValueError].  The literal
    is rounded to the nearest double; one that is out of range gives an
    infinity. *)
Definition float_of_string (s : string) : option pyfloat :=
  match drop_underscores None (strip (list_ascii_of_string s)) with
  | None => None
  | Some l =>
    let (neg, l1) := sign l in
    let word := string_of_list_ascii (map lower l1) in
    if String.eqb word "inf" || String.eqb word "infinity" then Some (Inf neg)
    else if String.eqb word "nan" then Some NaN
    else
      match floatnumber l1 with
      | Some q => Some (to_float (if neg then Qred (- q) else q))
      | None => None
      end
  end.

(** [float(v)]: an [int] beyond the doubles is an [OverflowError]. *)
Definition float (v : json) : result pyfloat :=
  match v with
  | JNull => Raise TypeError
  | JBool b => Ok (Fin (if b then 1 else 0))
  | JInt z => float_of_int z
  | JFloat f => Ok f
  | JString s =>
    match float_of_string s with
    | Some f => Ok f
    | None => Raise ValueError
    end
  | JList _ => Raise TypeError
  | JDict _ => Raise TypeError
  end.

(** [a + b] on floats: the sum of two finite floats is rounded to the
    nearest double, and is an infinity when that is out of range. *)
Definition fadd (a b : pyfloat) : pyfloat :=
  match a, b with
  | NaN, _ => NaN
  | _, NaN => NaN
  | Inf s, Inf t => if Bool.eqb s t then Inf s else NaN
  | Inf s, Fin _ => Inf s
  | Fin _, Inf t => Inf t
  | Fin x, Fin y => to_float (x + y)
  end.

(** *** [sum_story_points] *)

Definition default_field_name : string := "customfield_10014".

(** The [for] loop, with [total] and [count] as accumulators. *)
Fixpoint sum_loop (issues : list json) (field_name : string)
    (total : pyfloat) (count : Z) : result (pyfloat * Z) :=
  match issues with
  | [] => Ok (total, count)
  | issue :: rest =>
    fields <- getitem issue "fields" ;;
    sp <- get fields field_name ;;
    match sp with
    | JNull => sum_loop rest field_name total count
    | _ =>
      match float sp with
      | Ok x => sum_loop rest field_name (fadd total x) (count + 1)
      | Raise ValueError => sum_loop rest field_name total count
      | Raise TypeError => sum_loop rest field_name total count
      | Raise e => Raise e
      end
    end
  end.

Definition sum_story_points (issues : list json) (field_name : string)
  : result (pyfloat * Z) :=
  sum_loop issues field_name (Fin 0) 0.

(** *** [count_by_type] *)

(** Keys a dict accepts. *)
Definition hashable (v : json) : bool :=
  match v with
  | JList _ => false
  | JDict _ => false
  | _ => true
  end.

Definition float_eqb (a b : pyfloat) : bool :=
  match a, b with
  | Fin x, Fin y => Qeq_bool x y
  | Inf s, Inf t => Bool.eqb s t
  | NaN, NaN => true
  | _, _ => false
  end.

(** The value of a number: [bool] is a subtype of [int]. *)
Definition numeric (v : json) : option pyfloat :=
  match v with
  | JBool b => Some (Fin (if b then 1 else 0))
  | JInt z => Some (Fin (inject_Z z))
  | JFloat f => Some f
  | _ => None
  end.

(** Whether two keys are the same key of a dict: strings by their
    text, [None] with itself, and the numbers by their value.  (The JSON
    decoder hands out one NaN object, which a dict finds by identity.) *)
Definition key_eqb (a b : json) : bool :=
  match a, b with
  | JNull, JNull => true
  | JString s, JString t => String.eqb s t
  | _, _ =>
    match numeric a, numeric b with
    | Some x, Some y => float_eqb x y
    | _, _ => false
    end
  end.

(** A [Counter]: the items of the dict in insertion order. *)
Definition Counter : Type := list (json * Z).

(** [c[k]]: a missing key counts zero. *)
Fixpoint counter_get (c : Counter) (k : json) : Z :=
  match c with
  | [] => 0
  | (k', n) :: c' => if key_eqb k' k then n else counter_get c' k
  end.

(** [c[k] = c.get(k, 0) + 1] *)
Fixpoint incr (k : json) (c : Counter) : Counter :=
  match c with
  | [] => [(k, 1)]
  | (k', n) :: c' =>
    if key_eqb k' k then (k', n + 1) :: c' else (k', n) :: incr k c'
  end.

(** [Counter(iterable)], counting the elements onto [c]. *)
Fixpoint counter_update (c : Counter) (l : list json) : result Counter :=
  match l with
  | [] => Ok c
  | k :: l' =>
    if hashable k then counter_update (incr k c) l' else Raise TypeError
  end.

(** [issue["fields"]["issuetype"]["name"]] *)
Definition type_name (issue : json) : result json :=
  fields <- getitem issue "fields" ;;
  issuetype <- getitem fields "issuetype" ;;
  getitem issuetype "name".

(** The list comprehension. *)
Fixpoint types_of (issues : list json) : result (list json) :=
  match issues with
  | [] => Ok []
  | issue :: rest =>
    t <- type_name issue ;;
    ts <- types_of rest ;;
    Ok (t :: ts)
  end.

Definition count_by_type (issues : list json) : result Counter :=
  types <- types_of issues ;;
  counter_update [] types.

(** *** [Counter.most_common()]: [sorted(items, key=count, reverse=True)],
    a stable sort. *)

Fixpoint insert_desc (x : json * Z) (l : list (json * Z)) : list (json * Z) :=
  match l with
  | [] => [x]
  | y :: l' => if snd y <=? snd x then x :: l else y :: insert_desc x l'
  end.

Definition most_common (c : Counter) : list (json * Z) :=
  fold_right insert_desc [] c.

(** *** Reference notions for the statements *)

(** An issue of the data model: a type name and the other fields. *)
Definition issue_of (name : string) (others : list (string * json)) : json :=
  JDict [("fields",
          JDict (("issuetype", JDict [("name", JString name)]) :: others))].

(** An issue whose only field of interest holds [v]. *)
Definition issue_with (field_name : string) (v : json) : json :=
  JDict [("fields", JDict [(field_name, v)])].

(** An issue without the field. *)
Definition issue_without : json := JDict [("fields", JDict [])].

(** An integer beyond the doubles: at least [2^1024 - 2^970] in
    size. *)
Definition too_large (v : json) : bool :=
  match v with
  | JInt z => overflows z 1
  | _ => false
  end.



(** The float a field value stands for, if it is parseable as one. *)
Definition number_of (v : json) : option pyfloat :=
  match v with
  | JBool b => Some (Fin (if b then 1 else 0))
  | JInt z => if too_large v then None else Some (Fin (nearest_double z 1))
  | JFloat f => Some f
  | JString s => float_of_string s
  | _ => None
  end.

(** How often [s] occurs among [names]. *)
Fixpoint occurrences (s : string) (names : list string) : Z :=
  match names with
  | [] => 0
  | n :: rest => (if String.eqb n s then 1 else 0) + occurrences s rest
  end.

(** The distinct names in the order of their first occurrence. *)
Fixpoint first_seen (names : list string) : list string :=
  match names with
  | [] => []
  | n :: rest =>
    n :: filter (fun m => negb (String.eqb m n)) (first_seen rest)
  end.

Definition total_count (c : Counter) : Z :=
  fold_right Z.add 0 (map snd c).

(** [field_value issue f v]: the issue has a dict of fields, in which
    [.get(f)] finds [v]; [v] is [JNull] when the field is absent. *)
Definition field_value (issue : json) (field_name : string) (v : json)
  : Prop :=
  exists fields,
    getitem issue "fields" = Ok fields /\ get fields field_name = Ok v.

(** The numbers among field values, in order. *)
Definition numbers (values : list json) : list pyfloat :=
  flat_map (fun v => match number_of v with
                     | Some x => [x]
                     | None => []
                     end) values.

(** The issue has the type name [name]. *)
Definition named (issue : json) (name : string) : Prop :=
  type_name issue = Ok (JString name).

(** Each distinct name with the number of its occurrences, in the order
    in which the names are first seen. *)
Definition tally (names : list string) : Counter :=
  map (fun n => (JString n, occurrences n names)) (first_seen names).

(** Entries in descending order of count. *)
Definition by_count_desc (a b : json * Z) : Prop := snd b <= snd a.

Definition with_count (k : Z) (e : json * Z) : bool := snd e =? k.

(** The issues of the example: field values [3, "5", null, "bad", 2.5]. *)
Definition example_story_points : list json :=
  [issue_with default_field_name (JInt 3);
   issue_with default_field_name (JString "5");
   issue_with default_field_name JNull;
   issue_with default_field_name (JString "bad");
   issue_with default_field_name (JFloat (Fin (5 # 2)))].

(** The issues of the example: types [Bug, Bug, Story]. *)
Definition example_types : list json :=
  [issue_of "Bug" []; issue_of "Bug" []; issue_of "Story" []].

(** A longer list of types, with ties among the counts. *)
Definition example_names : list string :=
  ["Story"; "Bug"; "Task"; "Bug"; "Epic"; "Story"; "Bug"].

End Aggregators.

(* ================================================================= *)
(** ** The report *)

Module Report.
Import Search Dates Aggregators.

(** The exceptions of the report: those of the parts, and the division
    by zero. *)
Inductive error : Type :=
| Of (e : exn)
| ZeroDivisionError.

(** What the functions of the report hand to the logger: the fixed
    lines by their role, the others with the values they show before
    they are formatted.  The records of a search are passed on as they
    are. *)
Inductive Message : Type :=
| Box
| Heading (title : string)
| Blank
| Period (start_date end_date : string)
| NotConfigured
| Help (line : Z)
| Connecting
| Site (site : string)
| User (user : string)
| PeriodDays (total_days : Z) (total_weeks : Q)
| WeekdaysInPeriod (weekdays : Z)
| WorkingDaysLessPto (pto_days working_days : Z) (working_weeks : Q)
| WorkingDays (working_days : Z) (working_weeks : Q)
| Total (what : string) (n : Z)
| Breakdown
| Share (issue_type : json) (count : Z) (percentage : Q)
| TotalPoints (total : pyfloat)
| WithPoints (count of_issues : Z)
| NotAllHavePoints
| Rate (what : string) (per_week : pyfloat)
| SummaryComplete
| Tip
| SaveTo (start_date end_date : string)
| FromSearch (m : Search.Message)
| ErrorIs (e : error).

Definition Entry : Type := Level * Message.

(** What ends a function early: [sys.exit], an exception that nothing
    catches, or a model out of fuel. *)
Inductive stop : Type :=
| Exit (code : Z)
| Uncaught (e : error)
| Stalled.

(** [a / b] on floats. *)
Definition fdiv (a : pyfloat) (b : Q) : error + pyfloat :=
  if Qeq_bool b 0 then inl ZeroDivisionError
  else inr match a with
           | Fin x => Fin (Qred (x / b))
           | Inf negative => Inf (xorb negative (Qle_bool b 0))
           | NaN => NaN
           end.

Section Program.

Variable World : Type.
Variable fetch : World -> Request -> World * Reply.

(** The log written so far, the requests made so far and the service. *)
Record State : Type := {
  out : list Entry;
  sent : list (Request * Reply);
  service : World
}.

(** A computation that may log, call the service and stop early. *)
Definition M (A : Type) : Type := State -> (A + stop) * State.

Definition ret {A} (a : A) : M A := fun st => (inl a, st).

Definition bind {A B} (c : M A) (k : A -> M B) : M B :=
  fun st =>
    match c st with
    | (inl a, st') => k a st'
    | (inr x, st') => (inr x, st')
    end.

Definition halt {A} (x : stop) : M A := fun st => (inr x, st).

Definition emit (lv : Level) (m : Message) : M unit :=
  fun st =>
    (inl tt, {| out := out st ++ [(lv, m)]; sent := sent st;
                service := service st |}).

Definition info : Message -> M unit := emit INFO.
Definition warning : Message -> M unit := emit WARNING.
Definition error_ : Message -> M unit := emit ERROR.

(** The result of a function that can raise. *)
Definition lift {A} (r : Py.result A) : M A :=
  match r with
  | Ok a => ret a
  | Raise e => halt (Uncaught (Of e))
  end.

Definition divide (a : pyfloat) (b : Q) : M pyfloat :=
  match fdiv a b with
  | inr x => ret x
  | inl e => halt (Uncaught e)
  end.

Notation "'let*' x ':=' c 'in' k" := (bind c (fun x => k))
  (at level 10, x pattern, c at level 200, k at level 200).
Notation "c >> k" := (bind c (fun _ => k))
  (at level 62, right associativity).

(** [for x in l: body(x)] *)
Fixpoint for_each {A} (l : list A) (body : A -> M unit) : M unit :=
  match l with
  | [] => ret tt
  | x :: l' => body x >> for_each l' body
  end.

(** A call of [jira_search] with the default page size: its records go
    to the log, its requests to the service. *)
Definition search (config : Config) (jql_ : string)
    (fields_ : option (list string)) : M (list json) :=
  fun st =>
    let r := jira_search World fetch config jql_ fields_ 100 (service st) in
    let st' :=
      {| out := out st ++
                map (fun x => (fst x, FromSearch (snd x))) (run_log r);
         sent := sent st ++ requests r;
         service := run_world r |} in
    match result r with
    | Returned issues => (inl issues, st')
    | SysExit code => (inr (Exit code), st')
    | Raised e => (inr (Uncaught (Of e)), st')
    | OutOfFuel => (inr Stalled, st')
    end.

Definition calculate (config : Config) : M WorkingWeeks :=
  match calculate_working_weeks (start_date config) (end_date config)
          (pto_days config) with
  | Some r => lift r
  | None => halt Stalled
  end.

Definition print_header (config : Config) : M unit :=
  info Box >>
  info (Heading "Jira Activity Summary") >>
  info (Period (start_date config) (end_date config)) >>
  info Box >>
  info Blank.

(** An unset variable reaches [check_auth] as [None], which is falsy as
    the empty string is; the configuration holds the empty string for
    it. *)
Definition check_auth (config : Config) : M unit :=
  if String.eqb (atlassian_user config) "" ||
     String.eqb (atlassian_token config) ""
  then
    error_ NotConfigured >>
    info Blank >>
    info (Help 1) >> info (Help 2) >> info (Help 3) >> info (Help 4) >>
    info Blank >>
    info (Help 5) >> info (Help 6) >> info (Help 7) >> info (Help 8) >>
    info Blank >>
    info (Help 9) >> info (Help 10) >>
    info Blank >>
    halt (Exit 1)
  else ret tt.

(** [count / len(issues) * 100 if issues else 0] *)
Definition percentage (count : Z) (issues : list json) : Q :=
  match issues with
  | [] => 0
  | _ :: _ => Qred (true_div count (len issues) * 100)
  end.

(** The body that [print_tickets_created] and [print_tickets_resolved]
    have in common. *)
Definition print_tickets (title what : string) (issues : list json)
  : M unit :=
  info (Heading title) >>
  info Box >>
  info (Total what (len issues)) >>
  let* types := lift (count_by_type issues) in
  info Breakdown >>
  for_each (most_common types)
    (fun '(issue_type, count) =>
       info (Share issue_type count (percentage count issues))) >>
  info Blank.

Definition print_tickets_created (config : Config)
    (created_issues : list json) : M unit :=
  print_tickets "Tickets You Created" "Tickets Created" created_issues.

Definition print_tickets_resolved (config : Config)
    (resolved_issues : list json) : M unit :=
  print_tickets "Tickets You Resolved/Closed" "Tickets Resolved"
    resolved_issues.

Definition print_bugs_resolved (config : Config) (bug_issues : list json)
  : M unit :=
  info (Heading "Bugs You Resolved") >>
  info Box >>
  info (Total "Bugs Resolved" (len bug_issues)) >>
  info Blank.

Definition print_story_points (config : Config)
    (resolved_issues : list json) : M (pyfloat * Z) :=
  info (Heading "Story Points Completed") >>
  info Box >>
  let* (total_sp, count_with_sp) :=
    lift (sum_story_points resolved_issues default_field_name) in
  info (TotalPoints total_sp) >>
  info (WithPoints count_with_sp (len resolved_issues)) >>
  (if count_with_sp <? len resolved_issues
   then warning NotAllHavePoints else ret tt) >>
  info Blank >>
  ret (total_sp, count_with_sp).

Definition print_overall_statistics (config : Config)
    (created_issues resolved_issues bug_issues : list json)
    (total_sp : pyfloat) (working_weeks : Q) : M unit :=
  info (Heading "Overall Statistics") >>
  info Box >>
  (if negb (Qle_bool working_weeks 0) then
     let* created_per_week :=
       divide (Fin (inject_Z (len created_issues))) working_weeks in
     let* resolved_per_week :=
       divide (Fin (inject_Z (len resolved_issues))) working_weeks in
     let* bugs_per_week :=
       divide (Fin (inject_Z (len bug_issues))) working_weeks in
     let* sp_per_week := divide total_sp working_weeks in
     info (Rate "Tickets Created" created_per_week) >>
     info (Rate "Tickets Resolved" resolved_per_week) >>
     info (Rate "Bugs Resolved" bugs_per_week) >>
     info (Rate "Story Points" sp_per_week)
   else ret tt) >>
  info Blank.

Definition print_summary (config : Config) : M unit :=
  info Box >>
  info SummaryComplete >>
  info Box >>
  info Blank >>
  info Tip >>
  info (SaveTo (start_date config) (end_date config)) >>
  info Blank.

Definition jql_created (config : Config) : string :=
  ("reporter = currentUser() AND created >= '" ++ start_date config
   ++ "' AND created <= '" ++ end_date config ++ "'")%string.

Definition jql_resolved (config : Config) : string :=
  ("assignee = currentUser() AND resolved >= '" ++ start_date config
   ++ "' AND resolved <= '" ++ end_date config ++ "'")%string.

Definition jql_bugs (config : Config) : string :=
  ("assignee = currentUser() AND type = Bug AND resolved >= '"
   ++ start_date config ++ "' AND resolved <= '" ++ end_date config
   ++ "'")%string.

Definition resolved_fields : list string :=
  ["summary"; "status"; "issuetype"; "resolved"; "customfield_10014"].

(** [main], from the configuration that [parse_args] and [from_args]
    give it.  What [parse_args] makes of a command line is argparse's
    and is not modelled: one that it rejects, or [--help], ends the
    program there, with exit code 2 or 0, before anything is logged or
    sent. *)
Definition main (config : Config) : M unit :=
  print_header config >>
  check_auth config >>
  info Connecting >>
  info (Site (atlassian_site config)) >>
  info (User (atlassian_user config)) >>
  info Blank >>
  let* (total_days, total_weeks, working_days, working_weeks) :=
    calculate config in
  info (PeriodDays total_days total_weeks) >>
  info (WeekdaysInPeriod (working_days + pto_days config)) >>
  (if pto_days config >? 0
   then info (WorkingDaysLessPto (pto_days config) working_days
                working_weeks)
   else info (WorkingDays working_days working_weeks)) >>
  info Blank >>
  let* created_issues := search config (jql_created config) None in
  print_tickets_created config created_issues >>
  let* resolved_issues :=
    search config (jql_resolved config) (Some resolved_fields) in
  print_tickets_resolved config resolved_issues >>
  let* bug_issues := search config (jql_bugs config) None in
  print_bugs_resolved config bug_issues >>
  let* (total_sp, count_with_sp) :=
    print_story_points config resolved_issues in
  print_overall_statistics config created_issues resolved_issues
    bug_issues total_sp working_weeks >>
  print_summary config.

(** The script: [main] under its handler, in a run that nobody
    interrupts.  [KeyboardInterrupt] is raised by nothing in the
    program, so the clause that catches it (a warning and exit code 0)
    has no part here; [SystemExit] passes by [except Exception].  The
    exit code is [None] only for a model out of fuel. *)
Definition script (config : Config) (w : World) : option Z * State :=
  match main config {| out := []; sent := []; service := w |} with
  | (inl _, st) => (Some 0, st)
  | (inr (Exit code), st) => (Some code, st)
  | (inr (Uncaught e), st) =>
    (Some 1, {| out := out st ++ [(ERROR, ErrorIs e)];
                sent := sent st; service := service st |})
  | (inr Stalled, st) => (None, st)
  end.

(** *** Reference notions for the statements *)




End Program.

Arguments out {World} _.
Arguments sent {World} _.
Arguments service {World} _.
Arguments ret {World A} _ _.
Arguments bind {World A B} _ _ _.
Arguments halt {World A} _ _.
Arguments emit {World} _ _ _.
Arguments info {World} _ _.
Arguments warning {World} _ _.
Arguments error_ {World} _ _.
Arguments lift {World A} _ _.
Arguments divide {World} _ _ _.
Arguments for_each {World A} _ _ _.
Arguments calculate {World} _ _.
Arguments print_header {World} _ _.
Arguments check_auth {World} _ _.
Arguments print_tickets {World} _ _ _ _.
Arguments print_tickets_created {World} _ _ _.
Arguments print_tickets_resolved {World} _ _ _.
Arguments print_bugs_resolved {World} _ _ _.
Arguments print_story_points {World} _ _ _.
Arguments print_overall_statistics {World} _ _ _ _ _ _ _.
Arguments print_summary {World} _ _.

Arguments search {World} _ _ _ _ _.
Arguments main {World} _ _ _.
Arguments script {World} _ _ _.

(** [within n c]: whatever the state, [c] makes at most [n] requests,
    exits with no other code than 1 and does not run out of fuel. *)
Definition within {World A} (n : Z) (c : M World A) : Prop :=
  forall st,
    (exists new, sent (snd (c st)) = sent st ++ new /\ len new <= n) /\
    match fst (c st) with
    | inr (Exit code) => code = 1
    | inr Stalled => False
    | _ => True
    end.

(** [silent c]: [c] makes no request and leaves the service as it
    is. *)
Definition silent {World A} (c : M World A) : Prop :=
  forall st,
    sent (snd (c st)) = sent st /\ service (snd (c st)) = service st.

(** A service that answers the three searches of a run with one page
    each. *)
Definition script_report : list Reply :=
  [page [issue_of "Story" []; issue_of "Bug" []] None (Some 2);
   page [issue_of "Story" [(default_field_name, JInt 3)];
         issue_of "Bug" []] None (Some 2);
   page [issue_of "Bug" []] None (Some 1)].

(** A state with [lines] added to the log. *)
Definition logged {World} (st : State World) (lines : list Entry)
  : State World :=
  {| out := out st ++ lines; sent := sent st; service := service st |}.


(** The state in which [script] starts [main]. *)
Definition fresh {World} (w : World) : State World :=
  {| out := []; sent := []; service := w |}.

(** A service that refuses the first request. *)
Definition script_down : list Reply :=
  [Answer {| status_code := 401; text := "Unauthorized";
             json_body := None |}].

(** The configuration of the examples without a user. *)
Definition config_no_user : Config :=
  {| atlassian_user := ""; atlassian_token := "secret";
     atlassian_site := "example.atlassian.net";
     start_date := "2025-02-28"; end_date := "2026-02-02"; pto_days := 0 |}.

(** The configuration of the examples with an end date that does not
    exist. *)
Definition config_bad_date : Config :=
  {| atlassian_user := "me@example.com"; atlassian_token := "secret";
     atlassian_site := "example.atlassian.net";
     start_date := "2025-02-01"; end_date := "2025-02-30"; pto_days := 0 |}.

End Report.

(* ================================================================= *)
(** * Properties of the rounding *)

Module FloatFacts.

(** The nearest integer is within a half. *)
Lemma nearest_even_bound (n d : Z) :
  0 < d -> - d <= 2 * (nearest_even n d * d - n) <= d.
Proof.
  intros Hd. unfold nearest_even.
  pose proof (Z.div_mod n d ltac:(lia)) as Hdm.
  pose proof (Z.mod_pos_bound n d Hd) as Hr.
  destruct (Z.compare_spec (2 * (n mod d)) d) as [He | Hl | Hg].
  - destruct (Z.even (n / d)); nia.
  - nia.
  - nia.
Qed.

Lemma nearest_even_exact (k d : Z) : 0 < d -> nearest_even (k * d) d = k.
Proof.
  intros Hd. unfold nearest_even.
  rewrite Z.mod_mul, Z.div_mul by lia.
  change (2 * 0) with 0. now destruct (Z.compare_spec 0 d); try lia.
Qed.

Lemma Qred_inject_Z (c : Z) : Qred (inject_Z c) = inject_Z c.
Proof.
  pose proof (Qred_correct (inject_Z c)) as Heq.
  pose proof (gcd_Qred (inject_Z c)) as Hg.
  destruct (Qred (inject_Z c)) as [n d].
  unfold Qeq, inject_Z in *. cbn [Qnum Qden] in *.
  assert (Hn : n = c * Z.pos d) by lia. subst n.
  rewrite Z.gcd_comm, (Z.mul_comm c), Z.gcd_mul_diag_l in Hg by lia.
  assert (d = 1%positive) by lia. subst d. f_equal. lia.
Qed.

Lemma pow2_1074_pos : 0 < 2 ^ 1074.
Proof. apply Z.pow_pos_nonneg; lia. Qed.

Lemma pow2_53_ge : 2 <= 2 ^ 53.
Proof. change 2 with (2 ^ 1) at 1. apply Z.pow_le_mono_r; lia. Qed.

(** An integer below [2^53] in size is a double: a quotient that is
    one is not rounded. *)
Lemma nearest_double_exact (c d : Z) :
  0 < d -> Z.abs c < 2 ^ 53 ->
  nearest_double (c * d) d = inject_Z c.
Proof.
  intros Hd Hc. unfold nearest_double.
  set (P := 2 ^ 1074).
  assert (HP : 0 < P) by apply pow2_1074_pos.
  replace (Z.abs (c * d) * P / d) with (Z.abs c * P).
  2:{ rewrite Z.abs_mul, (Z.abs_eq d) by lia.
      replace (Z.abs c * d * P) with (Z.abs c * P * d) by lia.
      now rewrite Z.div_mul by lia. }
  set (j := Z.max (Z.log2 (Z.abs c * P) - 52) 0).
  assert (Hj : 0 <= j <= 1074).
  { unfold j. destruct (Z.eq_dec c 0) as [-> | Hne].
    - cbn. lia.
    - unfold P. rewrite Z.log2_mul_pow2 by lia.
      assert (Z.log2 (Z.abs c) < 53) by (apply Z.log2_lt_pow2; lia).
      pose proof (Z.log2_nonneg (Z.abs c)). lia. }
  assert (HPj : P = 2 ^ (1074 - j) * 2 ^ j).
  { unfold P. rewrite <- Z.pow_add_r by lia. f_equal. lia. }
  assert (H2j : 0 < 2 ^ j) by (apply Z.pow_pos_nonneg; lia).
  replace (c * d * P) with (c * 2 ^ (1074 - j) * (d * 2 ^ j))
    by (rewrite HPj; ring).
  rewrite nearest_even_exact by nia.
  replace (c * 2 ^ (1074 - j) * 2 ^ j) with (c * P) by (rewrite HPj; ring).
  assert (Heq : (Qmake (c * P) (Z.to_pos P) == inject_Z c)%Q).
  { unfold Qeq, inject_Z. cbn [Qnum Qden]. rewrite Z2Pos.id by lia. ring. }
  rewrite (Qred_complete _ _ Heq).
  apply Qred_inject_Z.
Qed.

(** The rounding of a quotient that is not below the normal doubles, in
    integers: the numerator [M] of the double over [2^1074] is within a
    relative error of [2^-53]. *)
Lemma nearest_double_core (n d : Z) :
  0 < d -> d <= Z.abs n * 2 ^ 1022 ->
  exists M,
    (nearest_double n d == Qmake M (Z.to_pos (2 ^ 1074)))%Q /\
    Z.abs (M * d - n * 2 ^ 1074) * 2 ^ 53 <= Z.abs n * 2 ^ 1074.
Proof.
  intros Hd Hnormal. unfold nearest_double.
  set (P := 2 ^ 1074) in *.
  set (t := Z.abs n * P / d).
  set (j := Z.max (Z.log2 t - 52) 0).
  set (m := nearest_even (n * P) (d * 2 ^ j)).
  exists (m * 2 ^ j). split; [apply Qred_correct |].
  assert (HP : P = 2 ^ 1022 * 2 ^ 52)
    by (unfold P; now rewrite <- Z.pow_add_r).
  assert (H52 : 0 < 2 ^ 52) by (apply Z.pow_pos_nonneg; lia).
  assert (H1022 : 0 < 2 ^ 1022) by (apply Z.pow_pos_nonneg; lia).
  assert (H53 : 2 ^ 53 = 2 * 2 ^ 52) by (now rewrite <- Z.pow_succ_r).
  assert (Hpos : 0 < P) by nia.
  assert (Ht : 2 ^ 52 <= t).
  { unfold t. apply Z.div_le_lower_bound; [lia |]. rewrite HP. nia. }
  assert (Htd : t * d <= Z.abs n * P).
  { unfold t. rewrite Z.mul_comm. apply Z.mul_div_le. lia. }
  assert (Hlog : 52 <= Z.log2 t) by (apply Z.log2_le_pow2; lia).
  assert (Hj : j = Z.log2 t - 52) by (unfold j; lia).
  assert (H2j : 2 ^ j * 2 ^ 52 <= t).
  { rewrite <- Z.pow_add_r by lia. replace (j + 52) with (Z.log2 t) by lia.
    apply Z.log2_spec. lia. }
  assert (H2j0 : 0 < 2 ^ j) by (apply Z.pow_pos_nonneg; lia).
  pose proof (nearest_even_bound (n * P) (d * 2 ^ j) ltac:(nia)) as Hb.
  fold m in Hb. rewrite H53.
  clear Hj Hlog Hnormal. clearbody m. clearbody j. clearbody t.
  clearbody P.
  replace (m * 2 ^ j * d - n * P) with (m * (d * 2 ^ j) - n * P) by ring.
  remember (2 ^ j) as J. remember (2 ^ 52) as B. remember (2 ^ 1022) as A.
  clear HeqJ HeqB HeqA H53. subst P.
  remember (m * (d * J) - n * (A * B)) as err.
  remember (Z.abs n) as a.
  assert (Herr : 2 * Z.abs err <= d * J) by lia.
  assert (Hbig : d * J * B <= a * (A * B)).
  { assert (d * (J * B) <= d * t) by (apply Z.mul_le_mono_nonneg_l; lia).
    lia. }
  clear Hb Heqerr Heqa Ht Htd H2j t.
  assert (H1 : Z.abs err * (2 * B) <= d * J * B).
  { replace (Z.abs err * (2 * B)) with (2 * Z.abs err * B) by ring.
    apply Z.mul_le_mono_nonneg_r; lia. }
  lia.
Qed.

(** The double has the sign of the quotient. *)
Lemma nearest_double_sign (n d : Z) :
  0 < d -> d <= Z.abs n * 2 ^ 1022 ->
  (n < 0 -> (nearest_double n d < 0)%Q) /\
  (0 < n -> (0 < nearest_double n d)%Q).
Proof.
  intros Hd Hnormal.
  destruct (nearest_double_core n d Hd Hnormal) as (M & Hx & Hb).
  rewrite Hx. unfold Qlt. cbn [Qnum Qden].
  pose proof pow2_1074_pos as HP. pose proof pow2_53_ge as HT.
  remember (2 ^ 1074) as P. remember (2 ^ 53) as T. clear HeqP HeqT Hx.
  split; intros Hn.
  - assert (M < 0); [| lia].
    destruct (Z_lt_le_dec M 0) as [Hlt | Hge]; [exact Hlt | exfalso].
    assert (Z.abs n * P <= Z.abs (M * d - n * P)) by nia.
    assert (0 < Z.abs n * P) by nia. nia.
  - assert (0 < M); [| lia].
    destruct (Z_lt_le_dec 0 M) as [Hlt | Hge]; [exact Hlt | exfalso].
    assert (Z.abs n * P <= Z.abs (M * d - n * P)) by nia.
    assert (0 < Z.abs n * P) by nia. nia.
Qed.

(** The double is within a relative error of [2^-53] of the quotient. *)
Lemma nearest_double_error (n d : Z) :
  0 < d -> d <= Z.abs n * 2 ^ 1022 ->
  (Qabs (nearest_double n d * inject_Z d - inject_Z n) * inject_Z (2 ^ 53)
   <= Qabs (inject_Z n))%Q.
Proof.
  intros Hd Hnormal.
  destruct (nearest_double_core n d Hd Hnormal) as (M & Hx & Hb).
  rewrite Hx. clear Hx.
  pose proof pow2_1074_pos as HP.
  unfold Qle, Qabs, Qmult, Qminus, Qplus, Qopp, inject_Z. cbn [Qnum Qden].
  rewrite !Pos2Z.inj_mul, Z2Pos.id by lia.
  remember (2 ^ 1074) as P. remember (2 ^ 53) as T. clear HeqP HeqT.
  replace (M * d * 1 + - n * (P * 1)) with (M * d - n * P) by ring.
  lia.
Qed.

Lemma overflows_iff (n d : Z) :
  overflows n d = true <-> d * (2 ^ 1024 - 2 ^ 970) <= Z.abs n.
Proof. unfold overflows. apply Z.leb_le. Qed.

Lemma overflows_not (n d : Z) :
  overflows n d = false <-> Z.abs n < d * (2 ^ 1024 - 2 ^ 970).
Proof. unfold overflows. apply Z.leb_gt. Qed.

(** What is at most [2^1023] in size does not overflow. *)
Lemma overflows_small (n d : Z) :
  0 < d -> Z.abs n <= d * 2 ^ 1023 -> overflows n d = false.
Proof.
  intros Hd Hn. apply overflows_not.
  assert (H1 : 2 ^ 1024 = 2 * 2 ^ 1023) by (now rewrite <- Z.pow_succ_r).
  assert (H2 : 2 ^ 970 < 2 ^ 1023) by (apply Z.pow_lt_mono_r; lia).
  rewrite H1. remember (2 ^ 1023) as A. remember (2 ^ 970) as B.
  clear HeqA HeqB H1. nia.
Qed.

End FloatFacts.

(* ================================================================= *)
(** * Properties of the search client *)

Module SearchFacts.
Import Search.

Lemma no_level_app lv l1 l2 :
  no_level lv l1 -> no_level lv l2 -> no_level lv (l1 ++ l2).
Proof.
  intros H1 H2 m Hin. apply in_app_or in Hin.
  destruct Hin as [Hin | Hin]; [apply (H1 m Hin) | apply (H2 m Hin)].
Qed.

Lemma no_level_nil lv : no_level lv [].
Proof. intros m []. Qed.

Lemma no_level_other lv lv' l :
  lv <> lv' -> Forall (level_is lv') l -> no_level lv l.
Proof.
  intros Hne Hall m Hin. rewrite Forall_forall in Hall.
  apply Hall in Hin. unfold level_is in Hin. simpl in Hin. congruence.
Qed.

Lemma len_app {A} (l1 l2 : list A) : len (l1 ++ l2) = len l1 + len l2.
Proof. unfold len. rewrite length_app. lia. Qed.

Lemma len_concat (pages : list (list json)) :
  len (List.concat pages) = total_size pages.
Proof.
  induction pages as [| p pages IH]; simpl.
  - reflexivity.
  - rewrite len_app, IH. reflexivity.
Qed.

Section Facts.

Variable World : Type.
Variable fetch : World -> Request -> World * Reply.
Variable config : Config.
Variable jql_ : string.
Variable fields_opt : option (list string).
Variable max_results : Z.

Let fields_ := default default_fields fields_opt.
Let body_ := body World fetch config jql_ fields_ max_results.
Let loop_ := fun fuel => while_loop World fetch fuel config jql_ fields_
                           max_results.
Let run_ := run_loop World fetch.

Lemma body_cases (s : Loop World) :
  match body_ s with
  | Continue s' =>
    exists rq reply, pass World fetch s rq reply s' /\
      continues reply = true /\
      iteration s' = iteration s + 1 /\
      exists m, log s' = log s ++ [(INFO, m)]
  | Break s' =>
    exists rq reply, pass World fetch s rq reply s' /\
      continues reply = false /\
      page_reply reply <> None /\
      iteration s' = iteration s /\
      exists m d, log s' = log s ++ [(INFO, m); (DEBUG, d)]
  | Abort o s' =>
    exists rq reply, pass World fetch s rq reply s' /\
      page_reply reply = None /\
      (forall l, o <> Returned l) /\
      o <> OutOfFuel /\
      iteration s' = iteration s /\
      exists errors, log s' = log s ++ errors /\
                     Forall (level_is ERROR) errors
  end.
Proof.
  unfold body_, body, pass.
  match goal with |- context [fetch ?w ?r] =>
    set (rq := r); destruct (fetch w rq) as [w' reply] eqn:Hf end.
  destruct reply as [| response]; simpl.
  - exists rq, Unreachable. simpl. rewrite app_nil_r.
    repeat split; auto; try discriminate.
    exists []. rewrite app_nil_r. auto.
  - destruct (status_code response =? 200) eqn:Hs; simpl.
    + destruct (json_body response) as [data |] eqn:Hb; simpl.
      * destruct (len (default [] (env_issues data)) =? 0) eqn:Hl; simpl.
        -- exists rq, (Answer response). simpl. rewrite Hs, Hb, Hl. simpl.
           repeat split; auto; try discriminate.
           rewrite <- app_assoc. simpl.
           match goal with |- context [if ?c then _ else _] =>
             destruct c end; eauto.
        -- destruct (truthy (env_nextPageToken data)) eqn:Ht; simpl.
           ++ exists rq, (Answer response). simpl. rewrite Hs, Hb, Hl, Ht.
              simpl. repeat split; auto.
              match goal with |- context [if ?c then _ else _] =>
                destruct c end; eauto.
           ++ exists rq, (Answer response). simpl. rewrite Hs, Hb, Hl, Ht.
              simpl. repeat split; auto; try discriminate.
              rewrite <- app_assoc. simpl.
              match goal with |- context [if ?c then _ else _] =>
                destruct c end; eauto.
      * exists rq, (Answer response). simpl. rewrite Hs, Hb. simpl.
        rewrite app_nil_r. repeat split; auto; try discriminate.
        exists []. rewrite app_nil_r. auto.
    + exists rq, (Answer response). simpl. rewrite Hs. simpl.
      rewrite app_nil_r. repeat split; auto; try discriminate.
      eexists. split; [reflexivity |].
      repeat constructor.
Qed.

(** With fuel for the passes that are left, the [while] runs to an
    exit, and makes no more requests than it has fuel. *)
Lemma while_loop_runs (fuel : nat) :
  forall s, max_iterations - iteration s <= Z.of_nat fuel ->
  exists new,
    run_ s new (fst (loop_ fuel s)) (snd (loop_ fuel s)) /\
    (List.length new <= fuel)%nat.
Proof.
  unfold loop_, run_.
  induction fuel as [| fuel IH]; intros s Hfuel; simpl.
  - destruct (iteration s <? max_iterations) eqn:Hc.
    + apply Z.ltb_lt in Hc. lia.
    + apply Z.ltb_ge in Hc. exists []. split; [now constructor | auto].
  - destruct (iteration s <? max_iterations) eqn:Hc.
    + apply Z.ltb_lt in Hc. pose proof (body_cases s) as Hb.
      unfold body_ in Hb.
      destruct (body World fetch config jql_ fields_ max_results s)
        as [s' | s' | o s'].
      * destruct Hb as (rq & reply & Hp & Hk & Hi & m & Hl).
        destruct (IH s') as (new & Hrun & Hlen); [lia |].
        exists ((rq, reply) :: new). split.
        -- eapply run_continue; eauto.
        -- simpl. lia.
      * destruct Hb as (rq & reply & Hp & Hk & Hpg & Hi & m & d & Hl).
        exists [(rq, reply)]. split.
        -- eapply run_break; eauto.
        -- simpl. lia.
      * destruct Hb as (rq & reply & Hp & Hpg & Ho & Hof & Hi & errs & Hl
                          & He).
        exists [(rq, reply)]. split.
        -- eapply run_abort; eauto.
        -- simpl. lia.
    + apply Z.ltb_ge in Hc. exists []. split; [now constructor |].
      simpl. lia.
Qed.

Lemma continues_page (reply : Reply) :
  continues reply = true -> page_reply reply <> None.
Proof.
  destruct reply as [| response]; simpl; [discriminate |].
  destruct (status_code response =? 200); simpl; [| discriminate].
  destruct (json_body response); [discriminate | discriminate].
Qed.

Lemma run_trace s new e s' :
  run_ s new e s' ->
  trace s' = trace s ++ new /\
  all_issues s' = all_issues s ++ List.concat (fetched_pages new).
Proof.
  induction 1 as [s Hc
                 | s rq reply s' m new e s'' Hc Hp Hk Hi Hl Hrun IH
                 | s rq reply s' m d Hc Hp Hk Hpg Hi Hl
                 | s rq reply s' o errors Hc Hp Hpg Ho Hof Hi Hl He].
  - simpl. now rewrite !app_nil_r.
  - destruct Hp as (_ & Ht & Ha). destruct IH as [IHt IHa].
    rewrite IHt, IHa, Ht, Ha. simpl. now rewrite <- !app_assoc.
  - destruct Hp as (_ & Ht & Ha). simpl. now rewrite app_nil_r.
  - destruct Hp as (_ & Ht & Ha). simpl. now rewrite app_nil_r.
Qed.

(** Only the last request of a run can have a reply after which the
    loop does not go round again. *)
Lemma run_only_last s new e s' :
  run_ s new e s' ->
  forall pre x post,
    new = pre ++ x :: post -> continues (snd x) = false -> post = [].
Proof.
  assert (Hone : forall (y x : Request * Reply) pre post,
             [y] = pre ++ x :: post -> post = []).
  { intros y x [| p pre] post Heq; simpl in Heq.
    - now inversion Heq.
    - inversion Heq as [[Hy Hnil]]. now destruct pre. }
  induction 1 as [s Hc
                 | s rq reply s' m new e s'' Hc Hp Hk Hi Hl Hrun IH
                 | s rq reply s' m d Hc Hp Hk Hpg Hi Hl
                 | s rq reply s' o errors Hc Hp Hpg Ho Hof Hi Hl He];
    intros pre x post Heq Hx.
  - now destruct pre.
  - destruct pre as [| p pre]; simpl in Heq; inversion Heq; subst.
    + simpl in Hx. congruence.
    + eapply IH; eauto.
  - eapply Hone; eauto.
  - eapply Hone; eauto.
Qed.

Lemma run_log_levels s new e s' :
  run_ s new e s' ->
  (no_level WARNING (log s) -> no_level WARNING (log s')) /\
  (e = Normal -> no_level ERROR (log s) -> no_level ERROR (log s')).
Proof.
  induction 1 as [s Hc
                 | s rq reply s' m new e s'' Hc Hp Hk Hi Hl Hrun IH
                 | s rq reply s' m d Hc Hp Hk Hpg Hi Hl
                 | s rq reply s' o errors Hc Hp Hpg Ho Hof Hi Hl He].
  - auto.
  - destruct IH as [IHw IHe]. split.
    + intros Hw. apply IHw. rewrite Hl. apply no_level_app; [assumption |].
      apply (no_level_other _ INFO); [discriminate | repeat constructor].
    + intros Hn Hw. apply IHe; [assumption |]. rewrite Hl.
      apply no_level_app; [assumption |].
      apply (no_level_other _ INFO); [discriminate | repeat constructor].
  - split; [intros Hw | intros _ Hw]; rewrite Hl;
      (apply no_level_app; [assumption |]);
      intros x [Hin | [Hin | []]]; discriminate.
  - split; [intros Hw | discriminate].
    rewrite Hl. apply no_level_app; [assumption |].
    apply (no_level_other _ ERROR); [discriminate | assumption].
Qed.

(** A run that leaves through the loop condition made exactly the
    passes that were left, and each of its replies asked for more. *)
Lemma run_normal_cap s new s' :
  run_ s new Normal s' ->
  iteration s <= max_iterations ->
  max_iterations <= iteration s' ->
  Forall (fun x => continues (snd x) = true) new /\
  len new = max_iterations - iteration s.
Proof.
  intros Hrun. remember Normal as e eqn:He. revert He.
  induction Hrun as [s Hc
                    | s rq reply s' m new e s'' Hc Hp Hk Hi Hl Hrun IH
                    | s rq reply s' m d Hc Hp Hk Hpg Hi Hl
                    | s rq reply s' o errors Hc Hp Hpg Ho Hof Hi Hl Herr];
    intros He Hle Hge; unfold max_iterations, len in *.
  - split; [constructor | cbn [List.length]; lia].
  - destruct (IH He) as [IHa IHn]; [lia | lia |]. split.
    + constructor; assumption.
    + cbn [List.length]. lia.
  - lia.
  - discriminate.
Qed.

Lemma run_always_continues s new e s' :
  (forall w rq, continues (snd (fetch w rq)) = true) ->
  run_ s new e s' ->
  e = Normal /\ max_iterations <= iteration s'.
Proof.
  intros Hall.
  induction 1 as [s Hc
                 | s rq reply s' m new e s'' Hc Hp Hk Hi Hl Hrun IH
                 | s rq reply s' m d Hc Hp Hk Hpg Hi Hl
                 | s rq reply s' o errors Hc Hp Hpg Ho Hof Hi Hl He].
  - auto.
  - assumption.
  - destruct Hp as (Hf & _). specialize (Hall (world s) rq).
    rewrite Hf in Hall. simpl in Hall. congruence.
  - destruct Hp as (Hf & _). specialize (Hall (world s) rq).
    rewrite Hf in Hall. simpl in Hall.
    now apply continues_page in Hall.
Qed.

Lemma run_all_pages s new e s' :
  (forall w rq, page_reply (snd (fetch w rq)) <> None) ->
  run_ s new e s' -> e = Normal.
Proof.
  intros Hall.
  induction 1 as [s Hc
                 | s rq reply s' m new e s'' Hc Hp Hk Hi Hl Hrun IH
                 | s rq reply s' m d Hc Hp Hk Hpg Hi Hl
                 | s rq reply s' o errors Hc Hp Hpg Ho Hof Hi Hl He]; auto.
  destruct Hp as (Hf & _). specialize (Hall (world s) rq).
  rewrite Hf in Hall. simpl in Hall. contradiction.
Qed.

Lemma run_not_exhausted s new e s' : run_ s new e s' -> e <> Exhausted.
Proof. induction 1; auto; discriminate. Qed.

Lemma run_aborted s new o s' :
  run_ s new (Aborted o) s' -> (forall l, o <> Returned l) /\ o <> OutOfFuel.
Proof.
  intros Hrun. remember (Aborted o) as e eqn:He. revert He.
  induction Hrun; intros He; try discriminate; auto.
  now inversion He; subst.
Qed.

(** *** From the loop to [jira_search] *)

Let s0 (w : World) : Loop World :=
  {| all_issues := []; next_page_token := None; iteration := 0;
     log := []; trace := []; world := w |}.

Let search := jira_search World fetch config jql_ fields_opt max_results.

(** How a call ends, in terms of the run of its loop. *)
Lemma jira_search_run (w : World) :
  exists e s',
    run_ (s0 w) (requests (search w)) e s' /\
    len (requests (search w)) <= max_iterations /\
    match e with
    | Normal =>
      result (search w) = Returned (all_issues s') /\
      run_log (search w) =
        log s' ++
        (if iteration s' >=? max_iterations
         then [(WARNING, HitLimit max_iterations)] else []) ++
        [(INFO, FetchedDone (len (all_issues s')))]
    | Aborted o =>
      result (search w) = o /\
      ((forall l, o <> Returned l) /\ o <> OutOfFuel) /\
      run_log (search w) = log s'
    | Exhausted => False
    end.
Proof.
  assert (Hfuel : max_iterations - iteration (s0 w)
                  <= Z.of_nat (Z.to_nat max_iterations))
    by (unfold s0, max_iterations; cbn [iteration]; lia).
  pose proof (while_loop_runs (Z.to_nat max_iterations) (s0 w) Hfuel) as H.
  unfold search, jira_search. cbv zeta.
  unfold loop_, run_, s0, fields_ in *. clear Hfuel.
  destruct (while_loop World fetch (Z.to_nat max_iterations) config jql_
              (default default_fields fields_opt) max_results _)
    as [e s'].
  cbn [fst snd] in H. destruct H as (new & Hrun & Hlen).
  pose proof (run_trace _ _ _ _ Hrun) as [Ht _].
  cbn [trace app] in Ht.
  assert (Hcap : len (trace s') <= max_iterations).
  { rewrite Ht. unfold len, max_iterations in *. lia. }
  rewrite Ht in Hcap. exists e, s'.
  destruct e as [| o |].
  - destruct (iteration s' >=? max_iterations); cbn; rewrite Ht.
    + repeat split; auto. now rewrite <- app_assoc.
    + repeat split; auto.
  - cbn. rewrite Ht.
    split; [assumption |]. split; [assumption |].
    split; [reflexivity |]. split; [| reflexivity].
    apply (run_aborted _ _ _ _ Hrun).
  - exfalso. now apply (run_not_exhausted _ _ _ _ Hrun).
Qed.

Lemma search_only_last (w : World) pre x post :
  requests (search w) = pre ++ x :: post ->
  continues (snd x) = false -> post = [].
Proof.
  destruct (jira_search_run w) as (e & s' & Hrun & _).
  apply (run_only_last _ _ _ _ Hrun).
Qed.

Lemma continues_of_page (reply : Reply) (env : Envelope) :
  page_reply reply = Some env ->
  continues reply =
    negb (len (default [] (env_issues env)) =? 0) &&
    truthy (env_nextPageToken env).
Proof.
  destruct reply as [| response]; simpl; [discriminate |].
  destruct (status_code response =? 200); [| discriminate].
  intros ->. reflexivity.
Qed.

(** The fuel of the loop never runs out. *)
Lemma jira_search_terminates (w : World) : result (search w) <> OutOfFuel.
Proof.
  destruct (jira_search_run w) as (e & s' & Hrun & _ & He).
  destruct e as [| o |]; [| | contradiction].
  - destruct He as [-> _]. discriminate.
  - destruct He as (-> & [_ Hof] & _). exact Hof.
Qed.

(** C1: whenever [jira_search] returns, it returns the concatenation,
    in page order, of the issue lists of all the pages it fetched, so
    the number of issues returned is the sum of the page sizes; and it
    does return, whatever the number of pages, when every reply of the
    service is a page. *)
Theorem search_returns_concatenation (w : World) :
  (forall l, result (search w) = Returned l ->
     l = List.concat (fetched_pages (requests (search w))) /\
     len l = total_size (fetched_pages (requests (search w)))) /\
  ((forall w' rq, page_reply (snd (fetch w' rq)) <> None) ->
   result (search w) =
     Returned (List.concat (fetched_pages (requests (search w))))).
Proof.
  destruct (jira_search_run w) as (e & s' & Hrun & _ & He).
  pose proof (run_trace _ _ _ _ Hrun) as [_ Ha].
  unfold s0 in Ha. cbn [all_issues app] in Ha.
  split.
  - intros l Hl. destruct e as [| o |]; [| | contradiction].
    + destruct He as [Hr _]. rewrite Hr in Hl. inversion Hl; subst l.
      split; [assumption |]. rewrite Ha at 1. apply len_concat.
    + destruct He as (Hr & [Ho _] & _). rewrite Hr in Hl.
      exfalso. exact (Ho l Hl).
  - intros Hall. pose proof (run_all_pages _ _ _ _ Hall Hrun) as ->.
    destruct He as [Hr _]. now rewrite Hr, Ha.
Qed.

(** C2: [jira_search] makes at most 100 requests.  When it logs the
    warning of the iteration limit it has made exactly 100, it returns
    the issues of those 100 pages and has logged no error; and that is
    what happens when every reply of the service carries issues and a
    token. *)
Theorem search_iteration_cap (w : World) :
  len (requests (search w)) <= 100 /\
  (In (WARNING, HitLimit 100) (run_log (search w)) ->
   len (requests (search w)) = 100 /\
   result (search w) =
     Returned (List.concat (fetched_pages (requests (search w)))) /\
   no_level ERROR (run_log (search w))) /\
  ((forall w' rq, continues (snd (fetch w' rq)) = true) ->
   len (requests (search w)) = 100 /\
   In (WARNING, HitLimit 100) (run_log (search w))).
Proof.
  destruct (jira_search_run w) as (e & s' & Hrun & Hcap & He).
  pose proof (run_trace _ _ _ _ Hrun) as [_ Ha].
  unfold s0 in Ha. cbn [all_issues app] in Ha.
  pose proof (run_log_levels _ _ _ _ Hrun) as [Hw Herr].
  specialize (Hw (no_level_nil _)).
  split; [exact Hcap |]. split.
  - intros Hin. destruct e as [| o |]; [| | contradiction].
    + destruct He as [Hr Hlog]. specialize (Herr eq_refl (no_level_nil _)).
      destruct (iteration s' >=? max_iterations) eqn:Hit.
      * apply Z.geb_le in Hit.
        destruct (run_normal_cap _ _ _ Hrun) as [_ Hn];
          [unfold s0, max_iterations; cbn [iteration]; lia | lia |].
        unfold s0, max_iterations in Hn. cbn [iteration] in Hn.
        split; [lia |]. split; [now rewrite Hr, Ha |].
        rewrite Hlog. apply no_level_app; [assumption |].
        intros m [Hm | [Hm | []]]; discriminate.
      * exfalso. rewrite Hlog in Hin. apply in_app_or in Hin.
        destruct Hin as [Hin | [Hin | []]]; [| discriminate].
        exact (Hw _ Hin).
    + destruct He as (_ & _ & Hlog). rewrite Hlog in Hin.
      exfalso. exact (Hw _ Hin).
  - intros Hall.
    destruct (run_always_continues _ _ _ _ Hall Hrun) as [-> Hit].
    destruct He as [Hr Hlog].
    destruct (run_normal_cap _ _ _ Hrun) as [_ Hn];
      [unfold s0, max_iterations; cbn [iteration]; lia | lia |].
    unfold s0, max_iterations in Hn. cbn [iteration] in Hn.
    split; [lia |]. rewrite Hlog.
    apply Z.geb_le in Hit. rewrite Hit.
    apply in_or_app. right. left. reflexivity.
Qed.

(** C3: a page without a continuation token, whatever total it reports,
    and a page without issues, whatever token it carries, is the last
    request of the call. *)
Theorem search_stops_at_last_page (w : World) pre rq reply post env :
  requests (search w) = pre ++ (rq, reply) :: post ->
  page_reply reply = Some env ->
  env_nextPageToken env = None \/ default [] (env_issues env) = [] ->
  post = [].
Proof.
  intros Hreq Hpage Hstop. apply (search_only_last w pre (rq, reply)).
  - assumption.
  - cbn [snd]. rewrite (continues_of_page _ _ Hpage).
    destruct Hstop as [-> | ->]; [apply andb_false_r | reflexivity].
Qed.

(** C9: a page whose continuation token is the empty string is the last
    request of the call, as if it carried no token. *)
Theorem search_stops_at_empty_token (w : World) pre rq reply post env :
  requests (search w) = pre ++ (rq, reply) :: post ->
  page_reply reply = Some env ->
  env_nextPageToken env = Some "" ->
  post = [].
Proof.
  intros Hreq Hpage Htoken. apply (search_only_last w pre (rq, reply)).
  - assumption.
  - cbn [snd]. rewrite (continues_of_page _ _ Hpage), Htoken.
    apply andb_false_r.
Qed.

(** *** The loop in detail *)

Let request_ := request_of config jql_ fields_ max_results.

(** Everything one pass does, by the reply it gets. *)
Lemma body_detail (s : Loop World) :
  let rq := request_ (next_page_token s) in
  let w := fst (fetch (world s) rq) in
  let reply := snd (fetch (world s) rq) in
  match body_ s with
  | Continue s' =>
    continues reply = true /\
    iteration s' = iteration s + 1 /\
    next_page_token s' = token_after reply /\
    progress_counts (log s') =
      progress_counts (log s) ++ [len (all_issues s')] /\
    trace s' = trace s ++ [(rq, reply)] /\
    all_issues s' = all_issues s ++ page_of reply /\
    world s' = w
  | Break s' =>
    continues reply = false /\ page_reply reply <> None /\
    progress_counts (log s') =
      progress_counts (log s) ++ [len (all_issues s')] /\
    trace s' = trace s ++ [(rq, reply)] /\
    all_issues s' = all_issues s ++ page_of reply /\
    world s' = w
  | Abort o s' =>
    continues reply = false /\ page_reply reply = None /\
    o = failure_of reply /\
    log s' = log s ++ errors_of reply /\
    trace s' = trace s ++ [(rq, reply)] /\
    all_issues s' = all_issues s /\
    world s' = w
  end.
Proof.
  unfold body_, body, request_, request_of. cbv zeta.
  match goal with |- context [fetch ?w ?r] =>
    destruct (fetch w r) as [w' reply] end.
  cbn [fst snd].
  destruct reply as [| response]; cbn [continues page_reply failure_of
                                       errors_of page_of].
  - cbn. rewrite app_nil_r. auto 10.
  - destruct (status_code response =? 200) eqn:Hs; cbn [negb andb].
    + destruct (json_body response) as [data |] eqn:Hb.
      * unfold token_after. cbn [page_reply]. rewrite Hs, Hb.
        destruct (len (default [] (env_issues data)) =? 0) eqn:Hl;
          cbn [negb andb].
        -- cbn. unfold progress_counts. rewrite !flat_map_app.
           repeat split; try discriminate.
           match goal with |- context [if ?c then _ else _] =>
             destruct c end; cbn; now rewrite app_nil_r.
        -- destruct (truthy (env_nextPageToken data)) eqn:Ht; cbn [negb].
           ++ cbn. unfold progress_counts. rewrite !flat_map_app.
              repeat split.
              match goal with |- context [if ?c then _ else _] =>
                destruct c end; cbn; reflexivity.
           ++ cbn. unfold progress_counts. rewrite !flat_map_app.
              repeat split; try discriminate.
              match goal with |- context [if ?c then _ else _] =>
                destruct c end; cbn; now rewrite app_nil_r.
      * cbn. rewrite app_nil_r. auto 10.
    + cbn. auto 10.
Qed.

(** Induction along the passes of the loop. *)
Lemma while_loop_ind (P : Loop World -> Exit -> Loop World -> Prop) :
  (forall s, max_iterations <= iteration s -> P s Normal s) ->
  (forall s s' e s'',
     iteration s < max_iterations -> body_ s = Continue s' ->
     P s' e s'' -> P s e s'') ->
  (forall s s',
     iteration s < max_iterations -> body_ s = Break s' -> P s Normal s') ->
  (forall s o s',
     iteration s < max_iterations -> body_ s = Abort o s' ->
     P s (Aborted o) s') ->
  forall fuel s,
    max_iterations - iteration s <= Z.of_nat fuel ->
    P s (fst (loop_ fuel s)) (snd (loop_ fuel s)).
Proof.
  intros Hdone Hcont Hbreak Habort. unfold loop_.
  induction fuel as [| fuel IH]; intros s Hfuel; cbn [while_loop].
  - destruct (Z.ltb_spec (iteration s) max_iterations); [lia |].
    now apply Hdone.
  - destruct (Z.ltb_spec (iteration s) max_iterations) as [Hlt | Hge];
      [| now apply Hdone].
    pose proof (body_detail s) as Hb. cbv zeta in Hb. fold body_.
    destruct (body_ s) as [s' | s' | o s'] eqn:Hbody.
    + apply (Hcont s s'); [assumption | assumption |].
      apply IH. destruct Hb as (_ & Hi & _). lia.
    + now apply Hbreak.
    + now apply Habort.
Qed.

Let exchange_ := exchange fetch config jql_ fields_ max_results.

Let passes_left (s : Loop World) : nat :=
  Z.to_nat (max_iterations - iteration s).

Lemma while_loop_exchange (fuel : nat) (s : Loop World) :
  max_iterations - iteration s <= Z.of_nat fuel ->
  trace (snd (loop_ fuel s)) =
  trace s ++ exchange_ (passes_left s) (world s) (next_page_token s).
Proof.
  apply (while_loop_ind
           (fun s _ s' =>
              trace s' =
              trace s ++
              exchange_ (passes_left s) (world s) (next_page_token s)));
    clear fuel s; unfold passes_left.
  - intros s Hge. replace (Z.to_nat (max_iterations - iteration s)) with 0%nat
      by lia. cbn. now rewrite app_nil_r.
  - intros s s' e s'' Hlt Hbody IH.
    pose proof (body_detail s) as Hb. cbv zeta in Hb. rewrite Hbody in Hb.
    destruct Hb as (Hk & Hi & Htok & _ & Ht & _ & Hw).
    replace (Z.to_nat (max_iterations - iteration s))
      with (S (Z.to_nat (max_iterations - iteration s'))) by lia.
    unfold exchange_ in *. cbn [exchange]. fold request_.
    destruct (fetch (world s) (request_ (next_page_token s)))
      as [w reply]. cbn [fst snd] in *.
    rewrite Hk, IH, Ht, Hw, Htok, <- app_assoc. reflexivity.
  - intros s s' Hlt Hbody.
    pose proof (body_detail s) as Hb. cbv zeta in Hb. rewrite Hbody in Hb.
    destruct Hb as (Hk & _ & _ & Ht & _).
    replace (Z.to_nat (max_iterations - iteration s))
      with (S (Z.to_nat (max_iterations - (iteration s + 1)))) by lia.
    unfold exchange_. cbn [exchange]. fold request_.
    destruct (fetch (world s) (request_ (next_page_token s)))
      as [w reply]. cbn [fst snd] in *.
    now rewrite Hk, Ht.
  - intros s o s' Hlt Hbody.
    pose proof (body_detail s) as Hb. cbv zeta in Hb. rewrite Hbody in Hb.
    destruct Hb as (Hk & _ & _ & _ & Ht & _).
    replace (Z.to_nat (max_iterations - iteration s))
      with (S (Z.to_nat (max_iterations - (iteration s + 1)))) by lia.
    unfold exchange_. cbn [exchange]. fold request_.
    destruct (fetch (world s) (request_ (next_page_token s)))
      as [w reply]. cbn [fst snd] in *.
    now rewrite Hk, Ht.
Qed.

Lemma while_loop_ends (fuel : nat) (s : Loop World) :
  max_iterations - iteration s <= Z.of_nat fuel ->
  ends_as World s (fst (loop_ fuel s)) (snd (loop_ fuel s)).
Proof.
  apply (while_loop_ind (ends_as World)); clear fuel s; unfold ends_as.
  - intros s Hge. exists []. rewrite !app_nil_r.
    repeat split; constructor.
  - intros s s' e s'' Hlt Hbody (new & Ht' & Ha' & He).
    pose proof (body_detail s) as Hb. cbv zeta in Hb. rewrite Hbody in Hb.
    destruct Hb as (Hk & Hi & Htok & Hp & Ht & Ha & Hw).
    set (rq := request_ (next_page_token s)) in *.
    set (reply := snd (fetch (world s) rq)) in *.
    exists ((rq, reply) :: new).
    split; [rewrite Ht', Ht, <- app_assoc; reflexivity |].
    split; [rewrite Ha', Ha, <- app_assoc; reflexivity |].
    destruct e as [| o |]; [| | contradiction].
    + destruct He as [Hall Hprog]. split.
      * constructor; [now apply continues_page | assumption].
      * rewrite Hprog, Hp, Ha, <- app_assoc. cbn [fetched_pages map snd
                                                     running_sizes app].
        now rewrite len_app.
    + destruct He as (pre & rq' & reply' & -> & Hpg & -> & before & Hlog).
      exists ((rq, reply) :: pre), rq', reply'.
      repeat split; try assumption. now exists before.
  - intros s s' Hlt Hbody.
    pose proof (body_detail s) as Hb. cbv zeta in Hb. rewrite Hbody in Hb.
    destruct Hb as (Hk & Hpg & Hp & Ht & Ha & Hw).
    eexists. split; [exact Ht |].
    split; [rewrite Ha; cbn; now rewrite app_nil_r |].
    split; [repeat constructor; assumption |].
    rewrite Hp, Ha. cbn. now rewrite len_app.
  - intros s o s' Hlt Hbody.
    pose proof (body_detail s) as Hb. cbv zeta in Hb. rewrite Hbody in Hb.
    destruct Hb as (Hk & Hpg & Ho & Hl & Ht & Ha & Hw).
    eexists. split; [exact Ht |]. split.
    + rewrite Ha. cbn [fetched_pages map snd List.concat].
      destruct (snd (fetch (world s) (request_ (next_page_token s))))
        as [| response]; cbn in *; [now rewrite app_nil_r |].
      destruct (status_code response =? 200); [| now rewrite app_nil_r].
      destruct (json_body response); [discriminate | now rewrite app_nil_r].
    + exists [], (request_ (next_page_token s)),
        (snd (fetch (world s) (request_ (next_page_token s)))).
      repeat split; try assumption. now exists (log s).
Qed.

(** A call in terms of its loop. *)
Lemma jira_search_unfold (w : World) :
  let e := fst (loop_ (Z.to_nat max_iterations) (s0 w)) in
  let s' := snd (loop_ (Z.to_nat max_iterations) (s0 w)) in
  requests (search w) = trace s' /\
  match e with
  | Normal =>
    result (search w) = Returned (all_issues s') /\
    run_log (search w) =
      log s' ++
      (if iteration s' >=? max_iterations
       then [(WARNING, HitLimit max_iterations)] else []) ++
      [(INFO, FetchedDone (len (all_issues s')))]
  | Aborted o => result (search w) = o /\ run_log (search w) = log s'
  | Exhausted => True
  end.
Proof.
  unfold search, jira_search. cbv zeta. unfold loop_, s0, fields_.
  destruct (while_loop World fetch (Z.to_nat max_iterations) config jql_
              (default default_fields fields_opt) max_results _)
    as [[| o |] s']; cbn [fst snd].
  - destruct (iteration s' >=? max_iterations); cbn.
    + repeat split. now rewrite <- app_assoc.
    + repeat split.
  - cbn. auto.
  - cbn. auto.
Qed.

Lemma s0_fuel (w : World) :
  max_iterations - iteration (s0 w) <= Z.of_nat (Z.to_nat max_iterations).
Proof. unfold s0, max_iterations. cbn [iteration]. lia. Qed.

(** *** Further properties of [jira_search] *)

(** The requests of a call and their replies are the exchange with the
    service that starts without a token and goes on, for at most 100
    requests, as long as the replies ask for more. *)
Lemma search_requests_are_the_exchange (w : World) :
  requests (search w) = exchange_ 100 w None.
Proof.
  destruct (jira_search_unfold w) as [Hreq _]. cbv zeta in Hreq.
  rewrite Hreq, (while_loop_exchange _ _ (s0_fuel w)).
  reflexivity.
Qed.

Lemma exchange_chain (n : nat) :
  forall w token pre rq1 rp1 rq2 rp2 post,
    exchange_ n w token = pre ++ (rq1, rp1) :: (rq2, rp2) :: post ->
    continues rp1 = true /\ rq2 = request_ (token_after rp1).
Proof.
  unfold exchange_.
  induction n as [| n IH]; intros w token pre rq1 rp1 rq2 rp2 post Heq;
    cbn [exchange] in Heq; [now destruct pre |].
  fold request_ in Heq.
  destruct (fetch w (request_ token)) as [w' reply].
  destruct pre as [| p pre]; cbn [app] in Heq.
  - injection Heq as <- <- Hrest.
    destruct (continues reply); [| discriminate]. split; [reflexivity |].
    destruct n as [| n]; cbn [exchange] in Hrest; [discriminate |].
    fold request_ in Hrest.
    destruct (fetch w' (request_ (token_after reply))) as [w'' reply''].
    now injection Hrest as <- _ _.
  - injection Heq as _ Hrest.
    destruct (continues reply); [| now destruct pre].
    exact (IH _ _ _ _ _ _ _ _ Hrest).
Qed.

Lemma exchange_requests (n : nat) :
  forall w token rq rp,
    In (rq, rp) (exchange_ n w token) -> exists token', rq = request_ token'.
Proof.
  unfold exchange_.
  induction n as [| n IH]; intros w token rq rp Hin; cbn [exchange] in Hin;
    [contradiction |].
  fold request_ in Hin.
  destruct (fetch w (request_ token)) as [w' reply].
  destruct Hin as [Heq | Hin].
  - injection Heq as <- _. now exists token.
  - destruct (continues reply); [| contradiction].
    exact (IH _ _ _ _ Hin).
Qed.

Lemma continues_token (reply : Reply) :
  continues reply = true ->
  exists tok, token_after reply = Some tok /\ tok <> "" /\
              truthy (token_after reply) = true.
Proof.
  unfold token_after. destruct reply as [| response]; cbn; [discriminate |].
  destruct (status_code response =? 200); cbn; [| discriminate].
  destruct (json_body response) as [data |]; [| discriminate].
  rewrite andb_true_iff. intros [_ Ht].
  destruct (env_nextPageToken data) as [tok |]; [| discriminate].
  exists tok. split; [reflexivity |]. split; [| assumption].
  intros ->. discriminate.
Qed.

(** The first request of a call carries no page token, and each later
    request carries the token of the reply before it, which is not
    empty; a call makes at least one request. *)
Theorem search_sends_the_returned_token (w : World) :
  (exists rq rp rest,
     requests (search w) = (rq, rp) :: rest /\
     nextPageToken (params rq) = None) /\
  (forall pre rq1 rp1 rq2 rp2 post,
     requests (search w) = pre ++ (rq1, rp1) :: (rq2, rp2) :: post ->
     exists tok,
       token_after rp1 = Some tok /\ tok <> "" /\
       nextPageToken (params rq2) = Some tok).
Proof.
  rewrite search_requests_are_the_exchange. split.
  - unfold exchange_. cbn [exchange Z.to_nat Pos.to_nat]. fold request_.
    change (Pos.to_nat 100) with 100%nat. cbn [exchange]. fold request_.
    destruct (fetch w (request_ None)) as [w' reply].
    do 3 eexists. split; reflexivity.
  - intros pre rq1 rp1 rq2 rp2 post Heq.
    destruct (exchange_chain _ _ _ _ _ _ _ _ _ Heq) as [Hk ->].
    destruct (continues_token _ Hk) as (tok & Htok & Hne & Ht).
    exists tok. split; [assumption |]. split; [assumption |].
    unfold request_, request_of. cbn [params nextPageToken].
    now rewrite Ht.
Qed.

(** Every request of a call has the same address, credentials, query,
    field list and page size, and the timeout 30; the query is passed on
    as it is and the fields are joined by commas. *)
Theorem search_repeats_the_query (w : World) (rq : Request) (rp : Reply) :
  In (rq, rp) (requests (search w)) ->
  url rq = ("https://" ++ atlassian_site config
            ++ "/rest/api/3/search/jql")%string /\
  auth rq = (atlassian_user config, atlassian_token config) /\
  jql (params rq) = jql_ /\
  maxResults (params rq) = max_results /\
  fields (params rq) =
    String.concat "," (default default_fields fields_opt) /\
  timeout rq = 30.
Proof.
  rewrite search_requests_are_the_exchange. intros Hin.
  destruct (exchange_requests _ _ _ _ _ Hin) as [token ->].
  repeat split.
Qed.

(** A call returns issues only if every reply was a page: when the last
    reply is not one, the call ends the way of that reply -- exit code 1
    for a status other than 200, preceded by the error records with the
    status and the body; an exception when the service is unreachable or
    the body cannot be decoded -- and what was fetched is not returned. *)
Theorem search_failure_returns_nothing (w : World) :
  (forall l, result (search w) = Returned l ->
             Forall (fun x => page_reply (snd x) <> None)
               (requests (search w))) /\
  (forall pre rq reply,
     requests (search w) = pre ++ [(rq, reply)] ->
     page_reply reply = None ->
     result (search w) = failure_of reply /\
     (forall l, result (search w) <> Returned l) /\
     exists before, run_log (search w) = before ++ errors_of reply).
Proof.
  destruct (jira_search_unfold w) as [Hreq He]. cbv zeta in Hreq, He.
  pose proof (while_loop_ends _ _ (s0_fuel w)) as (new & Ht & _ & Hend).
  unfold s0 in Ht at 2. cbn [trace app] in Ht. rewrite <- Hreq in Ht.
  destruct (fst (loop_ (Z.to_nat max_iterations) (s0 w))) as [| o |];
    [| | contradiction].
  - destruct He as [Hr _]. destruct Hend as [Hall _]. split.
    + intros l _. now rewrite Ht.
    + intros pre rq reply Heq Hpg. exfalso. rewrite Ht in Heq.
      rewrite Heq in Hall. apply Forall_app in Hall.
      destruct Hall as [_ Hlast]. inversion Hlast; subst. auto.
  - destruct He as [Hr Hlog].
    destruct Hend as (pre' & rq' & reply' & Hnew & Hpg' & Ho & before & Hb).
    split.
    + intros l Hl. exfalso. rewrite Hr, Ho in Hl.
      destruct reply' as [| response]; cbn in Hl; [discriminate |].
      destruct (negb (status_code response =? 200)); discriminate.
    + intros pre rq reply Heq Hpg. rewrite Ht, Hnew in Heq.
      apply app_inj_tail in Heq. destruct Heq as [_ Heq].
      injection Heq as _ <-. rewrite Hr, Ho.
      split; [reflexivity |]. split.
      * intros l Hl. destruct reply' as [| response]; cbn in Hl;
          [discriminate |].
        destruct (negb (status_code response =? 200)); discriminate.
      * exists before. now rewrite Hlog.
Qed.

(** An empty result is no error: when the first reply is a page without
    issues, whatever its token, the call returns the empty list after
    that one request. *)
Theorem search_empty_result (w : World) (data : Envelope) :
  page_reply (snd (fetch w (request_ None))) = Some data ->
  default [] (env_issues data) = [] ->
  result (search w) = Returned [] /\
  requests (search w) =
    [(request_ None, snd (fetch w (request_ None)))].
Proof.
  intros Hpg Hempty.
  assert (Hreq : requests (search w) =
                 [(request_ None, snd (fetch w (request_ None)))]).
  { rewrite search_requests_are_the_exchange. unfold exchange_.
    change 100%nat with (S 99). cbn [exchange]. fold request_.
    destruct (fetch w (request_ None)) as [w' reply]. cbn [snd] in *.
    rewrite (continues_of_page _ _ Hpg), Hempty. reflexivity. }
  split; [| exact Hreq].
  assert (Hpage : page_of (snd (fetch w (request_ None))) = []).
  { destruct (snd (fetch w (request_ None))) as [| response];
      cbn in *; [discriminate |].
    destruct (status_code response =? 200); [| discriminate].
    rewrite Hpg. exact Hempty. }
  destruct (jira_search_unfold w) as [Hreq' He]. cbv zeta in Hreq', He.
  pose proof (while_loop_ends _ _ (s0_fuel w)) as (new & Ht & Ha & Hend).
  unfold s0 in Ht at 2, Ha at 2. cbn [trace all_issues app] in Ht, Ha.
  rewrite <- Hreq', Hreq in Ht. subst new.
  cbn [fetched_pages map snd List.concat] in Ha.
  rewrite Hpage in Ha. cbn [app] in Ha.
  destruct (fst (loop_ (Z.to_nat max_iterations) (s0 w))) as [| o |];
    [| | contradiction].
  - destruct He as [Hr _]. now rewrite Hr, Ha.
  - exfalso.
    destruct Hend as (pre' & rq' & reply' & Hnew & Hpg' & _).
    change [(request_ None, snd (fetch w (request_ None)))]
      with ([] ++ [(request_ None, snd (fetch w (request_ None)))]) in Hnew.
    apply app_inj_tail in Hnew. destruct Hnew as [_ Hnew].
    injection Hnew as _ <-. congruence.
Qed.

(** After each page a call reports the number of issues fetched so
    far: the progress records of a call that returns carry the running
    sums of the page sizes, and its last record the number returned. *)
Theorem search_reports_progress (w : World) (l : list json) :
  result (search w) = Returned l ->
  progress_counts (run_log (search w)) =
    running_sizes 0 (fetched_pages (requests (search w))) /\
  last (run_log (search w)) (DEBUG, NoMoreIssues) =
    (INFO, FetchedDone (len l)).
Proof.
  intros Hl.
  destruct (jira_search_unfold w) as [Hreq He]. cbv zeta in Hreq, He.
  pose proof (while_loop_ends _ _ (s0_fuel w)) as (new & Ht & _ & Hend).
  unfold s0 in Ht at 2. cbn [trace app] in Ht. rewrite <- Hreq in Ht.
  destruct (fst (loop_ (Z.to_nat max_iterations) (s0 w))) as [| o |];
    [| | contradiction].
  - destruct He as [Hr Hlog]. destruct Hend as [_ Hprog].
    unfold s0 in Hprog at 2 3. cbn [log all_issues app] in Hprog.
    rewrite Hr in Hl. injection Hl as <-. split.
    + rewrite Hlog. unfold progress_counts in *.
      rewrite !flat_map_app, Hprog, Ht.
      destruct (iteration _ >=? max_iterations); cbn;
        now rewrite app_nil_r.
    + rewrite Hlog, app_assoc. apply last_last.
  - exfalso. destruct He as [Hr _].
    destruct Hend as (pre' & rq' & reply' & _ & _ & Ho & _).
    rewrite Hr, Ho in Hl.
    destruct reply' as [| response]; cbn in Hl; [discriminate |].
    destruct (negb (status_code response =? 200)); discriminate.
Qed.

(** *** For the callers of [jira_search] *)

Lemma failure_of_cases (reply : Reply) :
  failure_of reply = SysExit 1 \/ exists e, failure_of reply = Raised e.
Proof.
  destruct reply as [| response]; cbn; [right; eauto |].
  destruct (negb (status_code response =? 200)); [now left | right; eauto].
Qed.

(** A call ends with the issues, with exit code 1 or with an
    exception. *)
Lemma jira_search_result (w : World) :
  (exists l, result (search w) = Returned l) \/
  result (search w) = SysExit 1 \/
  exists e, result (search w) = Raised e.
Proof.
  destruct (jira_search_unfold w) as [_ He]. cbv zeta in He.
  pose proof (while_loop_ends _ _ (s0_fuel w)) as (new & _ & _ & Hend).
  destruct (fst (loop_ (Z.to_nat max_iterations) (s0 w))) as [| o |];
    [| | contradiction].
  - destruct He as [Hr _]. left. eauto.
  - destruct He as [Hr _].
    destruct Hend as (pre & rq & reply & _ & _ & Ho & _).
    right. rewrite Hr, Ho. apply failure_of_cases.
Qed.

Lemma jira_search_cap (w : World) : len (requests (search w)) <= 100.
Proof. destruct (jira_search_run w) as (e & s' & _ & Hcap & _). exact Hcap. Qed.

(** When the first reply is no page, it is the only one. *)
Lemma jira_search_first_failure (w : World) :
  page_reply (snd (fetch w (request_ None))) = None ->
  requests (search w) = [(request_ None, snd (fetch w (request_ None)))] /\
  result (search w) = failure_of (snd (fetch w (request_ None))).
Proof.
  intros Hpg.
  destruct (jira_search_unfold w) as [Hreq He]. cbv zeta in Hreq, He.
  assert (Hone : requests (search w) =
                 [(request_ None, snd (fetch w (request_ None)))]).
  { rewrite Hreq, (while_loop_exchange _ _ (s0_fuel w)).
    unfold passes_left, s0, exchange_. cbn [trace app iteration world
                                            next_page_token].
    change (Z.to_nat (max_iterations - 0)) with (S 99).
    cbn [exchange]. fold request_.
    destruct (fetch w (request_ None)) as [w' reply]. cbn [snd] in *.
    assert (Hk : continues reply = false).
    { destruct (continues reply) eqn:Hk; [| reflexivity].
      now apply continues_page in Hk. }
    now rewrite Hk. }
  split; [exact Hone |].
  pose proof (while_loop_ends _ _ (s0_fuel w)) as (new & Ht & _ & Hend).
  unfold s0 in Ht at 2. cbn [trace app] in Ht.
  rewrite <- Hreq, Hone in Ht. subst new.
  destruct (fst (loop_ (Z.to_nat max_iterations) (s0 w))) as [| o |];
    [| | contradiction].
  - exfalso. destruct Hend as [Hall _]. inversion Hall; subst. auto.
  - destruct He as [Hr _].
    destruct Hend as (pre & rq & reply & Hnew & _ & Ho & _).
    change [(request_ None, snd (fetch w (request_ None)))]
      with ([] ++ [(request_ None, snd (fetch w (request_ None)))]) in Hnew.
    apply app_inj_tail in Hnew. destruct Hnew as [_ Hnew].
    injection Hnew as _ <-. now rewrite Hr.
Qed.

End Facts.

(** *** The theorems at work on concrete services *)

Lemma search_returns_concatenation_witness :
  (result (run_script script_no_token) = Returned [JInt 1; JInt 2; JInt 3] /\
   [JInt 1; JInt 2; JInt 3] =
     List.concat (fetched_pages (requests (run_script script_no_token))) /\
   len [JInt 1; JInt 2; JInt 3] =
     total_size (fetched_pages (requests (run_script script_no_token)))) /\
  result run_endless =
    Returned (List.concat (fetched_pages (requests run_endless))).
Proof.
  unfold run_script, run_endless. split.
  - split; [vm_compute; reflexivity |].
    apply (proj1 (search_returns_concatenation _ scripted config0 _ None 100
                    script_no_token)).
    vm_compute; reflexivity.
  - apply (proj2 (search_returns_concatenation _ endless config0 _ None 100
                    0)).
    intros w' rq. unfold endless, page. cbn [snd page_reply status_code].
    discriminate.
Defined.

Lemma search_iteration_cap_witness :
  len (requests run_endless) = 100 /\
  In (WARNING, HitLimit 100) (run_log run_endless) /\
  result run_endless =
    Returned (List.concat (fetched_pages (requests run_endless))) /\
  no_level ERROR (run_log run_endless).
Proof.
  unfold run_endless.
  pose proof (search_iteration_cap _ endless config0
                "assignee = currentUser()" None 100 0) as (_ & Hwarn & Hall).
  assert (Hmore : forall (w' : Z) rq, continues (snd (endless w' rq)) = true)
    by (intros w' rq; reflexivity).
  destruct (Hall Hmore) as [Hlen Hin].
  destruct (Hwarn Hin) as (_ & Hres & Hquiet).
  split; [exact Hlen |]. split; [exact Hin |]. split; [exact Hres |].
  exact Hquiet.
Defined.

Lemma search_stops_at_last_page_witness :
  skipn 2 (requests (run_script script_no_token)) = [] /\
  skipn 2 (requests (run_script script_empty_page)) = [].
Proof.
  unfold run_script.
  pose (d := (Build_Request "" ("", "") (Build_Params "" 0 "" None) 0,
              Unreachable)).
  split.
  - match goal with |- skipn 2 ?r = [] =>
      apply (search_stops_at_last_page _ scripted config0
               "assignee = currentUser()" None 100
               script_no_token (firstn 1 r) (fst (nth 1 r d))
               (snd (nth 1 r d)) (skipn 2 r)
               (Build_Envelope (Some [JInt 3]) None (Some 5)))
    end.
    + vm_compute; reflexivity.
    + vm_compute; reflexivity.
    + left. reflexivity.
  - match goal with |- skipn 2 ?r = [] =>
      apply (search_stops_at_last_page _ scripted config0
               "assignee = currentUser()" None 100
               script_empty_page (firstn 1 r) (fst (nth 1 r d))
               (snd (nth 1 r d)) (skipn 2 r)
               (Build_Envelope (Some []) (Some "b") (Some 5)))
    end.
    + vm_compute; reflexivity.
    + vm_compute; reflexivity.
    + right. reflexivity.
Defined.

Lemma search_stops_at_empty_token_witness :
  skipn 2 (requests (run_script script_empty_token)) = [].
Proof.
  unfold run_script.
  pose (d := (Build_Request "" ("", "") (Build_Params "" 0 "" None) 0,
              Unreachable)).
  match goal with |- skipn 2 ?r = [] =>
    apply (search_stops_at_empty_token _ scripted config0
               "assignee = currentUser()" None 100
             script_empty_token (firstn 1 r) (fst (nth 1 r d))
             (snd (nth 1 r d)) (skipn 2 r)
             (Build_Envelope (Some [JInt 3]) (Some "") (Some 5)))
  end.
  - vm_compute; reflexivity.
  - vm_compute; reflexivity.
  - reflexivity.
Defined.

Lemma search_sends_the_returned_token_witness :
  exists tok,
    token_after (snd (nth 0 (requests (run_script script_no_token))
                        (request_of config0 "" [] 0 None, Unreachable)))
      = Some tok /\
    tok <> "" /\
    nextPageToken
      (params (fst (nth 1 (requests (run_script script_no_token))
                      (request_of config0 "" [] 0 None, Unreachable))))
      = Some tok.
Proof.
  unfold run_script.
  pose (d := (request_of config0 "" [] 0 None, Unreachable)).
  match goal with |- context [requests ?r] =>
    apply (proj2 (search_sends_the_returned_token _ scripted config0
                    "assignee = currentUser()" None 100 script_no_token)
             [] (fst (nth 0 (requests r) d)) (snd (nth 0 (requests r) d))
             (fst (nth 1 (requests r) d)) (snd (nth 1 (requests r) d)) [])
  end.
  vm_compute. reflexivity.
Defined.

Lemma search_repeats_the_query_witness :
  let rq := fst (nth 1 (requests (run_script script_no_token))
                   (request_of config0 "" [] 0 None, Unreachable)) in
  jql (params rq) = "assignee = currentUser()" /\
  fields (params rq) = "summary,status,issuetype,created,resolved" /\
  timeout rq = 30.
Proof.
  unfold run_script.
  pose (d := (request_of config0 "" [] 0 None, Unreachable)).
  match goal with |- context [requests ?r] =>
    destruct (search_repeats_the_query _ scripted config0
                "assignee = currentUser()" None 100 script_no_token
                (fst (nth 1 (requests r) d)) (snd (nth 1 (requests r) d)))
      as (_ & _ & Hjql & _ & Hfields & Htimeout)
  end.
  - vm_compute. right. left. reflexivity.
  - split; [exact Hjql |]. split; [exact Hfields | exact Htimeout].
Defined.

Lemma search_failure_returns_nothing_witness :
  result (run_script script_refused) = SysExit 1 /\
  exists before,
    run_log (run_script script_refused) =
      before ++ [(ERROR, FailedToFetch); (ERROR, StatusCode 503);
                 (ERROR, ResponseText "Service Unavailable")].
Proof.
  unfold run_script.
  pose (d := (request_of config0 "" [] 0 None, Unreachable)).
  match goal with |- context [result ?r] =>
    destruct (proj2 (search_failure_returns_nothing _ scripted config0
                       "assignee = currentUser()" None 100 script_refused)
                (firstn 1 (requests r)) (fst (nth 1 (requests r) d))
                (nth 1 script_refused Unreachable))
      as (Hres & _ & Hlog)
  end.
  - vm_compute. reflexivity.
  - reflexivity.
  - split; [exact Hres | exact Hlog].
Defined.

Lemma search_empty_result_witness :
  result (run_script script_nothing) = Returned [] /\
  len (requests (run_script script_nothing)) = 1.
Proof.
  unfold run_script.
  destruct (search_empty_result _ scripted config0
              "assignee = currentUser()" None 100 script_nothing
              (Build_Envelope (Some []) (Some "b") (Some 0)))
    as [Hres Hreq]; [reflexivity | reflexivity |].
  split; [exact Hres |]. rewrite Hreq. reflexivity.
Defined.

Lemma search_reports_progress_witness :
  progress_counts (run_log (run_script script_no_token)) =
    running_sizes 0 [[JInt 1; JInt 2]; [JInt 3]] /\
  last (run_log (run_script script_no_token)) (DEBUG, NoMoreIssues) =
    (INFO, FetchedDone 3).
Proof.
  unfold run_script.
  destruct (search_reports_progress _ scripted config0
              "assignee = currentUser()" None 100 script_no_token
              [JInt 1; JInt 2; JInt 3])
    as [Hprog Hlast]; [vm_compute; reflexivity |].
  split; [| exact Hlast].
  rewrite Hprog. vm_compute. reflexivity.
Defined.

End SearchFacts.

(* ================================================================= *)
(** * Properties of the date calculator *)

Module DatesFacts.
Import Dates FloatFacts.

(** *** The calendar *)

Lemma days_before_year_succ (y : Z) :
  days_before_year (y + 1) =
  days_before_year y + 365 + (if is_leap y then 1 else 0).
Proof.
  unfold days_before_year, is_leap.
  replace (y + 1 - 1) with y by lia.
  destruct (Z.eqb_spec (y mod 4) 0) as [H4 | H4];
    destruct (Z.eqb_spec (y mod 100) 0) as [H100 | H100];
    destruct (Z.eqb_spec (y mod 400) 0) as [H400 | H400];
    cbn [andb orb negb];
    Z.div_mod_to_equations; lia.
Qed.

Lemma days_before_year_mono (y y' : Z) :
  y <= y' -> days_before_year y <= days_before_year y'.
Proof.
  unfold days_before_year. intros Hle.
  Z.div_mod_to_equations. lia.
Qed.

Lemma valid_fields (dt : datetime) :
  valid dt = true ->
  1 <= year dt <= 9999 /\ 1 <= month dt <= 12 /\
  1 <= day dt <= days_in_month (year dt) (month dt).
Proof.
  unfold valid, check_date_fields, MINYEAR, MAXYEAR.
  rewrite !andb_true_iff, !Z.leb_le. lia.
Qed.

Lemma fields_valid (dt : datetime) :
  1 <= year dt <= 9999 -> 1 <= month dt <= 12 ->
  1 <= day dt <= days_in_month (year dt) (month dt) ->
  valid dt = true.
Proof.
  unfold valid, check_date_fields, MINYEAR, MAXYEAR.
  rewrite !andb_true_iff, !Z.leb_le. lia.
Qed.

(** Case analysis on a month known to lie in 1..12. *)
Ltac each_month m :=
  let H := fresh "Hmonth" in
  assert (H : m = 1 \/ m = 2 \/ m = 3 \/ m = 4 \/ m = 5 \/ m = 6 \/
              m = 7 \/ m = 8 \/ m = 9 \/ m = 10 \/ m = 11 \/ m = 12)
    by lia;
  repeat (destruct H as [H | H]; [subst m |]); [.. | subst m].

Ltac calendar y :=
  cbv [days_before_month days_in_month DAYS_BEFORE_MONTH DAYS_IN_MONTH
       nth Z.to_nat Pos.to_nat Pos.iter_op Nat.add
       Z.eqb Z.gtb Z.compare Pos.eqb Pos.compare Pos.compare_cont andb] in *;
  destruct (is_leap y); lia.

Lemma days_in_month_bounds (y m : Z) :
  1 <= m <= 12 -> 28 <= days_in_month y m <= 31.
Proof. intros Hm. each_month m; calendar y. Qed.

Lemma days_before_month_succ (y m : Z) :
  1 <= m < 12 ->
  days_before_month y (m + 1) = days_before_month y m + days_in_month y m.
Proof.
  intros Hm. each_month m; try lia;
    cbn [Z.add Pos.add Pos.succ]; calendar y.
Qed.

Lemma days_before_month_first (y : Z) : days_before_month y 1 = 0.
Proof. reflexivity. Qed.

Lemma days_before_month_last (y : Z) :
  days_before_month y 12 + days_in_month y 12 =
  365 + (if is_leap y then 1 else 0).
Proof. calendar y. Qed.

(** A later month starts after the end of an earlier one. *)
Lemma days_before_month_lt (y m m' : Z) :
  1 <= m -> m < m' -> m' <= 12 ->
  days_before_month y m + days_in_month y m <= days_before_month y m'.
Proof.
  intros H1 Hlt H12.
  assert (Hm : 1 <= m <= 12) by lia. assert (Hm' : 1 <= m' <= 12) by lia.
  each_month m; each_month m'; try lia; calendar y.
Qed.

Lemma toordinal_add_day (dt dt' : datetime) :
  valid dt = true -> add_day dt = Ok dt' ->
  valid dt' = true /\ toordinal dt' = toordinal dt + 1.
Proof.
  intros Hv Hadd. apply valid_fields in Hv.
  destruct dt as [y m d]. cbn [year month day] in Hv.
  destruct Hv as (Hy & Hm & Hd).
  unfold add_day in Hadd. cbn [year month day] in Hadd.
  unfold toordinal, ymd2ord.
  destruct (Z.ltb_spec d (days_in_month y m)) as [Hlt | Hge].
  - inversion Hadd; subst dt'. cbn [year month day]. split; [| lia].
    apply fields_valid; cbn [year month day]; lia.
  - assert (Hlast : d = days_in_month y m) by lia.
    destruct (Z.ltb_spec m 12) as [Hm12 | Hm12].
    + inversion Hadd; subst dt'. cbn [year month day]. split.
      * apply fields_valid; cbn [year month day]; try lia.
        pose proof (days_in_month_bounds y (m + 1)). lia.
      * rewrite days_before_month_succ by lia. lia.
    + assert (m = 12) by lia. subst m.
      unfold MAXYEAR in Hadd.
      destruct (Z.ltb_spec y 9999) as [Hy9 | Hy9]; [| discriminate].
      inversion Hadd; subst dt'. cbn [year month day]. split.
      * apply fields_valid; cbn [year month day]; try lia.
        pose proof (days_in_month_bounds (y + 1) 1). lia.
      * rewrite days_before_year_succ, days_before_month_first.
        pose proof (days_before_month_last y). lia.
Qed.

(** Where the days of a year lie among the ordinals. *)
Lemma toordinal_in_year (dt : datetime) :
  valid dt = true ->
  days_before_year (year dt) < toordinal dt <= days_before_year (year dt + 1).
Proof.
  intros Hv. apply valid_fields in Hv.
  destruct dt as [y m d]. cbn [year month day] in *.
  destruct Hv as (Hy & Hm & Hd).
  unfold toordinal, ymd2ord. cbn [year month day].
  rewrite days_before_year_succ.
  pose proof (days_before_month_last y) as Hlast.
  assert (Hlo : 0 <= days_before_month y m) by (each_month m; calendar y).
  assert (Hhi : days_before_month y m + days_in_month y m <=
                days_before_month y 12 + days_in_month y 12).
  { destruct (Z.eq_dec m 12) as [-> | Hne]; [lia |].
    pose proof (days_before_month_lt y m 12).
    pose proof (days_in_month_bounds y 12). lia. }
  lia.
Qed.

Lemma lt_cases (a b : datetime) :
  lt a b = true <->
  year a < year b \/
  (year a = year b /\ month a < month b) \/
  (year a = year b /\ month a = month b /\ day a < day b).
Proof.
  unfold lt.
  destruct (Z.ltb_spec (year a) (year b)), (Z.eqb_spec (year a) (year b)),
    (Z.ltb_spec (month a) (month b)), (Z.eqb_spec (month a) (month b)),
    (Z.ltb_spec (day a) (day b)); cbn [andb orb];
    split; intros Hlt; try reflexivity; try discriminate; lia.
Qed.

Lemma lt_toordinal (a b : datetime) :
  valid a = true -> valid b = true ->
  lt a b = true -> toordinal a < toordinal b.
Proof.
  intros Ha Hb Hlt.
  pose proof (toordinal_in_year a Ha) as Hya.
  pose proof (toordinal_in_year b Hb) as Hyb.
  apply valid_fields in Ha, Hb. apply lt_cases in Hlt.
  destruct a as [y m d], b as [y' m' d']. cbn [year month day] in *.
  destruct Hlt as [Hy | [[Hy Hm] | (Hy & Hm & Hd)]].
  - pose proof (days_before_year_mono (y + 1) y'). lia.
  - subst y'. unfold toordinal, ymd2ord. cbn [year month day].
    pose proof (days_before_month_lt y m m'). lia.
  - subst y' m'. unfold toordinal, ymd2ord. cbn [year month day]. lia.
Qed.

Lemma lt_total (a b : datetime) :
  lt a b = false -> lt b a = false -> a = b.
Proof.
  intros H1 H2.
  assert (N1 : ~ lt a b = true) by congruence.
  assert (N2 : ~ lt b a = true) by congruence.
  rewrite lt_cases in N1, N2.
  destruct a as [y m d], b as [y' m' d']. cbn [year month day] in *.
  assert (y = y') by lia. subst y'.
  assert (m = m') by lia. subst m'.
  assert (d = d') by lia. now subst d'.
Qed.

Lemma not_lt_toordinal (a b : datetime) :
  valid a = true -> valid b = true ->
  lt a b = false -> toordinal b <= toordinal a.
Proof.
  intros Ha Hb Hlt. destruct (lt b a) eqn:Hba.
  - pose proof (lt_toordinal b a Hb Ha Hba). lia.
  - rewrite (lt_total a b Hlt Hba). lia.
Qed.

(** Before a later valid date there is always a next day. *)
Lemma add_day_before (a b : datetime) :
  valid a = true -> valid b = true -> lt a b = true ->
  exists a', add_day a = Ok a'.
Proof.
  intros Ha Hb Hlt. apply valid_fields in Ha, Hb. apply lt_cases in Hlt.
  destruct a as [y m d], b as [y' m' d']. cbn [year month day] in *.
  unfold add_day, MAXYEAR. cbn [year month day].
  destruct (Z.ltb_spec d (days_in_month y m)); [eauto |].
  destruct (Z.ltb_spec m 12); [eauto |].
  destruct (Z.ltb_spec y 9999); [eauto |].
  exfalso. assert (y = 9999) by lia. assert (m = 12) by lia. subst y m.
  assert (y' = 9999) by lia. subst y'.
  assert (m' = 12) by lia. subst m'.
  pose proof (days_in_month_bounds 9999 12). lia.
Qed.

(** *** The weekday scan *)

Lemma in_ordinals_from (n : nat) :
  forall a o, In o (ordinals_from a n) <-> a <= o < a + Z.of_nat n.
Proof.
  induction n as [| n IH]; intros a o; cbn [ordinals_from In].
  - lia.
  - rewrite IH. lia.
Qed.

Lemma in_days_from_to (a b o : Z) :
  In o (days_from_to a b) <-> a <= o < b.
Proof. unfold days_from_to. rewrite in_ordinals_from. lia. Qed.

Lemma weekdays_between_empty (a b : Z) :
  b <= a -> weekdays_between a b = 0.
Proof.
  intros Hle. unfold weekdays_between, days_from_to.
  replace (Z.to_nat (b - a)) with 0%nat by lia. reflexivity.
Qed.

Lemma weekdays_between_step (a b : Z) :
  a < b ->
  weekdays_between a b =
  (if is_weekday a then 1 else 0) + weekdays_between (a + 1) b.
Proof.
  intros Hlt. unfold weekdays_between, days_from_to.
  replace (Z.to_nat (b - a)) with (S (Z.to_nat (b - (a + 1)))) by lia.
  cbn [ordinals_from filter].
  destruct (is_weekday a); unfold len; cbn [List.length]; lia.
Qed.

Lemma weekday_is_weekday (dt : datetime) :
  (weekday dt <? 5) = is_weekday (toordinal dt).
Proof.
  unfold weekday, is_weekday, weekday_of_ordinal.
  pose proof (Z.mod_pos_bound (toordinal dt + 6) 7 ltac:(lia)) as Hmod.
  destruct (Z.ltb_spec ((toordinal dt + 6) mod 7) 5),
    (Z.leb_spec 0 ((toordinal dt + 6) mod 7)),
    (Z.leb_spec ((toordinal dt + 6) mod 7) 4); cbn [andb];
    try reflexivity; lia.
Qed.

(** The scan neither runs out of fuel nor raises: it adds to the count
    the weekdays among the days from [current] up to, not including,
    [end_]. *)
Lemma scan_enough_fuel (fuel : nat) :
  forall current end_ weekdays,
    valid current = true -> valid end_ = true ->
    toordinal end_ - toordinal current <= Z.of_nat fuel ->
    scan fuel current end_ weekdays =
    Some (Ok (weekdays +
              weekdays_between (toordinal current) (toordinal end_))).
Proof.
  induction fuel as [| fuel IH]; intros current end_ weekdays Hc He Hfuel;
    cbn [scan]; destruct (lt current end_) eqn:Hlt.
  - pose proof (lt_toordinal _ _ Hc He Hlt). lia.
  - pose proof (not_lt_toordinal _ _ Hc He Hlt).
    rewrite weekdays_between_empty by lia. f_equal. f_equal. lia.
  - pose proof (lt_toordinal _ _ Hc He Hlt) as Hord.
    destruct (add_day_before _ _ Hc He Hlt) as [current' Hadd].
    rewrite Hadd.
    destruct (toordinal_add_day _ _ Hc Hadd) as [Hc' Hord'].
    rewrite IH by (assumption || lia).
    rewrite (weekdays_between_step (toordinal current)) by lia.
    rewrite weekday_is_weekday, Hord'.
    destruct (is_weekday (toordinal current)); do 2 f_equal; lia.
  - pose proof (not_lt_toordinal _ _ Hc He Hlt).
    rewrite weekdays_between_empty by lia. f_equal. f_equal. lia.
Qed.

Lemma count_weekdays_spec (start end_ : datetime) :
  valid start = true -> valid end_ = true ->
  count_weekdays start end_ =
  Some (Ok (weekdays_between (toordinal start) (toordinal end_))).
Proof.
  intros Hs He. unfold count_weekdays.
  rewrite scan_enough_fuel by (assumption || unfold days_between; lia).
  reflexivity.
Qed.

Lemma strptime_valid (s : string) (dt : datetime) :
  strptime s = Ok dt -> valid dt = true.
Proof.
  unfold strptime.
  destruct (regex_match (list_ascii_of_string s))
    as [[[[y m] d] rest] |]; [| discriminate].
  destruct rest; [| discriminate].
  destruct (check_date_fields y m d) eqn:Hcheck; [| discriminate].
  intros Hok. inversion Hok; subst dt. exact Hcheck.
Qed.

Lemma strptime_raises (s : string) (e : exn) :
  strptime s = Raise e -> e = ValueError.
Proof.
  unfold strptime.
  destruct (regex_match (list_ascii_of_string s))
    as [[[[y m] d] rest] |]; [| congruence].
  destruct rest; [| congruence].
  destruct (check_date_fields y m d); congruence.
Qed.

(** *** What [strptime] accepts *)

Lemma digit_of_inv (c : ascii) (n : Z) :
  digit_of c = Some n -> 0 <= n <= 9 /\ c = digit_char n.
Proof.
  unfold digit_of, digit_char.
  destruct ((48 <=? Z.of_N (N_of_ascii c)) && (Z.of_N (N_of_ascii c) <=? 57))
    eqn:Hrange; [| discriminate].
  intros Hn. inversion Hn as [Heq]. clear Hn.
  apply andb_true_iff in Hrange. rewrite !Z.leb_le in Hrange.
  split; [lia |].
  replace (48 + (Z.of_N (N_of_ascii c) - 48)) with (Z.of_N (N_of_ascii c))
    by lia.
  now rewrite N2Z.id, ascii_N_embedding.
Qed.

Lemma digit_of_char (n : Z) :
  0 <= n <= 9 -> digit_of (digit_char n) = Some n.
Proof.
  intros Hn.
  assert (Hin : In n (range 0 10)) by (apply in_ordinals_from; lia).
  vm_compute in Hin.
  repeat (destruct Hin as [<- | Hin]; [reflexivity |]).
  contradiction.
Qed.

Lemma in_range_inv (lo hi : Z) (c : ascii) (n : Z) :
  in_range lo hi c = Some n ->
  lo <= n <= hi /\ 0 <= n <= 9 /\ c = digit_char n.
Proof.
  unfold in_range. destruct (digit_of c) as [k |] eqn:Hd; [| discriminate].
  destruct ((lo <=? k) && (k <=? hi)) eqn:Hr; [| discriminate].
  intros Hn. inversion Hn; subst k.
  apply andb_true_iff in Hr. rewrite !Z.leb_le in Hr.
  apply digit_of_inv in Hd. tauto.
Qed.

Lemma literal_inv (c : ascii) (l rest : list ascii) :
  literal c l = Some rest -> l = c :: rest.
Proof.
  destruct l as [| x l]; cbn [literal]; [discriminate |].
  destruct (Ascii.eqb_spec x c) as [-> |]; [| discriminate].
  now intros [= ->].
Qed.

Lemma two_digits_inv lo1 hi1 lo2 hi2 (l : list ascii) n rest :
  In (n, rest) (two_digits lo1 hi1 lo2 hi2 l) ->
  exists x y, lo1 <= x <= hi1 /\ lo2 <= y <= hi2 /\
              0 <= x <= 9 /\ 0 <= y <= 9 /\ n = 10 * x + y /\
              l = digit_char x :: digit_char y :: rest.
Proof.
  unfold two_digits. destruct l as [| a [| b l]]; try contradiction.
  destruct (in_range lo1 hi1 a) as [x |] eqn:Ha; [| contradiction].
  destruct (in_range lo2 hi2 b) as [y |] eqn:Hb; [| contradiction].
  intros [Heq | []]. inversion Heq; subst.
  apply in_range_inv in Ha, Hb. exists x, y.
  destruct Ha as (? & ? & ->), Hb as (? & ? & ->). auto 10.
Qed.

Lemma one_digit_inv lo hi (l : list ascii) n rest :
  In (n, rest) (one_digit lo hi l) ->
  lo <= n <= hi /\ 0 <= n <= 9 /\ l = digit_char n :: rest.
Proof.
  unfold one_digit. destruct l as [| a l]; try contradiction.
  destruct (in_range lo hi a) as [x |] eqn:Ha; [| contradiction].
  intros [Heq | []]. inversion Heq; subst.
  apply in_range_inv in Ha. destruct Ha as (? & ? & ->). auto.
Qed.

Lemma space_digit_inv lo hi (l : list ascii) n rest :
  In (n, rest) (space_digit lo hi l) ->
  lo <= n <= hi /\ 0 <= n <= 9 /\ l = " "%char :: digit_char n :: rest.
Proof.
  unfold space_digit. destruct (literal " " l) as [l' |] eqn:Hl;
    [| contradiction].
  apply literal_inv in Hl. subst l. intros Hin.
  apply one_digit_inv in Hin. destruct Hin as (? & ? & ->). auto.
Qed.

Lemma first_match_inv {A B} (k : A -> option B) (alts : list A) (b : B) :
  first_match k alts = Some b -> exists a, In a alts /\ k a = Some b.
Proof.
  induction alts as [| a alts IH]; cbn [first_match]; [discriminate |].
  destruct (k a) as [b' |] eqn:Hk.
  - intros [= ->]. exists a. split; [now left | assumption].
  - intros Hrest. destruct (IH Hrest) as (a' & Hin & Ha').
    exists a'. split; [now right | assumption].
Qed.

Lemma two_digit_of (x y : Z) :
  0 <= x <= 9 -> 0 <= y <= 9 ->
  two_digit (10 * x + y) = [digit_char x; digit_char y].
Proof.
  intros Hx Hy. unfold two_digit.
  assert ((10 * x + y) / 10 = x) as -> by (Z.div_mod_to_equations; lia).
  assert ((10 * x + y) mod 10 = y) as -> by (Z.div_mod_to_equations; lia).
  reflexivity.
Qed.

Lemma match_m_inv (l : list ascii) m rest :
  In (m, rest) (match_m l) ->
  1 <= m <= 12 /\ exists ms, In ms (month_spellings m) /\ l = ms ++ rest.
Proof.
  unfold match_m. rewrite !in_app_iff.
  intros [Hin | [Hin | Hin]].
  - apply two_digits_inv in Hin.
    destruct Hin as (x & y & Hx & Hy & Hx9 & Hy9 & -> & ->).
    split; [lia |]. exists [digit_char x; digit_char y].
    split; [| reflexivity]. unfold month_spellings.
    destruct (Z.ltb_spec (10 * x + y) 10); [lia |].
    left. now apply two_digit_of.
  - apply two_digits_inv in Hin.
    destruct Hin as (x & y & Hx & Hy & Hx9 & Hy9 & -> & ->).
    split; [lia |]. exists [digit_char x; digit_char y].
    split; [| reflexivity]. unfold month_spellings.
    destruct (Z.ltb_spec (10 * x + y) 10); left; now apply two_digit_of.
  - apply one_digit_inv in Hin. destruct Hin as (Hm & Hm9 & ->).
    split; [lia |]. exists [digit_char m].
    split; [| reflexivity]. unfold month_spellings.
    destruct (Z.ltb_spec m 10); [| lia]. right. now left.
Qed.

Lemma match_d_inv (l : list ascii) d rest :
  In (d, rest) (match_d l) ->
  1 <= d <= 31 /\ exists ds, In ds (day_spellings d) /\ l = ds ++ rest.
Proof.
  unfold match_d. rewrite !in_app_iff.
  intros [Hin | [Hin | [Hin | [Hin | Hin]]]];
    try (apply two_digits_inv in Hin;
         destruct Hin as (x & y & Hx & Hy & Hx9 & Hy9 & -> & ->);
         split; [lia |]; exists [digit_char x; digit_char y];
         split; [| reflexivity]; unfold day_spellings;
         destruct (Z.ltb_spec (10 * x + y) 10); left;
         now apply two_digit_of).
  - apply one_digit_inv in Hin. destruct Hin as (Hd & Hd9 & ->).
    split; [lia |]. exists [digit_char d].
    split; [| reflexivity]. unfold day_spellings.
    destruct (Z.ltb_spec d 10); [| lia]. right. now left.
  - apply space_digit_inv in Hin. destruct Hin as (Hd & Hd9 & ->).
    split; [lia |]. exists [" "%char; digit_char d].
    split; [| reflexivity]. unfold day_spellings.
    destruct (Z.ltb_spec d 10); [| lia]. right. right. now left.
Qed.

Lemma match_month_day_inv (l : list ascii) m d rest :
  match_month_day l = Some (m, d, rest) ->
  exists ms ds,
    In ms (month_spellings m) /\ In ds (day_spellings d) /\
    l = ms ++ "-"%char :: ds ++ rest.
Proof.
  unfold match_month_day. intros Hm.
  apply first_match_inv in Hm. destruct Hm as ([m' l1] & Hin & Hk).
  destruct (literal "-" l1) as [l2 |] eqn:Hdash; [| discriminate].
  apply literal_inv in Hdash. subst l1.
  apply first_match_inv in Hk. destruct Hk as ([d' l3] & Hind & Hk).
  inversion Hk; subst m' d' l3.
  apply match_m_inv in Hin. destruct Hin as (_ & ms & Hms & ->).
  apply match_d_inv in Hind. destruct Hind as (_ & ds & Hds & ->).
  exists ms, ds. auto.
Qed.

Lemma Some_pair_inj {A B} (a c : A) (b d : B) :
  Some (a, b) = Some (c, d) -> a = c /\ b = d.
Proof. intros H. now inversion H. Qed.

Lemma match_Y_inv (l : list ascii) y rest :
  match_Y l = Some (y, rest) -> l = four_digits y ++ rest.
Proof.
  unfold match_Y. destruct l as [| a [| b [| c [| d l]]]]; try discriminate.
  destruct (digit_of a) as [x1 |] eqn:Ha; [| discriminate].
  destruct (digit_of b) as [x2 |] eqn:Hb; [| discriminate].
  destruct (digit_of c) as [x3 |] eqn:Hc; [| discriminate].
  destruct (digit_of d) as [x4 |] eqn:Hd; [| discriminate].
  intros Hy. apply Some_pair_inj in Hy. destruct Hy as [<- <-].
  apply digit_of_inv in Ha, Hb, Hc, Hd.
  destruct Ha as [H1 ->], Hb as [H2 ->], Hc as [H3 ->], Hd as [H4 ->].
  unfold four_digits. cbn [app].
  set (y := 1000 * x1 + 100 * x2 + 10 * x3 + x4).
  assert (y / 1000 = x1) as -> by (subst y; Z.div_mod_to_equations; lia).
  assert (y / 100 mod 10 = x2) as ->
    by (subst y; Z.div_mod_to_equations; lia).
  assert (y / 10 mod 10 = x3) as ->
    by (subst y; Z.div_mod_to_equations; lia).
  assert (y mod 10 = x4) as -> by (subst y; Z.div_mod_to_equations; lia).
  reflexivity.
Qed.

Lemma match_Y_four_digits (y : Z) (rest : list ascii) :
  0 <= y <= 9999 -> match_Y (four_digits y ++ rest) = Some (y, rest).
Proof.
  intros Hy. unfold four_digits, match_Y. cbn [app].
  rewrite !digit_of_char by (Z.div_mod_to_equations; lia).
  do 2 f_equal. Z.div_mod_to_equations. lia.
Qed.

Lemma spellings_read_back_true : spellings_read_back = true.
Proof. vm_compute. reflexivity. Qed.

Lemma match_month_day_spelled (m d : Z) (ms ds : list ascii) :
  1 <= m <= 12 -> 1 <= d <= 31 ->
  In ms (month_spellings m) -> In ds (day_spellings d) ->
  match_month_day (ms ++ "-"%char :: ds) = Some (m, d, []).
Proof.
  intros Hm Hd Hms Hds.
  pose proof spellings_read_back_true as Hall.
  unfold spellings_read_back in Hall.
  assert (Hm' : In m (range 1 12)) by (apply in_ordinals_from; lia).
  assert (Hd' : In d (range 1 31)) by (apply in_ordinals_from; lia).
  pose proof (proj1 (forallb_forall _ _) Hall m Hm') as H1. cbv beta in H1.
  pose proof (proj1 (forallb_forall _ _) H1 d Hd') as H2. cbv beta in H2.
  pose proof (proj1 (forallb_forall _ _) H2 ms Hms) as H3. cbv beta in H3.
  pose proof (proj1 (forallb_forall _ _) H3 ds Hds) as H4. cbv beta in H4.
  clear Hall H1 H2 H3.
  destruct (match_month_day (ms ++ "-"%char :: ds))
    as [[[m' d'] [| c rest]] |]; try discriminate.
  apply andb_true_iff in H4. rewrite !Z.eqb_eq in H4.
  destruct H4 as [-> ->]. reflexivity.
Qed.

(** Whatever [strptime] accepts is a valid date, written in one of the
    accepted ways. *)
Lemma strptime_written (s : string) (dt : datetime) :
  strptime s = Ok dt -> written_as s dt.
Proof.
  unfold strptime, regex_match.
  destruct (match_Y (list_ascii_of_string s)) as [[y l1] |] eqn:HY;
    [| discriminate].
  destruct (literal "-" l1) as [l2 |] eqn:Hdash; [| discriminate].
  destruct (match_month_day l2) as [[[m d] rest] |] eqn:Hmd; [| discriminate].
  destruct rest; [| discriminate].
  destruct (check_date_fields y m d); [| discriminate].
  intros Hok. inversion Hok; subst dt.
  apply match_Y_inv in HY. apply literal_inv in Hdash. subst l1.
  apply match_month_day_inv in Hmd. destruct Hmd as (ms & ds & Hms & Hds & ->).
  exists ms, ds. cbn [year month day]. rewrite app_nil_r in HY. auto.
Qed.

(** Every accepted way of writing a valid date is read back as it. *)
Lemma written_strptime (s : string) (dt : datetime) :
  valid dt = true -> written_as s dt -> strptime s = Ok dt.
Proof.
  intros Hv (ms & ds & Hms & Hds & Hs).
  pose proof (valid_fields dt Hv) as (Hy & Hm & Hd).
  pose proof (days_in_month_bounds (year dt) (month dt) Hm) as Hdim.
  unfold strptime, regex_match. rewrite Hs.
  rewrite match_Y_four_digits by lia. cbn [literal].
  rewrite Ascii.eqb_refl.
  rewrite (match_month_day_spelled (month dt) (day dt)) by (assumption || lia).
  unfold valid in Hv. rewrite Hv. now destruct dt.
Qed.

Lemma calendar_date_iff (s : string) :
  calendar_date s <-> exists dt, strptime s = Ok dt.
Proof.
  split.
  - intros (dt & Hv & Hw). exists dt. now apply written_strptime.
  - intros (dt & Hok). exists dt. split.
    + now apply (strptime_valid s).
    + now apply strptime_written.
Qed.

Lemma not_calendar_date (s : string) :
  ~ calendar_date s <-> strptime s = Raise ValueError.
Proof.
  rewrite calendar_date_iff. split.
  - intros Hno. destruct (strptime s) as [dt | e] eqn:Hp.
    + exfalso. apply Hno. now exists dt.
    + now rewrite (strptime_raises s e Hp).
  - intros Hr (dt & Hok). congruence.
Qed.

Lemma true_div_exact (a b : Z) :
  b <> 0 -> (true_div a b * inject_Z b == inject_Z a)%Q.
Proof.
  intros Hb. unfold true_div. rewrite Qred_correct. field.
  intros Hq. apply Hb.
  unfold Qeq in Hq. cbn in Hq. lia.
Qed.

(** The ordinals of the valid dates. *)
Lemma toordinal_bounds (dt : datetime) :
  valid dt = true -> 1 <= toordinal dt <= 3652059.
Proof.
  intros Hv. pose proof (toordinal_in_year dt Hv) as Hin.
  apply valid_fields in Hv. destruct Hv as (Hy & _).
  pose proof (days_before_year_mono 1 (year dt) ltac:(lia)) as Hlo.
  pose proof (days_before_year_mono (year dt + 1) 10000 ltac:(lia)) as Hhi.
  change (days_before_year 1) with 0 in Hlo.
  change (days_before_year 10000) with 3652059 in Hhi. lia.
Qed.

Lemma ordinals_from_length (n : nat) :
  forall a, List.length (ordinals_from a n) = n.
Proof. induction n as [| n IH]; intros a; cbn; [| rewrite IH]; auto. Qed.

Lemma weekdays_between_bounds (a b : Z) :
  0 <= weekdays_between a b <= Z.max 0 (b - a).
Proof.
  unfold weekdays_between, days_from_to, len.
  pose proof (filter_length_le is_weekday
                (ordinals_from a (Z.to_nat (b - a)))) as Hle.
  rewrite ordinals_from_length in Hle. lia.
Qed.

Lemma pow2_1023_large : 3652059 <= 2 ^ 1023.
Proof.
  transitivity (2 ^ 22); [vm_compute; discriminate |].
  apply Z.pow_le_mono_r; lia.
Qed.

(** The calendar weeks never overflow. *)
Lemma total_weeks_fit (ds de : datetime) :
  valid ds = true -> valid de = true ->
  overflows (days_between ds de) 7 = false.
Proof.
  intros Hs He. apply overflows_small; [lia |].
  pose proof (toordinal_bounds ds Hs). pose proof (toordinal_bounds de He).
  pose proof pow2_1023_large. unfold days_between.
  remember (2 ^ 1023) as A. lia.
Qed.

(** Nor do the working weeks, unless the PTO days are huge. *)
Lemma working_weeks_fit (ds de : datetime) (pto : Z) :
  valid ds = true -> valid de = true -> Z.abs pto <= 2 ^ 1023 ->
  overflows (weekdays_between (toordinal ds) (toordinal de) - pto) 5 = false.
Proof.
  intros Hs He Hpto. apply overflows_small; [lia |].
  pose proof (toordinal_bounds ds Hs). pose proof (toordinal_bounds de He).
  pose proof (weekdays_between_bounds (toordinal ds) (toordinal de)).
  pose proof pow2_1023_large.
  remember (2 ^ 1023) as A. lia.
Qed.

(** What [calculate_working_weeks] does with two dates that parse. *)
Lemma calculate_working_weeks_parsed (s e : string) (pto : Z)
    (ds de : datetime) :
  strptime s = Ok ds -> strptime e = Ok de ->
  calculate_working_weeks s e pto =
  if overflows (weekdays_between (toordinal ds) (toordinal de) - pto) 5
  then Some (Raise OverflowError)
  else Some (Ok (days_between ds de,
                 nearest_double (days_between ds de) 7,
                 weekdays_between (toordinal ds) (toordinal de) - pto,
                 nearest_double
                   (weekdays_between (toordinal ds) (toordinal de) - pto)
                   5)).
Proof.
  intros Hs He.
  pose proof (strptime_valid _ _ Hs) as Hvs.
  pose proof (strptime_valid _ _ He) as Hve.
  unfold calculate_working_weeks. rewrite Hs, He.
  unfold truediv. rewrite (total_weeks_fit ds de Hvs Hve).
  rewrite (count_weekdays_spec ds de Hvs Hve).
  fold (weekdays_between (toordinal ds) (toordinal de)).
  destruct (overflows _ 5); reflexivity.
Qed.

(** With PTO days that are not huge, a result. *)
Lemma calculate_working_weeks_returns (s e : string) (pto : Z)
    (ds de : datetime) :
  strptime s = Ok ds -> strptime e = Ok de -> Z.abs pto <= 2 ^ 1023 ->
  calculate_working_weeks s e pto =
  Some (Ok (days_between ds de,
            nearest_double (days_between ds de) 7,
            weekdays_between (toordinal ds) (toordinal de) - pto,
            nearest_double
              (weekdays_between (toordinal ds) (toordinal de) - pto) 5)).
Proof.
  intros Hs He Hpto.
  rewrite (calculate_working_weeks_parsed s e pto ds de Hs He).
  rewrite working_weeks_fit;
    [reflexivity | eapply strptime_valid; eassumption ..| exact Hpto].
Qed.

(** C5: from 2025-03-03 to 2025-03-10 with no PTO there are 5 weekdays,
    5 working days and 1.0 working weeks; and for any two dates the scan
    counts, among the days from the start up to but not including the
    end, those whose weekday index is Monday (0) to Friday (4). *)
Theorem weekday_scan_counts_monday_to_friday :
  calculate_working_weeks "2025-03-03" "2025-03-10" 0
    = Some (Ok (7, 1%Q, 5, 1%Q)) /\
  count_weekdays {| year := 2025; month := 3; day := 3 |}
                 {| year := 2025; month := 3; day := 10 |} = Some (Ok 5) /\
  forall start end_ : datetime,
    valid start = true -> valid end_ = true ->
    count_weekdays start end_ =
      Some (Ok (len (filter is_weekday
                       (days_from_to (toordinal start) (toordinal end_))))) /\
    (forall o, In o (days_from_to (toordinal start) (toordinal end_)) <->
               toordinal start <= o < toordinal end_) /\
    (forall o, is_weekday o = true <-> 0 <= (o + 6) mod 7 <= 4) /\
    (forall dt, weekday dt = (toordinal dt + 6) mod 7).
Proof.
  split; [vm_compute; reflexivity |]. split; [vm_compute; reflexivity |].
  intros start end_ Hs He. split; [| split; [| split]].
  - apply count_weekdays_spec; assumption.
  - intros o. apply in_days_from_to.
  - intros o. unfold is_weekday, weekday_of_ordinal.
    rewrite andb_true_iff, !Z.leb_le. reflexivity.
  - reflexivity.
Qed.

Lemma weekday_scan_counts_monday_to_friday_witness :
  let start := {| year := 2025; month := 2; day := 28 |} in
  let end_ := {| year := 2026; month := 2; day := 2 |} in
  valid start = true /\ valid end_ = true /\
  count_weekdays start end_ =
    Some (Ok (len (filter is_weekday
                     (days_from_to (toordinal start) (toordinal end_))))).
Proof.
  intros start end_.
  assert (Hs : valid start = true) by (vm_compute; reflexivity).
  assert (He : valid end_ = true) by (vm_compute; reflexivity).
  split; [exact Hs |]. split; [exact He |].
  exact (proj1 (proj2 (proj2 weekday_scan_counts_monday_to_friday)
                  start end_ Hs He)).
Defined.

(** What Python's [/] makes of the working days: the double nearest to
    the fifth of them. *)
Lemma working_weeks_rounded (wd : Z) :
  (wd < 0 -> (nearest_double wd 5 < 0)%Q) /\
  (Qabs (nearest_double wd 5 * 5 - inject_Z wd) * inject_Z (2 ^ 53)
   <= Qabs (inject_Z wd))%Q /\
  (forall k, wd = 5 * k -> Z.abs k < 2 ^ 53 ->
             nearest_double wd 5 = inject_Z k).
Proof.
  assert (Hexact : forall k, wd = 5 * k -> Z.abs k < 2 ^ 53 ->
                             nearest_double wd 5 = inject_Z k).
  { intros k -> Hk. rewrite Z.mul_comm.
    apply nearest_double_exact; [lia | exact Hk]. }
  destruct (Z.eq_dec wd 0) as [-> | Hne].
  - split; [lia |]. split; [| exact Hexact].
    rewrite (Hexact 0); [| reflexivity | vm_compute; reflexivity].
    vm_compute. discriminate.
  - assert (Hnormal : 5 <= Z.abs wd * 2 ^ 1022).
    { assert (H : 5 <= 2 ^ 1022).
      { transitivity (2 ^ 3); [vm_compute; discriminate |].
        apply Z.pow_le_mono_r; lia. }
      remember (2 ^ 1022) as A. nia. }
    split; [| split; [| exact Hexact]].
    + apply (nearest_double_sign wd 5); [lia | exact Hnormal].
    + apply (nearest_double_error wd 5); [lia | exact Hnormal].
Qed.

(** C6, as the code has it: for any two dates that parse, the working
    days are the weekday count minus the PTO days, unclamped and so
    negative when the PTO days exceed the weekday count.  The working
    weeks are their fifth as a float: the call raises [OverflowError]
    when the working days are so many that the fifth is beyond the
    doubles, and otherwise returns the double nearest to the fifth,
    which is negative when the working days are, within a relative
    error of [2^-53], and the fifth itself when that is an integer below
    [2^53] in size. *)
Theorem working_days_not_clamped (s e : string) (pto : Z)
    (ds de : datetime) :
  strptime s = Ok ds -> strptime e = Ok de ->
  exists weekdays,
    count_weekdays ds de = Some (Ok weekdays) /\
    weekdays =
      len (filter is_weekday (days_from_to (toordinal ds) (toordinal de))) /\
    (5 * (2 ^ 1024 - 2 ^ 970) <= Z.abs (weekdays - pto) ->
     calculate_working_weeks s e pto = Some (Raise OverflowError)) /\
    (Z.abs (weekdays - pto) < 5 * (2 ^ 1024 - 2 ^ 970) ->
     exists total_days total_weeks working_days working_weeks,
       calculate_working_weeks s e pto
         = Some (Ok (total_days, total_weeks, working_days, working_weeks))
       /\
       working_days = weekdays - pto /\
       (weekdays < pto -> working_days < 0 /\ (working_weeks < 0)%Q) /\
       (Qabs (working_weeks * 5 - inject_Z working_days) * inject_Z (2 ^ 53)
        <= Qabs (inject_Z working_days))%Q /\
       (forall k, working_days = 5 * k -> Z.abs k < 2 ^ 53 ->
                  working_weeks = inject_Z k)).
Proof.
  intros Hs He.
  rewrite (calculate_working_weeks_parsed s e pto ds de Hs He).
  rewrite count_weekdays_spec by (eapply strptime_valid; eassumption).
  fold (weekdays_between (toordinal ds) (toordinal de)).
  exists (weekdays_between (toordinal ds) (toordinal de)).
  split; [reflexivity |]. split; [reflexivity |]. split.
  - intros Hbig. apply overflows_iff in Hbig. now rewrite Hbig.
  - intros Hfit. apply overflows_not in Hfit. rewrite Hfit.
    destruct (working_weeks_rounded
                (weekdays_between (toordinal ds) (toordinal de) - pto))
      as (Hsign & Herr & Hexact).
    do 4 eexists. split; [reflexivity |]. split; [reflexivity |].
    split; [| split; [exact Herr | exact Hexact]].
    intros Hlt. split; [lia | apply Hsign; lia].
Qed.

Lemma working_days_not_clamped_witness :
  exists total_days total_weeks working_weeks,
    calculate_working_weeks "2025-03-03" "2025-03-10" 7
      = Some (Ok (total_days, total_weeks, -2, working_weeks)) /\
    (working_weeks < 0)%Q.
Proof.
  destruct (working_days_not_clamped "2025-03-03" "2025-03-10" 7
              {| year := 2025; month := 3; day := 3 |}
              {| year := 2025; month := 3; day := 10 |})
    as (w & _ & Hw & _ & Hfit);
    [vm_compute; reflexivity | vm_compute; reflexivity |].
  assert (Hw' : w = 5) by (rewrite Hw; vm_compute; reflexivity).
  clear Hw. subst w.
  assert (Hsmall : Z.abs (5 - 7) < 5 * (2 ^ 1024 - 2 ^ 970))
    by (vm_compute; reflexivity).
  destruct (Hfit Hsmall) as (td & tw & wd & ww & Hrun & Hwd & Hneg & _).
  change (5 - 7) with (-2) in Hwd. subst wd.
  exists td, tw, ww. split; [exact Hrun |]. apply Hneg. lia.
Defined.

(** C6, as the specification has it, fails: for a valid range the call
    returns nothing when the PTO days are huge -- the division by 5
    raises [OverflowError] -- and the working weeks of one working day
    are the double nearest to a fifth, five times which is not 1. *)
Lemma working_weeks_overflow_and_round :
  (exists ds de,
     strptime "2025-03-03" = Ok ds /\ strptime "2025-03-10" = Ok de /\
     lt ds de = true) /\
  calculate_working_weeks "2025-03-03" "2025-03-10" (- (5 * 2 ^ 1024))
    = Some (Raise OverflowError) /\
  (exists working_weeks,
     calculate_working_weeks "2025-03-03" "2025-03-10" 4
       = Some (Ok (7, 1%Q, 1, working_weeks)) /\
     ~ (working_weeks * 5 == 1)%Q).
Proof.
  split; [| split].
  - do 2 eexists. repeat split; vm_compute; reflexivity.
  - vm_compute. reflexivity.
  - eexists. split; [vm_compute; reflexivity |].
    intros Heq. vm_compute in Heq. discriminate Heq.
Qed.




(** *** Further properties of the calculator *)

Lemma is_weekday_period (o q : Z) : is_weekday (o + 7 * q) = is_weekday o.
Proof.
  unfold is_weekday, weekday_of_ordinal.
  replace (o + 7 * q + 6) with (o + 6 + q * 7) by lia.
  now rewrite Z_mod_plus_full.
Qed.

Lemma weekdays_between_nat (n : nat) :
  forall a, weekdays_between a (a + Z.of_nat n) =
            len (filter is_weekday (ordinals_from a n)).
Proof.
  intros a. unfold weekdays_between, days_from_to.
  now replace (Z.to_nat (a + Z.of_nat n - a)) with n by lia.
Qed.

Lemma weekdays_between_period (n : nat) :
  forall a q, len (filter is_weekday (ordinals_from (a + 7 * q) n)) =
              len (filter is_weekday (ordinals_from a n)).
Proof.
  induction n as [| n IH]; intros a q; cbn [ordinals_from filter];
    [reflexivity |].
  rewrite is_weekday_period.
  replace (a + 7 * q + 1) with (a + 1 + 7 * q) by lia.
  unfold len in *. destruct (is_weekday a); cbn [List.length];
    specialize (IH (a + 1) q); lia.
Qed.

(** Any seven days in a row hold five weekdays. *)
Lemma weekdays_between_week (a : Z) : weekdays_between a (a + 7) = 5.
Proof.
  change 7 with (Z.of_nat 7) at 1. rewrite weekdays_between_nat.
  rewrite (Z.div_mod a 7) by lia.
  replace (7 * (a / 7) + a mod 7) with (a mod 7 + 7 * (a / 7)) by lia.
  rewrite weekdays_between_period.
  pose proof (Z.mod_pos_bound a 7 ltac:(lia)) as Hr.
  generalize dependent (a mod 7). intros r Hr.
  assert (Hin : In r (range 0 7)) by (apply in_ordinals_from; lia).
  vm_compute in Hin.
  repeat (destruct Hin as [<- | Hin]; [reflexivity |]). contradiction.
Qed.

Lemma weekdays_between_split_nat (n : nat) :
  forall a c,
    a + Z.of_nat n <= c ->
    weekdays_between a c =
    weekdays_between a (a + Z.of_nat n) + weekdays_between (a + Z.of_nat n) c.
Proof.
  induction n as [| n IH]; intros a c Hle.
  - replace (a + Z.of_nat 0) with a by lia.
    rewrite (weekdays_between_empty a a) by lia. lia.
  - rewrite (weekdays_between_step a c) by lia.
    rewrite (weekdays_between_step a (a + Z.of_nat (S n))) by lia.
    rewrite (IH (a + 1) c) by lia.
    replace (a + 1 + Z.of_nat n) with (a + Z.of_nat (S n)) by lia. lia.
Qed.

Lemma weekdays_between_split (a b c : Z) :
  a <= b -> b <= c ->
  weekdays_between a c = weekdays_between a b + weekdays_between b c.
Proof.
  intros Hab Hbc.
  pose proof (weekdays_between_split_nat (Z.to_nat (b - a)) a c) as H.
  replace (a + Z.of_nat (Z.to_nat (b - a))) with b in H by lia.
  apply H. lia.
Qed.

Lemma weekdays_between_weeks (k : nat) :
  forall a, weekdays_between a (a + 7 * Z.of_nat k) = 5 * Z.of_nat k.
Proof.
  induction k as [| k IH]; intros a.
  - rewrite weekdays_between_empty by lia. lia.
  - rewrite (weekdays_between_split a (a + 7)) by lia.
    rewrite weekdays_between_week.
    replace (a + 7 * Z.of_nat (S k)) with (a + 7 + 7 * Z.of_nat k) by lia.
    rewrite IH. lia.
Qed.

(** A period of whole weeks has five weekdays a week, on whatever day
    of the week it starts: when the end is [7 * k] days after the start
    and the PTO days are not huge, the call returns exactly [k] calendar
    weeks and [5 * k] working days less the PTO days; with whole weeks
    of PTO, [5 * p] days, the working weeks are exactly [k - p]. *)
Theorem whole_weeks_have_five_weekdays (s e : string) (pto k : Z)
    (ds de : datetime) :
  strptime s = Ok ds -> strptime e = Ok de ->
  0 <= k -> days_between ds de = 7 * k -> Z.abs pto <= 2 ^ 1023 ->
  exists working_weeks,
    calculate_working_weeks s e pto =
      Some (Ok (7 * k, inject_Z k, 5 * k - pto, working_weeks)) /\
    (forall p, pto = 5 * p -> Z.abs (k - p) < 2 ^ 53 ->
               working_weeks = inject_Z (k - p)).
Proof.
  intros Hs He Hk Hdays Hpto.
  pose proof (toordinal_bounds ds (strptime_valid _ _ Hs)) as Hbs.
  pose proof (toordinal_bounds de (strptime_valid _ _ He)) as Hbe.
  rewrite (calculate_working_weeks_returns s e pto ds de Hs He Hpto), Hdays.
  unfold days_between in Hdays.
  replace (toordinal de) with (toordinal ds + 7 * Z.of_nat (Z.to_nat k))
    by lia.
  rewrite weekdays_between_weeks.
  replace (Z.of_nat (Z.to_nat k)) with k by lia.
  rewrite (Z.mul_comm 7 k), nearest_double_exact, (Z.mul_comm k 7);
    [| lia | change (2 ^ 53) with 9007199254740992; lia].
  eexists. split; [reflexivity |].
  intros p -> Hp. replace (5 * k - 5 * p) with ((k - p) * 5) by lia.
  apply nearest_double_exact; [lia | exact Hp].
Qed.

Lemma whole_weeks_have_five_weekdays_witness :
  exists working_weeks,
    calculate_working_weeks "2025-03-05" "2025-03-19" 5 =
      Some (Ok (14, 2%Q, 5, working_weeks)) /\
    working_weeks = 1%Q.
Proof.
  destruct (whole_weeks_have_five_weekdays "2025-03-05" "2025-03-19" 5 2
              {| year := 2025; month := 3; day := 5 |}
              {| year := 2025; month := 3; day := 19 |})
    as (ww & Hrun & Hww);
    [vm_compute; reflexivity | vm_compute; reflexivity | lia
    | vm_compute; reflexivity | vm_compute; discriminate |].
  exists ww. split; [exact Hrun |].
  apply (Hww 1); [reflexivity | vm_compute; reflexivity].
Defined.

Lemma lt_iff_toordinal (a b : datetime) :
  valid a = true -> valid b = true ->
  (lt a b = true <-> toordinal a < toordinal b).
Proof.
  intros Ha Hb. split; [now apply lt_toordinal |].
  intros Hlt. destruct (lt a b) eqn:Hab; [reflexivity |].
  pose proof (not_lt_toordinal a b Ha Hb Hab). lia.
Qed.

Lemma toordinal_inj (a b : datetime) :
  valid a = true -> valid b = true -> toordinal a = toordinal b -> a = b.
Proof.
  intros Ha Hb Heq. apply lt_total.
  - destruct (lt a b) eqn:Hab; [| reflexivity].
    pose proof (lt_toordinal a b Ha Hb Hab). lia.
  - destruct (lt b a) eqn:Hba; [| reflexivity].
    pose proof (lt_toordinal b a Hb Ha Hba). lia.
Qed.

(** For PTO days that are not huge, the total of days is positive,
    zero or negative as the end date is after, equal to or before the
    start date, and the weekday count (working days plus PTO days) lies
    between zero and the days of the period. *)
Theorem total_days_follow_the_dates (s e : string) (pto : Z)
    (ds de : datetime) :
  strptime s = Ok ds -> strptime e = Ok de -> Z.abs pto <= 2 ^ 1023 ->
  exists total_days total_weeks working_days working_weeks,
    calculate_working_weeks s e pto =
      Some (Ok (total_days, total_weeks, working_days, working_weeks)) /\
    (0 < total_days <-> lt ds de = true) /\
    (total_days < 0 <-> lt de ds = true) /\
    (total_days = 0 <-> ds = de) /\
    0 <= working_days + pto <= Z.max 0 total_days.
Proof.
  intros Hs He Hpto.
  pose proof (strptime_valid _ _ Hs) as Hvs.
  pose proof (strptime_valid _ _ He) as Hve.
  rewrite (calculate_working_weeks_returns s e pto ds de Hs He Hpto).
  do 4 eexists. split; [reflexivity |]. unfold days_between.
  rewrite (lt_iff_toordinal ds de Hvs Hve), (lt_iff_toordinal de ds Hve Hvs).
  split; [lia |]. split; [lia |]. split.
  - split.
    + intros Hz. apply toordinal_inj; [assumption | assumption | lia].
    + intros ->. lia.
  - pose proof (weekdays_between_bounds (toordinal ds) (toordinal de)). lia.
Qed.

Lemma total_days_follow_the_dates_witness :
  exists total_days total_weeks working_days working_weeks,
    calculate_working_weeks "2025-02-28" "2026-02-02" 3 =
      Some (Ok (total_days, total_weeks, working_days, working_weeks)) /\
    0 < total_days /\ 0 <= working_days + 3 <= Z.max 0 total_days.
Proof.
  destruct (total_days_follow_the_dates "2025-02-28" "2026-02-02" 3
              {| year := 2025; month := 2; day := 28 |}
              {| year := 2026; month := 2; day := 2 |})
    as (td & tw & wd & ww & Hrun & Hpos & _ & _ & Hbounds);
    [vm_compute; reflexivity | vm_compute; reflexivity
    | vm_compute; discriminate |].
  exists td, tw, wd, ww. split; [exact Hrun |]. split; [| exact Hbounds].
  apply Hpos. vm_compute. reflexivity.
Defined.

(** Periods add up: for three dates in order and PTO days that are not
    huge, the days and the weekdays from the first to the third are
    those of the two periods together, so the working days with the PTO
    days of both are the sum of the working days of each. *)
Theorem periods_add_up (sa sb sc : string) (p q : Z)
    (da db dc : datetime) :
  strptime sa = Ok da -> strptime sb = Ok db -> strptime sc = Ok dc ->
  lt db da = false -> lt dc db = false ->
  Z.abs p <= 2 ^ 1022 -> Z.abs q <= 2 ^ 1022 ->
  exists d1 w1 k1 v1 d2 w2 k2 v2 w v,
    calculate_working_weeks sa sb p = Some (Ok (d1, w1, k1, v1)) /\
    calculate_working_weeks sb sc q = Some (Ok (d2, w2, k2, v2)) /\
    calculate_working_weeks sa sc (p + q) =
      Some (Ok (d1 + d2, w, k1 + k2, v)).
Proof.
  intros Ha Hb Hc Hab Hbc Hp Hq.
  pose proof (strptime_valid _ _ Ha) as Hva.
  pose proof (strptime_valid _ _ Hb) as Hvb.
  pose proof (strptime_valid _ _ Hc) as Hvc.
  pose proof (not_lt_toordinal db da Hvb Hva Hab) as Hle1.
  pose proof (not_lt_toordinal dc db Hvc Hvb Hbc) as Hle2.
  assert (H2 : 2 ^ 1023 = 2 * 2 ^ 1022) by (now rewrite <- Z.pow_succ_r).
  assert (Hp' : Z.abs p <= 2 ^ 1023) by lia.
  assert (Hq' : Z.abs q <= 2 ^ 1023) by lia.
  assert (Hpq : Z.abs (p + q) <= 2 ^ 1023) by lia.
  rewrite (calculate_working_weeks_returns sa sb p da db Ha Hb Hp').
  rewrite (calculate_working_weeks_returns sb sc q db dc Hb Hc Hq').
  rewrite (calculate_working_weeks_returns sa sc (p + q) da dc Ha Hc Hpq).
  rewrite (weekdays_between_split (toordinal da) (toordinal db)
             (toordinal dc) Hle1 Hle2).
  replace (days_between da dc)
    with (days_between da db + days_between db dc)
    by (unfold days_between; lia).
  replace (weekdays_between (toordinal da) (toordinal db) +
           weekdays_between (toordinal db) (toordinal dc) - (p + q))
    with ((weekdays_between (toordinal da) (toordinal db) - p) +
          (weekdays_between (toordinal db) (toordinal dc) - q)) by lia.
  do 10 eexists. split; [reflexivity |]. split; reflexivity.
Qed.

Lemma periods_add_up_witness :
  exists w1 v1 w2 v2 w v,
    calculate_working_weeks "2025-03-03" "2025-03-10" 1
      = Some (Ok (7, w1, 4, v1)) /\
    calculate_working_weeks "2025-03-10" "2025-03-14" 0
      = Some (Ok (4, w2, 4, v2)) /\
    calculate_working_weeks "2025-03-03" "2025-03-14" 1
      = Some (Ok (11, w, 8, v)).
Proof.
  destruct (periods_add_up "2025-03-03" "2025-03-10" "2025-03-14" 1 0
              {| year := 2025; month := 3; day := 3 |}
              {| year := 2025; month := 3; day := 10 |}
              {| year := 2025; month := 3; day := 14 |})
    as (d1 & w1 & k1 & v1 & d2 & w2 & k2 & v2 & w & v & H1 & H2 & H3);
    [vm_compute; reflexivity | vm_compute; reflexivity
    | vm_compute; reflexivity | vm_compute; reflexivity
    | vm_compute; reflexivity | vm_compute; discriminate
    | vm_compute; discriminate |].
  assert (E1 : exists x y, Some (Ok (d1, w1, k1, v1)) =
                           Some (Ok (7, x, 4, y)))
    by (do 2 eexists; rewrite <- H1; vm_compute; reflexivity).
  assert (E2 : exists x y, Some (Ok (d2, w2, k2, v2)) =
                           Some (Ok (4, x, 4, y)))
    by (do 2 eexists; rewrite <- H2; vm_compute; reflexivity).
  destruct E1 as (x1 & y1 & E1). destruct E2 as (x2 & y2 & E2).
  injection E1 as -> -> -> ->. injection E2 as -> -> -> ->.
  exists x1, y1, x2, y2, w, v.
  split; [exact H1 |]. split; [exact H2 | exact H3].
Defined.

End DatesFacts.

(* ================================================================= *)
(** * Properties of the aggregators *)

Module AggregatorsFacts.
Import Aggregators.

(** *** [sum_story_points] *)

(** A value that is no number makes the loop move on. *)
Lemma sum_loop_skip (issue : json) (rest : list json) (name : string)
    (v : json) (total : pyfloat) (count : Z) :
  field_value issue name v -> number_of v = None -> too_large v = false ->
  sum_loop (issue :: rest) name total count = sum_loop rest name total count.
Proof.
  intros (fields & Hf & Hv) Hn Hfit. cbn [sum_loop]. rewrite Hf. cbn [bind].
  rewrite Hv. cbn [bind].
  destruct v as [| b | z | f | s | l | d]; cbn [number_of] in Hn;
    try discriminate; cbn [float]; try reflexivity.
  - rewrite Hfit in Hn. discriminate.
  - now rewrite Hn.
Qed.

(** A number is added to the total and counted. *)
Lemma sum_loop_add (issue : json) (rest : list json) (name : string)
    (v : json) (x : pyfloat) (total : pyfloat) (count : Z) :
  field_value issue name v -> number_of v = Some x ->
  sum_loop (issue :: rest) name total count =
  sum_loop rest name (fadd total x) (count + 1).
Proof.
  intros (fields & Hf & Hv) Hn. cbn [sum_loop]. rewrite Hf. cbn [bind].
  rewrite Hv. cbn [bind].
  destruct v as [| b | z | f | s | l | d]; cbn [number_of] in Hn;
    try discriminate; cbn [float].
  - now injection Hn as <-.
  - unfold float_of_int. cbn [too_large] in Hn.
    destruct (overflows z 1); [discriminate |]. now injection Hn as <-.
  - now injection Hn as <-.
  - now rewrite Hn.
Qed.


(** The loop over issues whose values are read and fit. *)
Lemma sum_loop_prefix (name : string) (l1 values : list json) :
  Forall2 (fun issue v => field_value issue name v) l1 values ->
  Forall (fun v => too_large v = false) values ->
  forall rest total count,
    sum_loop (l1 ++ rest) name total count =
    sum_loop rest name (fold_left fadd (numbers values) total)
      (count + len (numbers values)).
Proof.
  induction 1 as [| issue v l1 values Hv Hall IH]; intros Hfit rest total
    count.
  - cbn. f_equal. unfold len. cbn. lia.
  - inversion Hfit as [| v' values' Hfv Hfvs]; subst.
    unfold numbers. cbn [flat_map app]. fold (numbers values).
    destruct (number_of v) as [x |] eqn:Hn.
    + rewrite (sum_loop_add _ _ _ v x) by assumption.
      rewrite (IH Hfvs). cbn [app fold_left]. f_equal.
      unfold len. cbn [List.length]. lia.
    + rewrite (sum_loop_skip _ _ _ v) by assumption.
      rewrite (IH Hfvs). reflexivity.
Qed.

Lemma sum_loop_values (name : string) (issues values : list json) :
  Forall2 (fun issue v => field_value issue name v) issues values ->
  Forall (fun v => too_large v = false) values ->
  forall total count,
    sum_loop issues name total count =
    Ok (fold_left fadd (numbers values) total, count + len (numbers values)).
Proof.
  intros Hall Hfit total count.
  rewrite <- (app_nil_r issues).
  now rewrite (sum_loop_prefix name issues values Hall Hfit).
Qed.





Lemma field_value_issue_with (name : string) (v : json) :
  field_value (issue_with name v) name v.
Proof.
  exists (JDict [(name, v)]). split; [reflexivity |].
  cbn [get lookup]. now rewrite String.eqb_refl.
Qed.



(** *** [Counter] *)

Lemma key_eqb_string (k : json) (n : string) :
  key_eqb k (JString n) = true <-> k = JString n.
Proof.
  destruct k as [| b | z | f | s | l | d]; cbn; try (split; discriminate).
  rewrite String.eqb_eq. split; congruence.
Qed.

Lemma total_count_incr (k : json) (c : Counter) :
  total_count (incr k c) = total_count c + 1.
Proof.
  unfold total_count.
  induction c as [| [k' n] c IH]; cbn [incr map fold_right snd].
  - lia.
  - destruct (key_eqb k' k); cbn [map fold_right snd]; lia.
Qed.

Lemma counter_update_total (l : list json) :
  forall c c', counter_update c l = Ok c' ->
               total_count c' = total_count c + len l.
Proof.
  unfold len.
  induction l as [| k l IH]; intros c c'; cbn [counter_update List.length].
  - intros [= <-]. lia.
  - destruct (hashable k); [| discriminate].
    intros Hc. rewrite (IH _ _ Hc), total_count_incr. lia.
Qed.

Lemma types_of_length (issues : list json) :
  forall types, types_of issues = Ok types -> len types = len issues.
Proof.
  unfold len.
  induction issues as [| issue issues IH]; intros types; cbn [types_of].
  - now intros [= <-].
  - destruct (type_name issue) as [t | e]; cbn [bind]; [| discriminate].
    destruct (types_of issues) as [ts | e]; cbn [bind]; [| discriminate].
    intros [= <-]. cbn [List.length]. pose proof (IH ts eq_refl). lia.
Qed.

Lemma types_of_named (issues : list json) (names : list string) :
  Forall2 named issues names -> types_of issues = Ok (map JString names).
Proof.
  induction 1 as [| issue n issues names Hn Hall IH]; cbn [types_of map].
  - reflexivity.
  - unfold named in Hn. rewrite Hn, IH. reflexivity.
Qed.

Lemma counter_update_strings (names : list string) :
  forall c,
    counter_update c (map JString names) =
    Ok (fold_left (fun c n => incr (JString n) c) names c).
Proof.
  induction names as [| n names IH]; intros c;
    cbn [map counter_update fold_left hashable]; auto.
Qed.

(** *** The counter of a list of names *)

Lemma occurrences_app (n : string) (l1 l2 : list string) :
  occurrences n (l1 ++ l2) = occurrences n l1 + occurrences n l2.
Proof.
  induction l1 as [| m l1 IH]; cbn [app occurrences]; [reflexivity |].
  rewrite IH. lia.
Qed.

Lemma occurrences_nonneg (n : string) (l : list string) :
  0 <= occurrences n l.
Proof.
  induction l as [| m l IH]; cbn [occurrences]; [lia |].
  destruct (String.eqb m n); lia.
Qed.

Lemma occurrences_absent (n : string) (l : list string) :
  ~ In n l -> occurrences n l = 0.
Proof.
  induction l as [| m l IH]; cbn [occurrences In]; [reflexivity |].
  intros Hno. destruct (String.eqb_spec m n) as [-> | Hne].
  - exfalso. apply Hno. now left.
  - rewrite IH; [reflexivity | tauto].
Qed.

Lemma occurrences_perm (n : string) (l l' : list string) :
  Permutation l l' -> occurrences n l = occurrences n l'.
Proof.
  induction 1; cbn [occurrences]; lia.
Qed.

Lemma in_first_seen (n : string) (l : list string) :
  In n (first_seen l) <-> In n l.
Proof.
  induction l as [| m l IH]; cbn [first_seen In]; [reflexivity |].
  rewrite filter_In, IH. destruct (String.eqb_spec n m) as [-> | Hne].
  - tauto.
  - split; [tauto |]. intros [-> | Hin]; [tauto |].
    right. split; [assumption |].
    destruct (String.eqb_spec n m); [contradiction | reflexivity].
Qed.

Lemma first_seen_NoDup (l : list string) : NoDup (first_seen l).
Proof.
  induction l as [| m l IH]; cbn [first_seen]; constructor.
  - rewrite filter_In. intros [_ Hm]. now rewrite String.eqb_refl in Hm.
  - now apply NoDup_filter.
Qed.

Lemma first_seen_snoc (l : list string) (n : string) :
  first_seen (l ++ [n]) =
  if existsb (String.eqb n) l then first_seen l else first_seen l ++ [n].
Proof.
  induction l as [| m l IH]; cbn [app first_seen existsb filter];
    [reflexivity |].
  rewrite IH. destruct (String.eqb_spec n m) as [-> | Hne]; cbn [orb].
  - destruct (existsb (String.eqb m) l); [reflexivity |].
    rewrite filter_app. cbn [filter]. rewrite String.eqb_refl. cbn [negb].
    now rewrite app_nil_r.
  - destruct (existsb (String.eqb n) l); [reflexivity |].
    rewrite filter_app. cbn [filter].
    destruct (String.eqb_spec n m); [contradiction |]. reflexivity.
Qed.

(** Counting one more [n] in a counter of distinct string keys. *)
Lemma incr_strings (n : string) (g : string -> Z) (l : list string) :
  NoDup l ->
  incr (JString n) (map (fun m => (JString m, g m)) l) =
  map (fun m => (JString m, g m + (if String.eqb n m then 1 else 0))) l ++
  (if existsb (String.eqb n) l then [] else [(JString n, 1)]).
Proof.
  induction 1 as [| m l Hm Hnd IH]; cbn [map incr existsb app];
    [reflexivity |].
  cbn [key_eqb]. rewrite (String.eqb_sym n m).
  destruct (String.eqb_spec m n) as [-> | Hne]; cbn [orb].
  - rewrite app_nil_r. f_equal. apply map_ext_in. intros k Hk.
    destruct (String.eqb_spec n k) as [-> | _]; [contradiction |].
    f_equal. lia.
  - rewrite IH. cbn [app]. f_equal. f_equal. lia.
Qed.

Lemma tally_snoc (names : list string) (n : string) :
  incr (JString n) (tally names) = tally (names ++ [n]).
Proof.
  unfold tally. rewrite incr_strings by apply first_seen_NoDup.
  rewrite first_seen_snoc.
  assert (Hex : existsb (String.eqb n) (first_seen names) =
                existsb (String.eqb n) names).
  { apply eq_true_iff_eq. rewrite !existsb_exists.
    split; intros (x & Hin & Hx); exists x;
      (split; [now apply in_first_seen | assumption]). }
  rewrite Hex.
  assert (Hmap : forall l,
             map (fun m => (JString m, occurrences m names +
                                        (if String.eqb n m then 1 else 0))) l
             = map (fun m => (JString m, occurrences m (names ++ [n]))) l).
  { intros l. apply map_ext. intros m. rewrite occurrences_app.
    cbn [occurrences]. do 2 f_equal. lia. }
  rewrite Hmap.
  destruct (existsb (String.eqb n) names) eqn:Hin.
  - now rewrite app_nil_r.
  - rewrite map_app. cbn [map]. do 3 f_equal.
    rewrite occurrences_app, occurrences_absent; cbn [occurrences].
    + now rewrite String.eqb_refl.
    + intros Hn. assert (Hex' : existsb (String.eqb n) names = true).
      { apply existsb_exists. exists n. split; [assumption |].
        apply String.eqb_refl. }
      congruence.
Qed.

Lemma fold_incr_tally (names seen : list string) :
  fold_left (fun c n => incr (JString n) c) names (tally seen) =
  tally (seen ++ names).
Proof.
  revert seen. induction names as [| n names IH]; intros seen;
    cbn [fold_left].
  - now rewrite app_nil_r.
  - rewrite tally_snoc, IH, <- app_assoc. reflexivity.
Qed.

Lemma count_by_type_tally (issues : list json) (names : list string) :
  Forall2 named issues names -> count_by_type issues = Ok (tally names).
Proof.
  intros Hall. unfold count_by_type.
  rewrite (types_of_named issues names Hall). cbn [bind].
  rewrite counter_update_strings.
  apply f_equal. exact (fold_incr_tally names []).
Qed.

Lemma counter_get_strings (n : string) (g : string -> Z) (l : list string) :
  counter_get (map (fun m => (JString m, g m)) l) (JString n) =
  if existsb (String.eqb n) l then g n else 0.
Proof.
  induction l as [| m l IH]; cbn [map counter_get existsb key_eqb];
    [reflexivity |].
  rewrite (String.eqb_sym n m).
  destruct (String.eqb_spec m n) as [-> | Hne]; cbn [orb]; auto.
Qed.

Lemma counter_get_tally (names : list string) (n : string) :
  counter_get (tally names) (JString n) = occurrences n names.
Proof.
  unfold tally. rewrite counter_get_strings.
  destruct (existsb (String.eqb n) (first_seen names)) eqn:Hex;
    [reflexivity |].
  symmetry. apply occurrences_absent. intros Hin.
  assert (Hex' : existsb (String.eqb n) (first_seen names) = true).
  { apply existsb_exists. exists n.
    split; [now apply in_first_seen | apply String.eqb_refl]. }
  congruence.
Qed.

(** *** [most_common] *)

Lemma insert_desc_perm (x : json * Z) (l : list (json * Z)) :
  Permutation (insert_desc x l) (x :: l).
Proof.
  induction l as [| y l IH]; cbn [insert_desc]; [reflexivity |].
  destruct (snd y <=? snd x); [reflexivity |].
  rewrite IH. apply perm_swap.
Qed.

Lemma most_common_perm (c : Counter) : Permutation (most_common c) c.
Proof.
  unfold most_common.
  induction c as [| x c IH]; cbn [fold_right]; [reflexivity |].
  rewrite insert_desc_perm. now constructor.
Qed.

Lemma insert_desc_HdRel (y x : json * Z) (l : list (json * Z)) :
  by_count_desc y x -> HdRel by_count_desc y l ->
  HdRel by_count_desc y (insert_desc x l).
Proof.
  intros Hyx Hyl. destruct l as [| z l]; cbn [insert_desc].
  - now constructor.
  - destruct (snd z <=? snd x); constructor; [assumption |].
    now inversion Hyl.
Qed.

Lemma insert_desc_sorted (x : json * Z) (l : list (json * Z)) :
  Sorted by_count_desc l -> Sorted by_count_desc (insert_desc x l).
Proof.
  induction 1 as [| y l Hs IH Hd]; cbn [insert_desc].
  - repeat constructor.
  - destruct (Z.leb_spec (snd y) (snd x)) as [Hle | Hgt].
    + constructor; [now constructor |]. now constructor.
    + constructor; [assumption |].
      apply insert_desc_HdRel; [unfold by_count_desc; lia | assumption].
Qed.

Lemma most_common_sorted (c : Counter) :
  StronglySorted by_count_desc (most_common c).
Proof.
  apply Sorted_StronglySorted.
  - intros a b d Hab Hbd. unfold by_count_desc in *. lia.
  - unfold most_common.
    induction c as [| x c IH]; cbn [fold_right]; [constructor |].
    now apply insert_desc_sorted.
Qed.

Lemma insert_desc_filter (k : Z) (x : json * Z) (l : list (json * Z)) :
  filter (with_count k) (insert_desc x l) = filter (with_count k) (x :: l).
Proof.
  induction l as [| y l IH]; cbn [insert_desc]; [reflexivity |].
  destruct (Z.leb_spec (snd y) (snd x)) as [Hle | Hgt]; [reflexivity |].
  cbn [filter] in *. rewrite IH. unfold with_count.
  destruct (Z.eqb_spec (snd y) k), (Z.eqb_spec (snd x) k);
    try reflexivity; lia.
Qed.

(** The sort is stable: entries of equal count keep their order. *)
Lemma most_common_stable (k : Z) (c : Counter) :
  filter (with_count k) (most_common c) = filter (with_count k) c.
Proof.
  unfold most_common.
  induction c as [| x c IH]; cbn [fold_right]; [reflexivity |].
  rewrite insert_desc_filter. cbn [filter]. now rewrite IH.
Qed.

Lemma named_issue_of (name : string) (others : list (string * json)) :
  named (issue_of name others) name.
Proof. reflexivity. Qed.

(** C8: [count_by_type] maps each type name to the number of issues of
    that type, whatever the order of the issues; the counter lists the
    names in the order in which they are first seen, and [most_common],
    which the report prints, sorts the entries by descending count and
    keeps entries of equal count in that order; for the types Bug, Bug,
    Story the result is Bug: 2, Story: 1 with Bug first. *)
Theorem count_by_type_counts_and_orders :
  (forall issues names,
     Forall2 named issues names ->
     exists c,
       count_by_type issues = Ok c /\
       map fst c = map JString (first_seen names) /\
       (forall n, counter_get c (JString n) = occurrences n names) /\
       (forall issues' names',
          Forall2 named issues' names' -> Permutation names names' ->
          exists c', count_by_type issues' = Ok c' /\
                     forall n, counter_get c' (JString n) =
                               counter_get c (JString n)) /\
       Permutation (most_common c) c /\
       StronglySorted by_count_desc (most_common c) /\
       (forall k, filter (with_count k) (most_common c) =
                  filter (with_count k) c)) /\
  count_by_type example_types = Ok [(JString "Bug", 2); (JString "Story", 1)] /\
  most_common [(JString "Bug", 2); (JString "Story", 1)] =
    [(JString "Bug", 2); (JString "Story", 1)].
Proof.
  split; [| split; vm_compute; reflexivity].
  intros issues names Hall. exists (tally names).
  split; [now apply count_by_type_tally |].
  split; [unfold tally; rewrite map_map; reflexivity |].
  split; [intros n; apply counter_get_tally |].
  split.
  - intros issues' names' Hall' Hperm. exists (tally names').
    split; [now apply count_by_type_tally |].
    intros n. rewrite !counter_get_tally. symmetry.
    now apply occurrences_perm.
  - split; [apply most_common_perm |].
    split; [apply most_common_sorted | intros k; apply most_common_stable].
Qed.

Lemma count_by_type_counts_and_orders_witness :
  exists c,
    count_by_type (map (fun n => issue_of n []) example_names) = Ok c /\
    map fst c = map JString ["Story"; "Bug"; "Task"; "Epic"] /\
    most_common c =
      [(JString "Bug", 3); (JString "Story", 2);
       (JString "Task", 1); (JString "Epic", 1)].
Proof.
  destruct (proj1 count_by_type_counts_and_orders
              (map (fun n => issue_of n []) example_names) example_names)
    as (c & Hc & Hkeys & _).
  - unfold example_names. cbn [map].
    repeat (constructor; [apply named_issue_of |]). constructor.
  - exists c. split; [exact Hc |]. split; [exact Hkeys |].
    assert (Hc' : Ok c = Ok [(JString "Story", 2); (JString "Bug", 3);
                             (JString "Task", 1); (JString "Epic", 1)])
      by (rewrite <- Hc; vm_compute; reflexivity).
    injection Hc' as ->. vm_compute. reflexivity.
Defined.

Lemma named_all (issues : list json) :
  Forall (fun issue => exists n, named issue n) issues ->
  exists names, Forall2 named issues names.
Proof.
  induction 1 as [| issue issues [n Hn] Hall [names IH]].
  - exists []. constructor.
  - exists (n :: names). now constructor.
Qed.

Lemma count_by_type_sum (issues : list json) (c : Counter) :
  count_by_type issues = Ok c -> total_count c = len issues.
Proof.
  unfold count_by_type.
  destruct (types_of issues) as [types | e] eqn:Ht; cbn [bind];
    [| discriminate].
  intros Hc. rewrite (counter_update_total _ _ _ Hc).
  rewrite (types_of_length _ _ Ht). reflexivity.
Qed.

(** C10: when each issue has a type name, the counts of the counter
    that [count_by_type] returns add up to the number of issues. *)
Theorem count_by_type_total (issues : list json) :
  Forall (fun issue => exists n, named issue n) issues ->
  exists c, count_by_type issues = Ok c /\ total_count c = len issues.
Proof.
  intros Hall. destruct (named_all issues Hall) as [names Hnames].
  exists (tally names).
  pose proof (count_by_type_tally issues names Hnames) as Hc.
  split; [exact Hc | now apply count_by_type_sum].
Qed.

Lemma count_by_type_total_witness :
  exists c, count_by_type example_types = Ok c /\ total_count c = 3.
Proof.
  apply (count_by_type_total example_types).
  unfold example_types.
  repeat (constructor; [eexists; apply named_issue_of |]). constructor.
Defined.

(** *** Further properties of the aggregators *)

Lemma sum_loop_raises (name : string) (issue : json) (e : exn)
    (rest : list json) :
  (fields <- getitem issue "fields" ;; get fields name) = Raise e ->
  forall total count,
    sum_loop (issue :: rest) name total count = Raise e.
Proof.
  intros Hbad total count. cbn [sum_loop].
  destruct (getitem issue "fields") as [fields | x]; cbn [bind] in *.
  - now rewrite Hbad.
  - congruence.
Qed.

(** An issue whose fields cannot be read is not passed over: after
    issues whose values are read and are no integers beyond the
    doubles, the first such issue ends [sum_story_points] with the error
    of the lookup, a [KeyError] when the issue has no "fields" entry. *)
Theorem sum_story_points_needs_fields (name : string) (issue : json)
    (e : exn) (l1 values l2 : list json) :
  Forall2 (fun i v => field_value i name v) l1 values ->
  Forall (fun v => too_large v = false) values ->
  (fields <- getitem issue "fields" ;; get fields name) = Raise e ->
  sum_story_points (l1 ++ issue :: l2) name = Raise e.
Proof.
  intros Hall Hfit Hbad. unfold sum_story_points.
  rewrite (sum_loop_prefix name l1 values Hall Hfit).
  now apply sum_loop_raises.
Qed.

Lemma sum_story_points_needs_fields_witness :
  sum_story_points
    ([issue_with default_field_name (JInt 3)] ++
     JDict [("key", JString "PROJ-1")] ::
     [issue_with default_field_name (JInt 2)])
    default_field_name = Raise KeyError.
Proof.
  apply (sum_story_points_needs_fields default_field_name _ KeyError
           _ [JInt 3]).
  - repeat (constructor; [apply field_value_issue_with |]). constructor.
  - repeat (constructor; [vm_compute; reflexivity |]). constructor.
  - reflexivity.
Defined.

Lemma numbers_length (values : list json) :
  0 <= len (numbers values) <= len values /\
  (len (numbers values) = len values <->
   Forall (fun v => number_of v <> None) values).
Proof.
  unfold len.
  induction values as [| v values [IHb IHe]]; cbn [numbers flat_map].
  - cbn. split; [lia |]. split; [constructor | reflexivity].
  - fold (numbers values). rewrite length_app. cbn [List.length].
    destruct (number_of v) as [x |] eqn:Hn; cbn [List.length].
    + split; [lia |]. split.
      * intros Heq. constructor; [congruence |]. apply IHe. lia.
      * intros Hall. inversion Hall; subst.
        apply IHe in H2. lia.
    + split; [lia |]. split; [lia |].
      intros Hall. inversion Hall; subst. congruence.
Qed.

Lemma Forall2_length_len {A B} (R : A -> B -> Prop) (l : list A)
    (l' : list B) :
  Forall2 R l l' -> len l = len l'.
Proof. intros H. unfold len. now rewrite (Forall2_length H). Qed.

(** When the values are read and none is an integer beyond the doubles,
    the count that [sum_story_points] returns lies between zero and the
    number of issues, and reaches it exactly when every issue has a
    number in the field. *)
Theorem sum_story_points_count_bounds (name : string)
    (issues values : list json) :
  Forall2 (fun i v => field_value i name v) issues values ->
  Forall (fun v => too_large v = false) values ->
  exists total count,
    sum_story_points issues name = Ok (total, count) /\
    0 <= count <= len issues /\
    (count = len issues <-> Forall (fun v => number_of v <> None) values).
Proof.
  intros Hall Hfit. unfold sum_story_points.
  rewrite (sum_loop_values name issues values Hall Hfit).
  do 2 eexists. split; [reflexivity |].
  rewrite (Forall2_length_len _ _ _ Hall).
  pose proof (numbers_length values) as [Hb He].
  split; [lia |]. rewrite <- He. lia.
Qed.

Lemma sum_story_points_count_bounds_witness :
  exists total count,
    sum_story_points example_story_points default_field_name
      = Ok (total, count) /\
    0 <= count <= 5.
Proof.
  destruct (sum_story_points_count_bounds default_field_name
              example_story_points
              [JInt 3; JString "5"; JNull; JString "bad";
               JFloat (Fin (5 # 2))])
    as (total & count & Hrun & Hb & _).
  - unfold example_story_points.
    repeat (constructor; [apply field_value_issue_with |]). constructor.
  - repeat (constructor; [vm_compute; reflexivity |]). constructor.
  - exists total, count. split; [exact Hrun | exact Hb].
Defined.

Lemma types_of_raises (issue : json) (e : exn) (l1 l2 : list json)
    (names : list string) :
  Forall2 named l1 names -> type_name issue = Raise e ->
  types_of (l1 ++ issue :: l2) = Raise e.
Proof.
  intros Hall Hbad.
  induction Hall as [| i n l1 names Hn Hall IH]; cbn [app types_of].
  - now rewrite Hbad.
  - unfold named in Hn. rewrite Hn, IH. reflexivity.
Qed.

Lemma counter_update_unhashable (types : list json) :
  existsb (fun t => negb (hashable t)) types = true ->
  forall c, counter_update c types = Raise TypeError.
Proof.
  induction types as [| t types IH]; cbn [existsb counter_update];
    [discriminate |].
  intros Hex c. destruct (hashable t); cbn [negb orb] in Hex;
    [now apply IH | reflexivity].
Qed.

(** [count_by_type] gives no counter when a type name cannot be read or
    cannot be a key: the first issue without a type name ends it with
    the error of the lookup -- [KeyError] for a missing entry -- and a
    type name that is a list or a dict with [TypeError]. *)
Theorem count_by_type_needs_names :
  (forall issue e l1 l2 names,
     Forall2 named l1 names -> type_name issue = Raise e ->
     count_by_type (l1 ++ issue :: l2) = Raise e) /\
  (forall issues types,
     types_of issues = Ok types ->
     existsb (fun t => negb (hashable t)) types = true ->
     count_by_type issues = Raise TypeError).
Proof.
  split.
  - intros issue e l1 l2 names Hall Hbad. unfold count_by_type.
    now rewrite (types_of_raises issue e l1 l2 names Hall Hbad).
  - intros issues types Ht Hex. unfold count_by_type. rewrite Ht.
    cbn [bind]. now apply counter_update_unhashable.
Qed.

Lemma count_by_type_needs_names_witness :
  count_by_type ([issue_of "Bug" []] ++ issue_without :: [issue_of "Bug" []])
    = Raise KeyError /\
  count_by_type
    [JDict [("fields",
             JDict [("issuetype", JDict [("name", JList [])])])]]
    = Raise TypeError.
Proof.
  split.
  - apply (proj1 count_by_type_needs_names issue_without KeyError
             [issue_of "Bug" []] [issue_of "Bug" []] ["Bug"]).
    + repeat (constructor; [apply named_issue_of |]). constructor.
    + reflexivity.
  - apply (proj2 count_by_type_needs_names _ [JList []]); reflexivity.
Defined.

End AggregatorsFacts.

(* ================================================================= *)
(** * Properties of the report *)

Module ReportFacts.
Import Search Dates Aggregators Report.
Import SearchFacts DatesFacts AggregatorsFacts.

Section Printing.

Variable World : Type.

Let State := Report.State World.


Lemma logged_logged (st : State) (l1 l2 : list Entry) :
  logged (logged st l1) l2 = logged st (l1 ++ l2).
Proof. unfold logged. cbn. now rewrite app_assoc. Qed.

Lemma emit_logged (lv : Level) (m : Message) (st : State) :
  emit lv m st = (inl tt, logged st [(lv, m)]).
Proof. reflexivity. Qed.

Lemma bind_emit {B} (lv : Level) (m : Message) (k : unit -> M World B)
    (st : State) :
  bind (emit lv m) k st = k tt (logged st [(lv, m)]).
Proof. reflexivity. Qed.

Lemma bind_ret {A B} (a : A) (k : A -> M World B) (st : State) :
  bind (ret a) k st = k a st.
Proof. reflexivity. Qed.

Lemma bind_halt {A B} (x : stop) (k : A -> M World B) (st : State) :
  bind (halt x) k st = (inr x, st).
Proof. reflexivity. Qed.








Lemma print_story_points_summed (config : Config) (issues : list json)
    (total : pyfloat) (count : Z) (st : State) :
  sum_story_points issues default_field_name = Ok (total, count) ->
  print_story_points config issues st =
  (inl (total, count),
   logged st
     ([(INFO, Heading "Story Points Completed"); (INFO, Box);
       (INFO, TotalPoints total); (INFO, WithPoints count (len issues))] ++
      (if count <? len issues then [(WARNING, NotAllHavePoints)] else []) ++
      [(INFO, Blank)])).
Proof.
  intros Hsum. unfold print_story_points, info, warning.
  rewrite !bind_emit, Hsum. cbn [lift]. rewrite bind_ret, !bind_emit.
  destruct (count <? len issues).
  - rewrite !bind_emit. unfold ret. now rewrite !logged_logged.
  - rewrite bind_ret, !bind_emit. unfold ret. now rewrite !logged_logged.
Qed.

(** When the story points of the issues are read and none is an integer
    beyond the doubles, [print_story_points] hands back the total and
    the count of [sum_story_points], and warns that not all tickets have
    story points exactly when some issue has no number in the field. *)
Theorem story_points_warning (config : Config) (issues values : list json)
    (st : State) :
  Forall2 (fun i v => field_value i default_field_name v) issues values ->
  Forall (fun v => too_large v = false) values ->
  exists total count lines,
    sum_story_points issues default_field_name = Ok (total, count) /\
    print_story_points config issues st =
      (inl (total, count), logged st lines) /\
    (In (WARNING, NotAllHavePoints) lines <->
     ~ Forall (fun v => number_of v <> None) values).
Proof.
  intros Hall Hfit.
  assert (Hsum : sum_story_points issues default_field_name =
                 Ok (fold_left fadd (numbers values) (Fin 0),
                     len (numbers values))).
  { unfold sum_story_points.
    now rewrite (sum_loop_values _ issues values Hall Hfit). }
  do 3 eexists. split; [exact Hsum |].
  split; [now apply print_story_points_summed |].
  rewrite (Forall2_length_len _ _ _ Hall).
  pose proof (numbers_length values) as [Hb He].
  destruct (Z.ltb_spec (len (numbers values)) (len values)) as [Hlt | Hge].
  - split; [intros _ | intros _; cbn; auto 10].
    intros Hnum. apply He in Hnum. lia.
  - split.
    + cbn. intros [H | [H | [H | [H | [H | []]]]]]; discriminate.
    + intros Hno. exfalso. apply Hno. apply He. lia.
Qed.



Lemma print_header_logged (config : Config) (st : State) :
  print_header config st =
  (inl tt,
   logged st [(INFO, Box); (INFO, Heading "Jira Activity Summary");
              (INFO, Period (start_date config) (end_date config));
              (INFO, Box); (INFO, Blank)]).
Proof.
  unfold print_header, info. rewrite !bind_emit, emit_logged.
  now rewrite !logged_logged.
Qed.

Lemma check_auth_passes (config : Config) (st : State) :
  atlassian_user config <> "" -> atlassian_token config <> "" ->
  check_auth config st = (inl tt, st).
Proof.
  intros Hu Ht. unfold check_auth.
  destruct (String.eqb_spec (atlassian_user config) ""); [contradiction |].
  destruct (String.eqb_spec (atlassian_token config) ""); [contradiction |].
  reflexivity.
Qed.

Lemma check_auth_stops (config : Config) (st : State) :
  atlassian_user config = "" \/ atlassian_token config = "" ->
  exists lines,
    check_auth config st =
      (inr (Exit 1), logged st ((ERROR, NotConfigured) :: lines)).
Proof.
  intros Hmissing. unfold check_auth.
  assert (Hc : String.eqb (atlassian_user config) "" ||
               String.eqb (atlassian_token config) "" = true).
  { apply orb_true_iff. rewrite !String.eqb_eq. exact Hmissing. }
  rewrite Hc. unfold error_, info. rewrite !bind_emit.
  unfold halt. rewrite !logged_logged. eexists. reflexivity.
Qed.

(** *** Computations that make no request *)

Lemma within_ret {A} (a : A) : within 0 (@ret World A a).
Proof.
  intros st. cbn. split; [| exact I].
  exists []. rewrite app_nil_r. split; [reflexivity | cbn; lia].
Qed.

Lemma within_emit (lv : Level) (m : Message) : within 0 (@emit World lv m).
Proof.
  intros st. cbn. split; [| exact I].
  exists []. rewrite app_nil_r. split; [reflexivity | cbn; lia].
Qed.

Lemma within_uncaught {A} (e : error) :
  within 0 (@halt World A (Uncaught e)).
Proof.
  intros st. cbn. split; [| exact I].
  exists []. rewrite app_nil_r. split; [reflexivity | cbn; lia].
Qed.

Lemma within_exit_1 {A} : within 0 (@halt World A (Exit 1)).
Proof.
  intros st. cbn. split; [| reflexivity].
  exists []. rewrite app_nil_r. split; [reflexivity | cbn; lia].
Qed.

Lemma within_lift {A} (r : Py.result A) : within 0 (@lift World A r).
Proof. destruct r; [apply within_ret | apply within_uncaught]. Qed.

Lemma within_divide (a : pyfloat) (b : Q) : within 0 (@divide World a b).
Proof.
  unfold divide. destruct (fdiv a b); [apply within_uncaught |].
  apply within_ret.
Qed.

Lemma within_bind {A B} (n m : Z) (c : M World A) (k : A -> M World B) :
  0 <= m -> within n c -> (forall a, within m (k a)) ->
  within (n + m) (bind c k).
Proof.
  intros Hm Hc Hk st. unfold bind.
  destruct (Hc st) as [(new & Hs & Hn) He].
  destruct (c st) as [[a | x] st']; cbn [fst snd] in *.
  - destruct (Hk a st') as [(new' & Hs' & Hn') He'].
    split; [| exact He'].
    exists (new ++ new'). rewrite Hs', Hs, <- app_assoc.
    split; [reflexivity |]. rewrite len_app. lia.
  - split; [| exact He].
    exists new. split; [exact Hs | lia].
Qed.

(** [c >> k] and [let* x := c in k] when [c] makes no request. *)
Lemma within_after {A B} (n : Z) (c : M World A) (k : A -> M World B) :
  0 <= n -> within 0 c -> (forall a, within n (k a)) -> within n (bind c k).
Proof. intros Hn Hc Hk. now apply (within_bind 0 n). Qed.

Lemma within_for_each {A} (l : list A) (body : A -> M World unit) :
  (forall x, within 0 (body x)) -> within 0 (for_each l body).
Proof.
  intros Hbody. induction l as [| x l IH]; cbn [for_each].
  - apply within_ret.
  - apply within_after; [lia | apply Hbody | intros _; exact IH].
Qed.

Lemma within_more {A} (n m : Z) (c : M World A) :
  n <= m -> within n c -> within m c.
Proof.
  intros Hle Hc st. destruct (Hc st) as [(new & Hs & Hn) He].
  split; [| exact He]. exists new. split; [exact Hs | lia].
Qed.

(** Steps through a computation made of the parts above. *)
Ltac quiet :=
  repeat match goal with
    | |- within _ (bind _ _) => apply within_after; [lia | | intros]
    | |- within _ (emit _ _) => apply within_emit
    | |- within _ (ret _) => apply within_ret
    | |- within _ (lift _) => apply within_lift
    | |- within _ (divide _ _) => apply within_divide
    | |- within _ (halt (Exit 1)) => apply within_exit_1
    | |- within _ (for_each _ _) => apply within_for_each; intros [? ?]
    | |- within _ (if ?c then _ else _) => destruct c
    | |- within _ (let '(_, _) := ?x in _) => destruct x
    end.

Lemma within_print_header (config : Config) :
  within 0 (@print_header World config).
Proof. unfold print_header, info. quiet. Qed.

Lemma within_check_auth (config : Config) :
  within 0 (@check_auth World config).
Proof. unfold check_auth, info, error_. quiet. Qed.

Lemma within_print_tickets (title what : string) (issues : list json) :
  within 0 (@print_tickets World title what issues).
Proof. unfold print_tickets, info. quiet. Qed.

Lemma within_print_bugs_resolved (config : Config) (issues : list json) :
  within 0 (@print_bugs_resolved World config issues).
Proof. unfold print_bugs_resolved, info. quiet. Qed.

Lemma within_print_story_points (config : Config) (issues : list json) :
  within 0 (@print_story_points World config issues).
Proof. unfold print_story_points, info, warning. quiet. Qed.

Lemma within_print_overall_statistics (config : Config)
    (created resolved bugs : list json) (total_sp : pyfloat)
    (working_weeks : Q) :
  within 0 (@print_overall_statistics World config created resolved bugs
              total_sp working_weeks).
Proof. unfold print_overall_statistics, info. quiet. Qed.

Lemma within_print_summary (config : Config) :
  within 0 (@print_summary World config).
Proof. unfold print_summary, info. quiet. Qed.

Lemma calculate_working_weeks_runs (s e : string) (pto : Z) :
  exists r, calculate_working_weeks s e pto = Some r.
Proof.
  destruct (strptime s) as [ds | x] eqn:Hs.
  - destruct (strptime e) as [de | y] eqn:He.
    + rewrite (calculate_working_weeks_parsed s e pto ds de Hs He).
      destruct (overflows _ 5); eauto.
    + unfold calculate_working_weeks. rewrite Hs, He. eauto.
  - unfold calculate_working_weeks. rewrite Hs. eauto.
Qed.

Lemma within_calculate (config : Config) :
  within 0 (@calculate World config).
Proof.
  unfold calculate.
  destruct (calculate_working_weeks_runs (start_date config)
              (end_date config) (pto_days config)) as [r ->].
  apply within_lift.
Qed.

(** *** The searches and [main] *)

Variable fetch : World -> Request -> World * Reply.

Lemma bind_continues {A B} (c : M World A) (k : A -> M World B)
    (st st' : State) (a : A) :
  c st = (inl a, st') -> bind c k st = k a st'.
Proof. intros Hc. unfold bind. now rewrite Hc. Qed.

Lemma bind_stops {A B} (c : M World A) (k : A -> M World B)
    (st st' : State) (x : stop) :
  c st = (inr x, st') -> bind c k st = (inr x, st').
Proof. intros Hc. unfold bind. now rewrite Hc. Qed.

Lemma within_search (config : Config) (jql_ : string)
    (fields_ : option (list string)) :
  within 100 (search fetch config jql_ fields_).
Proof.
  intros st. unfold search. cbv zeta.
  pose proof (jira_search_cap World fetch config jql_ fields_ 100
                (service st)) as Hcap.
  pose proof (jira_search_result World fetch config jql_ fields_ 100
                (service st)) as Hres.
  pose proof (jira_search_terminates World fetch config jql_ fields_ 100
                (service st)) as Hfuel.
  destruct (result (jira_search World fetch config jql_ fields_ 100
                      (service st))) as [l | code | e |];
    cbn [fst snd sent]; (split; [eexists; split; [reflexivity | exact Hcap] |]);
    try exact I.
  - destruct Hres as [[l Hl] | [Hx | [e Hx]]]; congruence.
  - contradiction.
Qed.

Ltac quiet_report :=
  repeat match goal with
    | |- within _ (bind (search _ _ _ _) _) => fail 1
    | |- within _ (bind _ _) => apply within_after; [lia | | intros]
    | |- within _ (emit _ _) => apply within_emit
    | |- within _ (ret _) => apply within_ret
    | |- within _ (print_header _) => apply within_print_header
    | |- within _ (check_auth _) => apply within_check_auth
    | |- within _ (calculate _) => apply within_calculate
    | |- within _ (print_tickets _ _ _) => apply within_print_tickets
    | |- within _ (print_bugs_resolved _ _) =>
      apply within_print_bugs_resolved
    | |- within _ (print_story_points _ _) =>
      apply within_print_story_points
    | |- within _ (print_overall_statistics _ _ _ _ _ _) =>
      apply within_print_overall_statistics
    | |- within _ (print_summary _) => apply within_print_summary
    | |- within _ (if ?c then _ else _) => destruct c
    | |- within _ (let '(_, _) := ?x in _) => destruct x
    end.

Lemma within_main (config : Config) : within 300 (main fetch config).
Proof.
  unfold main, info, print_tickets_created, print_tickets_resolved.
  quiet_report.
  all: change 300 with (100 + (100 + (100 + 0))).
  all: apply within_bind; [lia | apply within_search | intros created].
  all: apply within_after; [lia | apply within_print_tickets | intros _].
  all: apply within_bind; [lia | apply within_search | intros resolved].
  all: apply within_after; [lia | apply within_print_tickets | intros _].
  all: apply within_bind; [lia | apply within_search | intros bugs].
  all: quiet_report.
Qed.

(** Whatever the service answers and however [main] ends, it sends at
    most 300 requests, 100 for each of its three searches, and keeps
    those that were sent before. *)
Theorem main_is_bounded (config : Config) (st : State) :
  exists new,
    sent (snd (main fetch config st)) = sent st ++ new /\ len new <= 300.
Proof. exact (proj1 (within_main config st)). Qed.

(** Without a user or a token the run ends with exit code 1, having
    logged the error and made no request. *)
Theorem main_needs_credentials (config : Config) (w : World) :
  atlassian_user config = "" \/ atlassian_token config = "" ->
  exists st,
    script fetch config w = (Some 1, st) /\
    sent st = [] /\ service st = w /\
    In (ERROR, NotConfigured) (out st).
Proof.
  intros Hmissing. unfold script, main.
  rewrite (bind_continues _ _ _ _ _ (print_header_logged config _)).
  destruct (check_auth_stops config
              (logged {| out := []; sent := []; service := w |}
                 [(INFO, Box); (INFO, Heading "Jira Activity Summary");
                  (INFO, Period (start_date config) (end_date config));
                  (INFO, Box); (INFO, Blank)]) Hmissing) as [lines Hstop].
  rewrite (bind_stops _ _ _ _ _ Hstop).
  eexists. split; [reflexivity |]. cbn. auto 10.
Qed.

Lemma calculate_rejects (config : Config) (st : State) :
  ~ calendar_date (start_date config) \/ ~ calendar_date (end_date config) ->
  calculate config st = (inr (Uncaught (Of ValueError)), st).
Proof.
  intros Hbad. unfold calculate, calculate_working_weeks.
  destruct Hbad as [Hs | He].
  - apply not_calendar_date in Hs. now rewrite Hs.
  - apply not_calendar_date in He. rewrite He.
    destruct (strptime (start_date config)) as [ds | x] eqn:Hs;
      [reflexivity |].
    now rewrite (strptime_raises _ x Hs).
Qed.

(** With credentials but a start or end that is no spelling of a valid
    calendar date, the run ends with exit code 1 on the [ValueError] of
    the date, which is its last log record, before any request is
    made. *)
Theorem main_rejects_dates_first (config : Config) (w : World) :
  atlassian_user config <> "" -> atlassian_token config <> "" ->
  ~ calendar_date (start_date config) \/ ~ calendar_date (end_date config) ->
  exists st,
    script fetch config w = (Some 1, st) /\
    sent st = [] /\ service st = w /\
    last (out st) (INFO, Blank) = (ERROR, ErrorIs (Of ValueError)).
Proof.
  intros Hu Ht Hbad. unfold script, main.
  rewrite (bind_continues _ _ _ _ _ (print_header_logged config _)).
  rewrite (bind_continues _ _ _ _ _ (check_auth_passes config _ Hu Ht)).
  unfold info. rewrite !bind_emit.
  rewrite (bind_stops _ _ _ _ _ (calculate_rejects config _ Hbad)).
  eexists. split; [reflexivity |]. cbn [sent service out logged].
  repeat split.
Qed.

Lemma calculate_parsed (config : Config) (st : State)
    (ds de : datetime) :
  strptime (start_date config) = Ok ds ->
  strptime (end_date config) = Ok de ->
  Z.abs (pto_days config) <= 2 ^ 1023 ->
  exists r, calculate config st = (inl r, st).
Proof.
  intros Hs He Hpto. unfold calculate.
  rewrite (calculate_working_weeks_returns _ _ (pto_days config) ds de Hs He
             Hpto).
  eexists. reflexivity.
Qed.

Lemma search_fails (config : Config) (jql_ : string)
    (fields_ : option (list string)) (st : State) :
  let rq := request_of config jql_ (default default_fields fields_) 100
              None in
  let reply := snd (fetch (service st) rq) in
  page_reply reply = None ->
  exists x st',
    search fetch config jql_ fields_ st = (inr x, st') /\
    sent st' = sent st ++ [(rq, reply)] /\
    (x = Exit 1 \/ exists e, x = Uncaught (Of e)).
Proof.
  intros rq reply Hpg. unfold search. cbv zeta.
  destruct (jira_search_first_failure World fetch config jql_ fields_ 100
              (service st) Hpg) as [Hreq Hres].
  fold rq in Hreq, Hres. fold reply in Hreq, Hres.
  rewrite Hres, Hreq.
  destruct (failure_of_cases reply) as [Hx | [e Hx]]; rewrite Hx;
    do 2 eexists; (split; [reflexivity |]); cbn [sent]; eauto.
Qed.

(** With credentials, dates that parse and PTO days that are not huge,
    when the first reply of the service is no page -- a status other
    than 200, an undecodable body, no connection -- the run ends with
    exit code 1 after that one request: the other searches are not
    made. *)
Theorem main_stops_at_failed_search (config : Config) (w : World)
    (ds de : datetime) :
  atlassian_user config <> "" -> atlassian_token config <> "" ->
  strptime (start_date config) = Ok ds ->
  strptime (end_date config) = Ok de ->
  Z.abs (pto_days config) <= 2 ^ 1023 ->
  let rq := request_of config (jql_created config) default_fields 100
              None in
  page_reply (snd (fetch w rq)) = None ->
  exists st,
    script fetch config w = (Some 1, st) /\
    sent st = [(rq, snd (fetch w rq))].
Proof.
  intros Hu Ht Hs He Hpto rq Hpg. unfold script, main.
  rewrite (bind_continues _ _ _ _ _ (print_header_logged config _)).
  rewrite (bind_continues _ _ _ _ _ (check_auth_passes config _ Hu Ht)).
  unfold info. rewrite !bind_emit.
  match goal with |- context [bind (calculate config) _ ?st] =>
    destruct (calculate_parsed config st ds de Hs He Hpto)
      as [[[[td tw] wd] ww] Hcalc]
  end.
  rewrite (bind_continues _ _ _ _ _ Hcalc). cbv beta iota.
  rewrite !bind_emit.
  assert (Hif : forall (k : unit -> M World unit) (st : State),
             exists lines,
               bind (if pto_days config >? 0
                     then emit INFO (WorkingDaysLessPto (pto_days config)
                                       wd ww)
                     else emit INFO (WorkingDays wd ww)) k st =
               k tt (logged st lines)).
  { intros k st. destruct (pto_days config >? 0); eexists;
      apply bind_emit. }
  match goal with |- context [bind (if _ then _ else _) ?k ?st] =>
    destruct (Hif k st) as [lines Hlines]
  end.
  rewrite Hlines. clear Hif Hlines. rewrite bind_emit.
  match goal with |- context [bind (search fetch config ?j None) _ ?st] =>
    destruct (search_fails config j None st Hpg)
      as (x & st' & Hsearch & Hsent & Hx)
  end.
  rewrite (bind_stops _ _ _ _ _ Hsearch).
  cbn [sent logged app] in Hsent.
  destruct Hx as [-> | [e ->]]; eexists; (split; [reflexivity |]);
    exact Hsent.
Qed.

(** *** The three searches of a run *)

Lemma silent_ret {A} (a : A) : silent (@ret World A a).
Proof. intros st. now cbn. Qed.

Lemma silent_emit (lv : Level) (m : Message) : silent (@emit World lv m).
Proof. intros st. now cbn. Qed.

Lemma silent_halt {A} (x : stop) : silent (@halt World A x).
Proof. intros st. now cbn. Qed.

Lemma silent_lift {A} (r : Py.result A) : silent (@lift World A r).
Proof. destruct r; [apply silent_ret | apply silent_halt]. Qed.

Lemma silent_divide (a : pyfloat) (b : Q) : silent (@divide World a b).
Proof.
  unfold divide. destruct (fdiv a b); [apply silent_halt | apply silent_ret].
Qed.

Lemma silent_bind {A B} (c : M World A) (k : A -> M World B) :
  silent c -> (forall a, silent (k a)) -> silent (bind c k).
Proof.
  intros Hc Hk st. unfold bind. destruct (Hc st) as [Hs Hw].
  destruct (c st) as [[a | x] st']; cbn [fst snd] in *; [| now split].
  destruct (Hk a st') as [Hs' Hw']. split; congruence.
Qed.

Lemma silent_for_each {A} (l : list A) (body : A -> M World unit) :
  (forall x, silent (body x)) -> silent (for_each l body).
Proof.
  intros Hbody. induction l as [| x l IH]; cbn [for_each].
  - apply silent_ret.
  - apply silent_bind; [apply Hbody | intros _; exact IH].
Qed.

Ltac hush :=
  repeat match goal with
    | |- silent (bind _ _) => apply silent_bind; [| intros]
    | |- silent (emit _ _) => apply silent_emit
    | |- silent (ret _) => apply silent_ret
    | |- silent (lift _) => apply silent_lift
    | |- silent (divide _ _) => apply silent_divide
    | |- silent (halt _) => apply silent_halt
    | |- silent (for_each _ _) => apply silent_for_each; intros [? ?]
    | |- silent (if ?c then _ else _) => destruct c
    | |- silent (let '(_, _) := ?x in _) => destruct x
    | |- silent (match ?x with Some _ => _ | None => _ end) => destruct x
    end.

Lemma silent_print_header (config : Config) :
  silent (@print_header World config).
Proof. unfold print_header, info. hush. Qed.

Lemma silent_check_auth (config : Config) :
  silent (@check_auth World config).
Proof. unfold check_auth, info, error_. hush. Qed.

Lemma silent_calculate (config : Config) : silent (@calculate World config).
Proof. unfold calculate. hush. Qed.

Lemma silent_print_tickets (title what : string) (issues : list json) :
  silent (@print_tickets World title what issues).
Proof. unfold print_tickets, info. hush. Qed.

Lemma silent_print_bugs_resolved (config : Config) (issues : list json) :
  silent (@print_bugs_resolved World config issues).
Proof. unfold print_bugs_resolved, info. hush. Qed.

Lemma silent_print_story_points (config : Config) (issues : list json) :
  silent (@print_story_points World config issues).
Proof. unfold print_story_points, info, warning. hush. Qed.

Lemma silent_print_overall_statistics (config : Config)
    (created resolved bugs : list json) (total_sp : pyfloat)
    (working_weeks : Q) :
  silent (@print_overall_statistics World config created resolved bugs
            total_sp working_weeks).
Proof. unfold print_overall_statistics, info. hush. Qed.

Lemma silent_print_summary (config : Config) :
  silent (@print_summary World config).
Proof. unfold print_summary, info. hush. Qed.

Lemma bind_inl {A B} (c : M World A) (k : A -> M World B)
    (st st' : State) (b : B) :
  bind c k st = (inl b, st') ->
  exists a st1, c st = (inl a, st1) /\ k a st1 = (inl b, st').
Proof.
  unfold bind. destruct (c st) as [[a | x] st1]; [| discriminate].
  intros Hk. now exists a, st1.
Qed.

Lemma silent_run {A} (c : M World A) (st st' : State) (x : A + stop) :
  silent c -> c st = (x, st') ->
  sent st' = sent st /\ service st' = service st.
Proof. intros Hc Hrun. specialize (Hc st). now rewrite Hrun in Hc. Qed.

Lemma search_returns (config : Config) (jql_ : string)
    (fields_ : option (list string)) (st st' : State) (l : list json) :
  search fetch config jql_ fields_ st = (inl l, st') ->
  result (jira_search World fetch config jql_ fields_ 100 (service st)) =
    Returned l /\
  sent st' =
    sent st ++
    requests (jira_search World fetch config jql_ fields_ 100 (service st))
  /\
  service st' =
    run_world (jira_search World fetch config jql_ fields_ 100 (service st)).
Proof.
  unfold search. cbv zeta.
  destruct (result (jira_search World fetch config jql_ fields_ 100
                      (service st))) as [l' | code | e |];
    intros Hrun; try discriminate.
  injection Hrun as -> <-. now cbn.
Qed.

Ltac silent_fact :=
  match goal with
  | |- silent (print_header _) => apply silent_print_header
  | |- silent (check_auth _) => apply silent_check_auth
  | |- silent (calculate _) => apply silent_calculate
  | |- silent (print_tickets _ _ _) => apply silent_print_tickets
  | |- silent (print_bugs_resolved _ _) => apply silent_print_bugs_resolved
  | |- silent (print_story_points _ _) => apply silent_print_story_points
  | |- silent (print_overall_statistics _ _ _ _ _ _) =>
    apply silent_print_overall_statistics
  | |- silent (print_summary _) => apply silent_print_summary
  | |- _ => hush
  end.

(** One step of a run that ends well, through a part that makes no
    request. *)
Ltac after_silent H Hsent Hserv :=
  let a := fresh "a" in
  let s := fresh "s" in
  let Hc := fresh "Hc" in
  let Hs := fresh "Hs" in
  let Hw := fresh "Hw" in
  apply bind_inl in H; destruct H as (a & s & Hc & H);
  match type of Hc with
  | ?c ?s0 = _ => apply (silent_run c s0) in Hc; [| silent_fact]
  end;
  destruct Hc as [Hs Hw]; rewrite Hsent in Hs; rewrite Hserv in Hw;
  clear Hsent Hserv; rename Hs into Hsent; rename Hw into Hserv;
  cbv beta in H;
  repeat match type of H with
         | context [match ?x with pair _ _ => _ end] => is_var x; destruct x
         end.

(** One step of a run that ends well, through a search. *)
Ltac after_search H Hsent Hserv Hres :=
  let l := fresh "l" in
  let s := fresh "s" in
  let Hc := fresh "Hc" in
  let Hs := fresh "Hs" in
  let Hw := fresh "Hw" in
  apply bind_inl in H; destruct H as (l & s & Hc & H);
  apply search_returns in Hc; destruct Hc as (Hres & Hs & Hw);
  rewrite Hserv in Hres, Hs, Hw; rewrite Hsent in Hs;
  clear Hsent Hserv; rename Hs into Hsent; rename Hw into Hserv;
  cbv beta in H.

Lemma main_runs (config : Config) (w : World) (st0 st : State) :
  sent st0 = [] -> service st0 = w ->
  main fetch config st0 = (inl tt, st) ->
  let created :=
    jira_search World fetch config (jql_created config) None 100 w in
  let resolved :=
    jira_search World fetch config (jql_resolved config)
      (Some resolved_fields) 100 (run_world created) in
  let bugs :=
    jira_search World fetch config (jql_bugs config) None 100
      (run_world resolved) in
  (exists l1 l2 l3,
     result created = Returned l1 /\ result resolved = Returned l2 /\
     result bugs = Returned l3) /\
  sent st = requests created ++ requests resolved ++ requests bugs /\
  service st = run_world bugs.
Proof.
  intros Hsent0 Hserv0 H. unfold main, info, print_tickets_created,
    print_tickets_resolved in H.
  apply bind_inl in H. destruct H as (a & s & Hc & H).
  apply (silent_run (print_header config)) in Hc; [| silent_fact].
  destruct Hc as [Hsent Hserv]. rewrite Hsent0 in Hsent.
  rewrite Hserv0 in Hserv. clear Hsent0 Hserv0. cbv beta in H.
  do 10 after_silent H Hsent Hserv.
  after_search H Hsent Hserv Hcreated.
  after_silent H Hsent Hserv.
  after_search H Hsent Hserv Hresolved.
  after_silent H Hsent Hserv.
  after_search H Hsent Hserv Hbugs.
  do 3 after_silent H Hsent Hserv.
  apply (silent_run (print_summary config)) in H; [| silent_fact].
  destruct H as [Hs Hw]. rewrite Hsent in Hs. rewrite Hserv in Hw.
  cbv zeta. split.
  - exists l, l0, l1. split; [exact Hcreated |].
    split; [exact Hresolved | exact Hbugs].
  - split; [| exact Hw].
    rewrite Hs, app_nil_l, <- app_assoc. reflexivity.
Qed.

Lemma main_runs_configured (config : Config) (st0 st : State) :
  main fetch config st0 = (inl tt, st) ->
  atlassian_user config <> "" /\ atlassian_token config <> "" /\
  calendar_date (start_date config) /\ calendar_date (end_date config).
Proof.
  intros H. unfold main in H.
  rewrite (bind_continues _ _ _ _ _ (print_header_logged config _)) in H.
  assert (Hcred : atlassian_user config <> "" /\
                  atlassian_token config <> "").
  { destruct (string_dec (atlassian_user config) "") as [Hu | Hu].
    - destruct (check_auth_stops config
                  (logged st0
                     [(INFO, Box); (INFO, Heading "Jira Activity Summary");
                      (INFO, Period (start_date config) (end_date config));
                      (INFO, Box); (INFO, Blank)]) (or_introl Hu))
        as [lines Hstop].
      rewrite (bind_stops _ _ _ _ _ Hstop) in H. discriminate.
    - destruct (string_dec (atlassian_token config) "") as [Ht | Ht];
        [| now split].
      destruct (check_auth_stops config
                  (logged st0
                     [(INFO, Box); (INFO, Heading "Jira Activity Summary");
                      (INFO, Period (start_date config) (end_date config));
                      (INFO, Box); (INFO, Blank)]) (or_intror Ht))
        as [lines Hstop].
      rewrite (bind_stops _ _ _ _ _ Hstop) in H. discriminate. }
  destruct Hcred as [Hu Ht]. split; [exact Hu |]. split; [exact Ht |].
  rewrite (bind_continues _ _ _ _ _ (check_auth_passes config _ Hu Ht)) in H.
  unfold info in H. rewrite !bind_emit in H.
  assert (Hdates : forall s, (exists dt, strptime s = Ok dt) \/
                             ~ calendar_date s).
  { intros s. destruct (strptime s) as [dt | x] eqn:Hp; [eauto |].
    right. apply not_calendar_date. rewrite Hp. f_equal.
    exact (strptime_raises s x Hp). }
  destruct (Hdates (start_date config)) as [Hs | Hs];
    [| rewrite (bind_stops _ _ _ _ _
                  (calculate_rejects config _ (or_introl Hs))) in H;
       discriminate].
  destruct (Hdates (end_date config)) as [He | He];
    [| rewrite (bind_stops _ _ _ _ _
                  (calculate_rejects config _ (or_intror He))) in H;
       discriminate].
  split; now apply calendar_date_iff.
Qed.

(** When [main] runs to its end, the credentials were set and the
    dates valid, and it has made three searches, one after the other --
    the tickets created, the tickets resolved with their five fields,
    the bugs resolved -- each of which returned its issues, and nothing
    else was asked of the service. *)
Theorem main_searches_in_order (config : Config) (w : World) (st : State) :
  main fetch config (fresh w) = (inl tt, st) ->
  let created :=
    jira_search World fetch config (jql_created config) None 100 w in
  let resolved :=
    jira_search World fetch config (jql_resolved config)
      (Some resolved_fields) 100 (run_world created) in
  let bugs :=
    jira_search World fetch config (jql_bugs config) None 100
      (run_world resolved) in
  (atlassian_user config <> "" /\ atlassian_token config <> "" /\
   calendar_date (start_date config) /\ calendar_date (end_date config)) /\
  (exists l1 l2 l3,
     result created = Returned l1 /\ result resolved = Returned l2 /\
     result bugs = Returned l3) /\
  sent st = requests created ++ requests resolved ++ requests bugs /\
  service st = run_world bugs.
Proof.
  intros H. cbv zeta. split.
  - exact (main_runs_configured config _ _ H).
  - exact (main_runs config w (fresh w) st eq_refl eq_refl H).
Qed.

End Printing.


Lemma story_points_warning_witness :
  exists total count lines,
    sum_story_points example_story_points default_field_name =
      Ok (total, count) /\
    print_story_points config0 example_story_points (fresh tt) =
      (inl (total, count), logged (fresh tt) lines) /\
    In (WARNING, NotAllHavePoints) lines.
Proof.
  destruct (story_points_warning unit config0 example_story_points
              [JInt 3; JString "5"; JNull; JString "bad";
               JFloat (Fin (5 # 2))] (fresh tt))
    as (total & count & lines & Hsum & Hrun & Hwarn).
  - unfold example_story_points.
    repeat (constructor; [apply field_value_issue_with |]). constructor.
  - repeat (constructor; [vm_compute; reflexivity |]). constructor.
  - exists total, count, lines. split; [exact Hsum |].
    split; [exact Hrun |]. apply Hwarn. intros Hall.
    rewrite Forall_forall in Hall.
    apply (Hall JNull); [cbn; auto | reflexivity].
Defined.


Lemma main_needs_credentials_witness :
  exists st,
    script scripted config_no_user script_no_token = (Some 1, st) /\
    sent st = [] /\ service st = script_no_token /\
    In (ERROR, NotConfigured) (out st).
Proof.
  apply (main_needs_credentials (list Reply) scripted config_no_user
           script_no_token).
  left. reflexivity.
Defined.

Lemma main_rejects_dates_first_witness :
  exists st,
    script scripted config_bad_date script_no_token = (Some 1, st) /\
    sent st = [] /\ service st = script_no_token /\
    last (out st) (INFO, Blank) = (ERROR, ErrorIs (Of ValueError)).
Proof.
  apply (main_rejects_dates_first (list Reply) scripted config_bad_date
           script_no_token).
  - discriminate.
  - discriminate.
  - right. apply not_calendar_date. vm_compute. reflexivity.
Defined.

Lemma main_stops_at_failed_search_witness :
  let rq := request_of config0 (jql_created config0) default_fields 100
              None in
  exists st,
    script scripted config0 script_down = (Some 1, st) /\
    sent st = [(rq, snd (scripted script_down rq))].
Proof.
  apply (main_stops_at_failed_search (list Reply) scripted config0
           script_down {| year := 2025; month := 2; day := 28 |}
           {| year := 2026; month := 2; day := 2 |}).
  - discriminate.
  - discriminate.
  - vm_compute. reflexivity.
  - vm_compute. reflexivity.
  - vm_compute. discriminate.
  - reflexivity.
Defined.

Lemma main_searches_in_order_witness :
  let st := snd (main scripted config0 (fresh script_report)) in
  let created :=
    jira_search (list Reply) scripted config0 (jql_created config0) None 100
      script_report in
  let resolved :=
    jira_search (list Reply) scripted config0 (jql_resolved config0)
      (Some resolved_fields) 100 (run_world created) in
  let bugs :=
    jira_search (list Reply) scripted config0 (jql_bugs config0) None 100
      (run_world resolved) in
  (atlassian_user config0 <> "" /\ atlassian_token config0 <> "" /\
   calendar_date (start_date config0) /\ calendar_date (end_date config0)) /\
  (exists l1 l2 l3,
     result created = Returned l1 /\ result resolved = Returned l2 /\
     result bugs = Returned l3) /\
  sent st = requests created ++ requests resolved ++ requests bugs /\
  service st = run_world bugs.
Proof.
  apply (main_searches_in_order (list Reply) scripted config0 script_report
           (snd (main scripted config0 (fresh script_report)))).
  vm_compute. reflexivity.
Defined.

End ReportFacts.
